(** * deno-ddb: a shallow embedding of the backup target core

    The development follows the TypeScript sources, one module per file:
    - [U8Pipe]            u8pipe.ts               the byte pipe
    - [Filter]            filter.ts               include and exclude patterns
    - [BackupLog]         backup-log.ts           the manifest and its names
    - [HashFileSystemV5]  hash-filesystem-v5.ts   the layout of the object store
    - [BackupFileSystem]  backup-filesystem.ts    put and verify
    - [BackupInstance]    backup-instance.ts      one run and its log
    - [BackupSource]      backup-source.ts        the walker
    - [BackupSet]         backup-set.ts           the statistics of a run
    - [Target], [LocalBackup]  backup-target.ts   fsck, verify, backup
    - [Fs]                fs.ts                   files, directories, zip, hash
    - [HashFile]          _fs/hash-file.ts        the digest and the block signature
    - [AuthDb]            auth-db.ts              the access keys

    Functions that touch files run in a monad over a [World]: the disk
    (a map from paths to nodes), the console, a trace of what was done to
    files, the clock and the statistics object of the running set.  What
    is not in the sources (the JavaScript library, Deno, std/path,
    std/fs, the gzip and hash libraries) is modelled in [JS], [Json],
    [Num], [Date], [Path] and [Fs], the last two libraries as a class
    [Codec] of three functions.

    Part I holds the definitions, Part II the theorems. *)

From Stdlib Require Import ZArith Lia Bool List Ascii String Strings.Byte.
From stdpp Require Import base option list strings gmap.

Import ListNotations.
Local Open Scope string_scope.
Local Open Scope list_scope.

(* ===================================================================== *)
(** * Part I: definitions                                                 *)
(* ===================================================================== *)

(** ** The JavaScript values and string primitives the sources rely on.

    Strings are sequences of 8-bit characters; the sources only ever test
    and cut at ASCII characters. *)

Module JS.

(** [s.substr(start)] and [s.substr(start, len)], for [start >= 0]. *)
Fixpoint drop_str (n : nat) (s : string) : string :=
  match n, s with
  | O, _ => s
  | S n', String _ s' => drop_str n' s'
  | S _, EmptyString => EmptyString
  end.

Fixpoint take_str (n : nat) (s : string) : string :=
  match n, s with
  | S n', String c s' => String c (take_str n' s')
  | _, _ => EmptyString
  end.

Definition substr (s : string) (start : nat) (len : option nat) : string :=
  match len with
  | None => drop_str start s
  | Some l => take_str l (drop_str start s)
  end.

(** [s[i]]: the character at [i], or [undefined]. *)
Definition char_at (s : string) (i : nat) : option ascii := String.get i s.

(** [s.startsWith(p)] *)
Definition startsWith (s p : string) : bool := String.prefix p s.

(** [s.includes(t)] *)
Fixpoint includes (s t : string) : bool :=
  String.prefix t s ||
  match s with
  | EmptyString => false
  | String _ s' => includes s' t
  end.

(** [s.split(sep)] for a separator that is a one-character class: the
    pieces between the separators, empty pieces included. *)
Fixpoint split_go (sep : ascii -> bool) (cur : string) (s : string) : list string :=
  match s with
  | EmptyString => [String.rev cur]
  | String c s' =>
    if sep c then String.rev cur :: split_go sep EmptyString s'
    else split_go sep (String c cur) s'
  end.

Definition split (sep : ascii -> bool) (s : string) : list string :=
  split_go sep EmptyString s.

(** [s.replace(/re/g, rep)] where the expression is given by [m]: [m t]
    is the length of the match found at the head of [t], if there is one.
    Matches are taken left to right and never overlap; replaced text is
    not looked at again.  [skip] counts the characters of the current
    match still to be dropped. *)
Fixpoint replace_go (m : string -> option nat) (rep : string) (skip : nat)
    (s : string) : string :=
  match s with
  | EmptyString => EmptyString
  | String c s' =>
    match skip with
    | S k => replace_go m rep k s'
    | O =>
      match m s with
      | Some (S k) => rep +:+ replace_go m rep k s'
      | _ => String c (replace_go m rep 0 s')
      end
    end
  end.

Definition replace_all (m : string -> option nat) (rep : string) (s : string) : string :=
  replace_go m rep 0 s.

(** Matchers for a literal text and for a one-character class. *)
Definition lit (t : string) (s : string) : option nat :=
  if String.prefix t s then Some (String.length t) else None.

Definition one_of (f : ascii -> bool) (s : string) : option nat :=
  match s with
  | String c _ => if f c then Some 1 else None
  | EmptyString => None
  end.

(** An [Error] object: the fields the sources read. *)
Record Error := MkError {
  e_name : string;
  e_message : option string;
  e_code : option string
}.

(** How a call ends: with a value, with an exception a [catch] can
    take, or with the process brought down by a rejection nobody handles
    (an exception inside the [async] executor of a [new Promise], or
    inside a detached [async] function). *)
Inductive result (A : Type) :=
| Ok (a : A)
| Throw (e : Error)
| Crash (e : Error)
| OutOfFuel.     (* not an outcome of the program: a bound of the model was hit *)
Arguments Ok {A} a.
Arguments Throw {A} e.
Arguments Crash {A} e.
Arguments OutOfFuel {A}.

(** Sequencing: an exception ends the computation.  With the instances
    below, [x ← r; k] is stdpp's notation for it. *)
#[export] Instance result_ret : MRet result := fun A a => Ok a.
#[export] Instance result_bind : MBind result := fun A B k r =>
  match r with
  | Ok a => k a
  | Throw e => Throw e
  | Crash e => Crash e
  | OutOfFuel => OutOfFuel
  end.

End JS.

(** ** Byte buffers ([Uint8Array]) *)

Module U8.

Abbreviation bytes := (list byte).

(** [p.set(block, offset)]: overwrite [p] from [offset] on with [block].
    Every call site guards [offset + |block| <= |p|]. *)
Definition set (p block : bytes) (offset : nat) : bytes :=
  take offset p ++ block ++ drop (offset + length block) p.

(** [block.slice(a)] and [block.slice(0, b)]. *)
Definition slice_from (block : bytes) (a : nat) : bytes := drop a block.
Definition slice_to (block : bytes) (b : nat) : bytes := take b block.

End U8.

(** ** u8pipe.ts *)

Module U8Pipe.
Import U8.

(** The closure state of [getUint8Pipe()].  The md5 digest kept beside
    each queued chunk is read only by [checkHashes], which runs when the
    DEBUG switch is on; the queue therefore holds the chunks alone. *)
Record pipe := Pipe {
  chunks : list bytes;
  totBytesIn : nat;
  totBytesOut : nat;
  eof : bool;
  mismatch_logged : bool   (* console.error('stream input/output mismatch') was hit *)
}.

Definition empty : pipe :=
  {| chunks := []; totBytesIn := 0; totBytesOut := 0; eof := false;
     mismatch_logged := false |}.

(** [writeSync(chunk, isLast)] *)
Definition writeSync (chunk : bytes) (isLast : bool) (s : pipe) : pipe :=
  {| chunks := chunks s ++ [chunk];
     totBytesIn := totBytesIn s + length chunk;
     totBytesOut := totBytesOut s;
     eof := isLast;
     mismatch_logged := mismatch_logged s |}.

(** What a call of [read(p)] comes to: a byte count, [null], or the
    reader is parked in the 1 ms polling loop (empty queue, no eof yet). *)
Inductive outcome :=
| Count (n : nat)
| Null
| Waiting.

(** [let chunk = chunks.shift();
     while (chunk && chunk.chunk.byteLength == 0) chunk = chunks.shift();] *)
Fixpoint shift_nonempty (q : list bytes) : option bytes * list bytes :=
  match q with
  | [] => (None, [])
  | c :: q' => if Nat.eqb (length c) 0 then shift_nonempty q' else (Some c, q')
  end.

(** The state of the copy loop of [read]: the block in hand, the queue,
    the caller's buffer, [offset] and [totBytesOut]. *)
Record fill_state := Fill {
  f_block : bytes;
  f_queue : list bytes;
  f_buf : bytes;
  f_offset : nat;
  f_out : nat
}.

(** [while (block.byteLength <= p.byteLength - offset) {
       totBytesOut += block.byteLength; p.set(block, offset);
       offset += block.byteLength;
       chunk = chunks.shift(); if (!chunk) break; block = chunk.chunk; }]
    The recursion follows the queue, which every turn shortens. *)
Fixpoint fill (block : bytes) (q : list bytes) (p : bytes) (offset out : nat)
  : fill_state :=
  if Nat.leb (length block) (length p - offset) then
    let p' := set p block offset in
    let offset' := offset + length block in
    let out' := out + length block in
    match q with
    | [] => Fill block [] p' offset' out'
    | c :: q' => fill c q' p' offset' out'
    end
  else Fill block q p offset out.

(** [read(p)], with the buffer passed in and handed back. *)
Definition read (p : bytes) (s : pipe) : outcome * bytes * pipe :=
  match chunks s, eof s with
  | [], false => (Waiting, p, s)
  | _, _ =>
    match shift_nonempty (chunks s) with
    | (Some block, q) =>
      let f := fill block q p 0 (totBytesOut s) in
      if Nat.ltb 0 (f_offset f) then
        (Count (f_offset f), f_buf f,
         {| chunks := f_queue f; totBytesIn := totBytesIn s;
            totBytesOut := f_out f; eof := eof s;
            mismatch_logged := mismatch_logged s |})
      else
        (* chunk too big, return as much as we can *)
        let blk := f_block f in
        let p' := set (f_buf f) (slice_to blk (length p)) 0 in
        (Count (length p), p',
         {| chunks := slice_from blk (length p) :: f_queue f;
            totBytesIn := totBytesIn s;
            totBytesOut := f_out f + length p; eof := eof s;
            mismatch_logged := mismatch_logged s |})
    | (None, q) =>
      (Null, p,
       {| chunks := q; totBytesIn := totBytesIn s;
          totBytesOut := totBytesOut s; eof := eof s;
          mismatch_logged :=
            mismatch_logged s || negb (Nat.eqb (totBytesIn s) (totBytesOut s)) |})
    end
  end.

(** A consumer in the style of [Deno.iter]: read into a buffer of
    [bufSize] bytes until [null], collecting [p.subarray(0, n)] each time.
    [fuel] bounds the number of reads; the result is [None] when the fuel
    runs out or the reader is left waiting. *)
Fixpoint drain (fuel bufSize : nat) (s : pipe) : option (bytes * pipe) :=
  match fuel with
  | O => None
  | S fuel' =>
    match read (repeat x00 bufSize) s with
    | (Null, _, s') => Some ([], s')
    | (Waiting, _, _) => None
    | (Count n, p, s') =>
      match drain fuel' bufSize s' with
      | Some (rest, s'') => Some (take n p ++ rest, s'')
      | None => None
      end
    end
  end.

(** Writing a list of chunks, the last one flagged [isLast]. *)
Fixpoint write_all (cs : list bytes) (s : pipe) : pipe :=
  match cs with
  | [] => s
  | [c] => writeSync c true s
  | c :: cs' => write_all cs' (writeSync c false s)
  end.

(** The first loop of [_read]: chunks are taken off the queue while the
    one at the head fits what is left of the buffer. *)
Record take_state := Take {
  t_queue : list bytes;
  t_buf : bytes;
  t_offset : nat;
  t_need : nat;
  t_out : nat
}.

Fixpoint _read_take (q : list bytes) (p : bytes) (offset need out : nat) : take_state :=
  match q with
  | c :: q' =>
    if Nat.leb (length c) need
    then _read_take q' (set p c offset) (offset + length c) (need - length c)
           (out + length c)
    else Take q p offset need out
  | [] => Take [] p offset need out
  end.

(** [_read(p, offset = 0)], for [offset <= p.byteLength].  [Count 0] is
    the answer "no data available". *)
Definition _read (p : bytes) (offset : nat) (s : pipe) : outcome * bytes * pipe :=
  let t := _read_take (chunks s) p offset (length p - offset) (totBytesOut s) in
  let after q out :=
    {| chunks := q; totBytesIn := totBytesIn s; totBytesOut := out;
       eof := eof s; mismatch_logged := mismatch_logged s |} in
  if Nat.eqb (t_need t) 0 then (Count (t_offset t), t_buf t, after (t_queue t) (t_out t))
  else
    match t_queue t with
    | [] =>
      if Nat.ltb 0 (t_offset t) then (Count (t_offset t), t_buf t, after [] (t_out t))
      else if eof s then (Null, t_buf t, after [] (t_out t))
      else (Count 0, t_buf t, after [] (t_out t))
    | block :: q' =>
      (Count (length p),
       set (t_buf t) (slice_to block (t_need t - 1)) (t_offset t),
       after (slice_from block (t_need t) :: q') (t_out t + t_need t))
    end.

End U8Pipe.

(** ** filter.ts *)

Module Filter.
Import JS.

(** *** The regular expressions [_init] builds.

    [new RegExp(src)] is modelled on the fragment the translation emits:
    a leading [^], then a sequence of atoms (a character, [.], or a
    bracket class), each optionally followed by [*] or [+].  There is no
    [$]: a match may stop anywhere in the subject. *)
Inductive atom :=
| AChar (c : ascii)
| AAny
| AClass (neg : bool) (cs : list ascii).

Inductive quant := One | Star | Plus.

Definition RegExp := list (atom * quant).

Definition is_line_terminator (c : ascii) : bool :=
  Ascii.eqb c "010"%char || Ascii.eqb c "013"%char.

Definition atom_ok (a : atom) (c : ascii) : bool :=
  match a with
  | AChar d => Ascii.eqb c d
  | AAny => negb (is_line_terminator c)
  | AClass neg cs => xorb neg (existsb (Ascii.eqb c) cs)
  end.

(** [a*] followed by the continuation [k]. *)
Fixpoint star (a : atom) (k : string -> bool) (s : string) : bool :=
  k s ||
  match s with
  | String c s' => atom_ok a c && star a k s'
  | EmptyString => false
  end.

(** Does the expression match at the start of [s]? *)
Fixpoint match_here (r : RegExp) (s : string) : bool :=
  match r with
  | [] => true
  | (a, One) :: r' =>
    match s with
    | String c s' => atom_ok a c && match_here r' s'
    | EmptyString => false
    end
  | (a, Star) :: r' => star a (match_here r') s
  | (a, Plus) :: r' =>
    match s with
    | String c s' => atom_ok a c && star a (match_here r') s'
    | EmptyString => false
    end
  end.

(** [re.test(str)] for an expression without the global flag. *)
Definition test (re : RegExp) (str : string) : bool := match_here re str.

(** Reading the source text of an expression.  [None] means the text is
    outside the fragment above (groups, alternation, ranges, braces,
    lazy quantifiers, escapes outside a class, a dangling quantifier). *)
Inductive pstate :=
| PStart                                   (* nothing pending *)
| PAtom (a : atom)                         (* an atom whose quantifier may follow *)
| PClassOpen                               (* just after [ *)
| PClass (neg : bool) (cs : list ascii)    (* inside a class *)
| PClassEsc (neg : bool) (cs : list ascii) (* after a backslash inside a class *).

Definition is_meta (c : ascii) : bool :=
  existsb (Ascii.eqb c)
    ["("; ")"; "|"; "?"; "{"; "}"; "^"; "$"; "]"; "\"]%char.

Fixpoint parse_go (st : pstate) (acc : RegExp) (s : string) : option RegExp :=
  match s with
  | EmptyString =>
    match st with
    | PStart => Some (rev acc)
    | PAtom a => Some (rev ((a, One) :: acc))
    | _ => None
    end
  | String c s' =>
    match st with
    | PClassOpen =>
      if Ascii.eqb c "^" then parse_go (PClass true []) acc s'
      else if Ascii.eqb c "\" then parse_go (PClassEsc false []) acc s'
      else if Ascii.eqb c "]" || Ascii.eqb c "-" then None
      else parse_go (PClass false [c]) acc s'
    | PClass neg cs =>
      if Ascii.eqb c "]" then parse_go (PAtom (AClass neg (rev cs))) acc s'
      else if Ascii.eqb c "\" then parse_go (PClassEsc neg cs) acc s'
      else if Ascii.eqb c "-" then None
      else parse_go (PClass neg (c :: cs)) acc s'
    | PClassEsc neg cs =>
      if Ascii.eqb c "\" || Ascii.eqb c "/" then parse_go (PClass neg (c :: cs)) acc s'
      else None
    | PAtom a =>
      if Ascii.eqb c "*" then parse_go PStart ((a, Star) :: acc) s'
      else if Ascii.eqb c "+" then parse_go PStart ((a, Plus) :: acc) s'
      else if Ascii.eqb c "[" then parse_go PClassOpen ((a, One) :: acc) s'
      else if Ascii.eqb c "." then parse_go (PAtom AAny) ((a, One) :: acc) s'
      else if is_meta c then None
      else parse_go (PAtom (AChar c)) ((a, One) :: acc) s'
    | PStart =>
      if Ascii.eqb c "[" then parse_go PClassOpen acc s'
      else if Ascii.eqb c "." then parse_go (PAtom AAny) acc s'
      else if Ascii.eqb c "*" || Ascii.eqb c "+" || is_meta c then None
      else parse_go (PAtom (AChar c)) acc s'
    end
  end.

(** [new RegExp(src)] for a source that starts with [^]. *)
Definition new_RegExp (src : string) : option RegExp :=
  match src with
  | String "^" body => parse_go PStart [] body
  | _ => None
  end.

(** *** The class *)

Record FilterItem := MkItem {
  type : option ascii;          (* pattern[0] *)
  pattern : list string;
  re : RegExp
}.

Definition is_sep (c : ascii) : bool := Ascii.eqb c "/" || Ascii.eqb c "\".

(** The chain of [replace] calls that turns a glob into the source of
    the expression.  The third step replaces ['.'] by the string literal
    ['\.'], which in JavaScript is the one-character string ['.']. *)
Definition starstar_slash (s : string) : option nat :=
  match s with
  | String "*" (String "*" (String c _)) => if is_sep c then Some 3 else None
  | _ => None
  end.

Definition glob_source (p : string) : string :=
  let s1 := replace_all starstar_slash "{STARSTARGLOBSLASH}" p in
  let s2 := replace_all (lit "**") "{STARSTARGLOB}" s1 in
  let s3 := replace_all (one_of (Ascii.eqb ".")) "." s2 in
  let s4 := replace_all (one_of is_sep) "[/\\]" s3 in
  let s5 := replace_all (one_of (Ascii.eqb "*")) "[^/\\]*" s4 in
  let s6 := replace_all (lit "{STARSTARGLOB}") ".*" s5 in
  let s7 := replace_all (lit "{STARSTARGLOBSLASH}") ".+[\\/]" s6 in
  "^" +:+ s7.

(** The pattern an item was made from: [type] followed by [p].  With
    no [type] the pattern is empty, and so is [p]. *)
Definition pattern_text (ty : option ascii) (p : string) : string :=
  match ty with
  | Some c => String c p
  | None => p
  end.

Definition item (ty : option ascii) (p : string) : option FilterItem :=
  match new_RegExp (glob_source p) with
  | Some r => Some (MkItem ty (split is_sep (pattern_text ty p)) r)
  | None => None
  end.

(** The items one pattern [type + p] gives: [re([type + p.substr(3)])]
    first when [p] starts with a double star and a separator, then the item of the
    pattern itself. *)
Fixpoint re_pattern (ty : option ascii) (p : string) : option (list FilterItem) :=
  let own := item ty p in
  match p with
  | String "*" (String "*" (String c rest)) =>
    if is_sep c then
      match re_pattern ty rest, own with
      | Some sub, Some it => Some (sub ++ [it])
      | _, _ => None
      end
    else option_map (fun it => [it]) own
  | _ => option_map (fun it => [it]) own
  end.

(** The inner function [re(patterns)] of [_init]. *)
Fixpoint re_patterns (patterns : list string) : option (list FilterItem) :=
  match patterns with
  | [] => Some []
  | pat :: rest =>
    match re_pattern (char_at pat 0) (substr pat 1 None), re_patterns rest with
    | Some its, Some more => Some (its ++ more)
    | _, _ => None
    end
  end.

(** A [Filter] object is its [filters] field. *)
Record t := MkFilter { filters : option (list FilterItem) }.

Definition _init (patterns : list string) : option t :=
  option_map (fun fs => MkFilter (Some fs)) (re_patterns patterns).

(** [new Filter({ filters, filterItems })]; an array is truthy even when
    it is empty. *)
Definition new (filters_arg : option (list string))
    (filterItems : option (list FilterItem)) : option t :=
  match filters_arg with
  | Some pats => _init pats
  | None => Some (MkFilter filterItems)
  end.

Definition getFilters (f : t) : option (list FilterItem) := filters f.

(** One turn of the loop of [ignores]. *)
Definition ignores_step (str : string) (ignored : option FilterItem)
    (f : FilterItem) : option FilterItem :=
  if test (re f) str then
    match type f with
    | Some "-"%char => Some f
    | _ => None
    end
  else ignored.

Definition ignores (flt : t) (str : string) : option FilterItem :=
  match filters flt with
  | Some fs => fold_left (ignores_step str) fs None
  | None => None
  end.

End Filter.

(** ** JSON, for the one kind of value the manifest holds: a string *)

Module Json.
Import JS.

Definition dquote : ascii := "034"%char.
Definition backslash : ascii := "092"%char.

Definition hex_digit (n : nat) : ascii :=
  if (n <? 10)%nat then ascii_of_nat (48 + n) else ascii_of_nat (87 + n).

Definition escape_char (c : ascii) : string :=
  let n := nat_of_ascii c in
  if Ascii.eqb c dquote then String backslash (String dquote "")
  else if Ascii.eqb c backslash then String backslash (String backslash "")
  else if (n =? 8)%nat then String backslash "b"
  else if (n =? 9)%nat then String backslash "t"
  else if (n =? 10)%nat then String backslash "n"
  else if (n =? 12)%nat then String backslash "f"
  else if (n =? 13)%nat then String backslash "r"
  else if (n <? 32)%nat then
    String backslash
      ("u00" +:+ String (hex_digit (n / 16)) (String (hex_digit (n mod 16)) ""))
  else String c "".

Fixpoint escape (s : string) : string :=
  match s with
  | EmptyString => EmptyString
  | String c s' => escape_char c +:+ escape s'
  end.

(** [JSON.stringify(s)] for a string [s]. *)
Definition stringify (s : string) : string :=
  String dquote (escape s +:+ String dquote "").

Definition is_ws (c : ascii) : bool :=
  let n := nat_of_ascii c in
  (n =? 32)%nat || (n =? 9)%nat || (n =? 10)%nat || (n =? 13)%nat.

Definition hex_val (c : ascii) : option nat :=
  let n := nat_of_ascii c in
  if (48 <=? n)%nat && (n <=? 57)%nat then Some (n - 48)
  else if (97 <=? n)%nat && (n <=? 102)%nat then Some (n - 87)
  else if (65 <=? n)%nat && (n <=? 70)%nat then Some (n - 55)
  else None.

Definition unescape (c : ascii) : option ascii :=
  if Ascii.eqb c dquote then Some dquote
  else if Ascii.eqb c backslash then Some backslash
  else if Ascii.eqb c "/" then Some "/"%char
  else if Ascii.eqb c "b" then Some "008"%char
  else if Ascii.eqb c "t" then Some "009"%char
  else if Ascii.eqb c "n" then Some "010"%char
  else if Ascii.eqb c "f" then Some "012"%char
  else if Ascii.eqb c "r" then Some "013"%char
  else None.

Inductive dstate :=
| DBefore                               (* blanks before the opening quote *)
| DIn (acc : string)                    (* inside, [acc] reversed *)
| DEsc (acc : string)                   (* after a backslash *)
| DHex (acc : string) (k v : nat)       (* in a \u escape: digits read, value *)
| DAfter (acc : string).                (* blanks after the closing quote *)

Fixpoint decode_go (st : dstate) (s : string) : option string :=
  match s with
  | EmptyString =>
    match st with
    | DAfter acc => Some (String.rev acc)
    | _ => None
    end
  | String c s' =>
    match st with
    | DBefore =>
      if is_ws c then decode_go DBefore s'
      else if Ascii.eqb c dquote then decode_go (DIn "") s'
      else None
    | DIn acc =>
      if Ascii.eqb c dquote then decode_go (DAfter acc) s'
      else if Ascii.eqb c backslash then decode_go (DEsc acc) s'
      else if (nat_of_ascii c <? 32)%nat then None
      else decode_go (DIn (String c acc)) s'
    | DEsc acc =>
      if Ascii.eqb c "u" then decode_go (DHex acc 0 0) s'
      else match unescape c with
           | Some d => decode_go (DIn (String d acc)) s'
           | None => None
           end
    | DHex acc k v =>
      match hex_val c with
      | Some h =>
        let v' := v * 16 + h in
        if (k =? 3)%nat then
          if (v' <? 256)%nat then decode_go (DIn (String (ascii_of_nat v') acc)) s'
          else None
        else decode_go (DHex acc (S k) v') s'
      | None => None
      end
    | DAfter acc => if is_ws c then decode_go (DAfter acc) s' else None
    end
  end.

(** Whether a text is JSON at all: a value of any kind between blanks.
    The reader keeps the containers that are open and where it is
    within a string, a number or a literal. *)
Inductive container := CObj | CArr.

Inductive vstate :=
| VValue                          (* a value is to come *)
| VArrStart                       (* after [: a value or ] *)
| VObjStart                       (* after {: a key or } *)
| VKey                            (* after a comma in an object: a key *)
| VColon                          (* after a key: the colon *)
| VAfter                          (* after a value *)
| VStr (key : bool)               (* inside a string *)
| VEsc (key : bool)               (* after a backslash *)
| VHex (key : bool) (k : nat)     (* in a \u escape, [k] digits after the next *)
| VLit (rest : string)            (* the rest of true, false or null *)
| VMinus | VZero | VInt | VDot | VFrac | VExp | VExpSign | VExpDigits.

Definition is_digit19 (c : ascii) : bool :=
  (49 <=? nat_of_ascii c)%nat && (nat_of_ascii c <=? 57)%nat.
Definition is_digit09 (c : ascii) : bool :=
  (48 <=? nat_of_ascii c)%nat && (nat_of_ascii c <=? 57)%nat.
Definition is_e (c : ascii) : bool := Ascii.eqb c "e" || Ascii.eqb c "E".

Definition after_value (c : ascii) (stack : list container)
  : option (vstate * list container) :=
  if is_ws c then Some (VAfter, stack)
  else match stack with
       | CObj :: up =>
         if Ascii.eqb c "," then Some (VKey, stack)
         else if Ascii.eqb c "}" then Some (VAfter, up)
         else None
       | CArr :: up =>
         if Ascii.eqb c "," then Some (VValue, stack)
         else if Ascii.eqb c "]" then Some (VAfter, up)
         else None
       | [] => None
       end.

Definition begin_value (c : ascii) (stack : list container)
  : option (vstate * list container) :=
  if Ascii.eqb c dquote then Some (VStr false, stack)
  else if Ascii.eqb c "{" then Some (VObjStart, CObj :: stack)
  else if Ascii.eqb c "[" then Some (VArrStart, CArr :: stack)
  else if Ascii.eqb c "-" then Some (VMinus, stack)
  else if Ascii.eqb c "0" then Some (VZero, stack)
  else if is_digit19 c then Some (VInt, stack)
  else if Ascii.eqb c "t" then Some (VLit "rue", stack)
  else if Ascii.eqb c "f" then Some (VLit "alse", stack)
  else if Ascii.eqb c "n" then Some (VLit "ull", stack)
  else None.

Definition vstep (st : vstate) (stack : list container) (c : ascii)
  : option (vstate * list container) :=
  match st with
  | VValue => if is_ws c then Some (VValue, stack) else begin_value c stack
  | VArrStart =>
    if is_ws c then Some (VArrStart, stack)
    else if Ascii.eqb c "]" then Some (VAfter, tl stack)
    else begin_value c stack
  | VObjStart =>
    if is_ws c then Some (VObjStart, stack)
    else if Ascii.eqb c "}" then Some (VAfter, tl stack)
    else if Ascii.eqb c dquote then Some (VStr true, stack)
    else None
  | VKey =>
    if is_ws c then Some (VKey, stack)
    else if Ascii.eqb c dquote then Some (VStr true, stack)
    else None
  | VColon =>
    if is_ws c then Some (VColon, stack)
    else if Ascii.eqb c ":" then Some (VValue, stack)
    else None
  | VAfter => after_value c stack
  | VStr key =>
    if Ascii.eqb c dquote then Some (if key then VColon else VAfter, stack)
    else if Ascii.eqb c backslash then Some (VEsc key, stack)
    else if (nat_of_ascii c <? 32)%nat then None
    else Some (VStr key, stack)
  | VEsc key =>
    if Ascii.eqb c "u" then Some (VHex key 3, stack)
    else match unescape c with
         | Some _ => Some (VStr key, stack)
         | None => None
         end
  | VHex key k =>
    match hex_val c, k with
    | Some _, O => Some (VStr key, stack)
    | Some _, S k' => Some (VHex key k', stack)
    | None, _ => None
    end
  | VLit rest =>
    match rest with
    | String d EmptyString => if Ascii.eqb c d then Some (VAfter, stack) else None
    | String d r => if Ascii.eqb c d then Some (VLit r, stack) else None
    | EmptyString => None
    end
  | VMinus =>
    if Ascii.eqb c "0" then Some (VZero, stack)
    else if is_digit19 c then Some (VInt, stack)
    else None
  | VZero =>
    if Ascii.eqb c "." then Some (VDot, stack)
    else if is_e c then Some (VExp, stack)
    else after_value c stack
  | VInt =>
    if is_digit09 c then Some (VInt, stack)
    else if Ascii.eqb c "." then Some (VDot, stack)
    else if is_e c then Some (VExp, stack)
    else after_value c stack
  | VDot => if is_digit09 c then Some (VFrac, stack) else None
  | VFrac =>
    if is_digit09 c then Some (VFrac, stack)
    else if is_e c then Some (VExp, stack)
    else after_value c stack
  | VExp =>
    if Ascii.eqb c "+" || Ascii.eqb c "-" then Some (VExpSign, stack)
    else if is_digit09 c then Some (VExpDigits, stack)
    else None
  | VExpSign => if is_digit09 c then Some (VExpDigits, stack) else None
  | VExpDigits =>
    if is_digit09 c then Some (VExpDigits, stack) else after_value c stack
  end.

Fixpoint valid_go (st : vstate) (stack : list container) (s : string) : bool :=
  match s with
  | EmptyString =>
    match st, stack with
    | (VAfter | VZero | VInt | VFrac | VExpDigits), [] => true
    | _, _ => false
    end
  | String c s' =>
    match vstep st stack c with
    | Some (st', stack') => valid_go st' stack' s'
    | None => false
    end
  end.

(** [JSON.parse(text)] does not throw. *)
Definition valid (text : string) : bool := valid_go VValue [] text.

Definition SyntaxError : Error :=
  MkError "SyntaxError" (Some "Unexpected token in JSON") None.

(** [JSON.parse(text)] where a string is expected.  A text that is not
    JSON throws.  A text that is JSON, but holds another kind of value
    or a character beyond the 8-bit range, is beyond the model. *)
Definition parse (text : string) : result string :=
  match decode_go DBefore text with
  | Some v => Ok v
  | None => if valid text then OutOfFuel else Throw SyntaxError
  end.

End Json.

(** ** Numbers and dates *)

Module Num.

(** A JavaScript number as the sources meet it: an integer or [NaN]. *)
Inductive number :=
| Int (z : Z)
| NaN.

(** [x|0]: ToInt32, the wrap-around to a signed 32-bit integer. *)
Definition to_int32 (z : Z) : Z :=
  ((z + 2147483648) mod 4294967296 - 2147483648)%Z.

Definition digit (n : Z) : ascii := ascii_of_nat (48 + Z.to_nat (n mod 10)%Z).

(** The digits of a non-negative integer in base [b], most significant
    first; [fuel] bounds their number. *)
Fixpoint radix_go (fuel : nat) (b n : Z) (acc : string) : string :=
  match fuel with
  | O => acc
  | S fuel' =>
    let acc' := String (ascii_of_nat (48 + Z.to_nat (n mod b)%Z)) acc in
    if (n / b =? 0)%Z then acc' else radix_go fuel' b (n / b)%Z acc'
  end.

Definition to_radix (b n : Z) : string :=
  if (n <? 0)%Z then "-" +:+ radix_go (S (Z.to_nat (Z.log2 (- n)))) b (- n)%Z ""
  else radix_go (S (Z.to_nat (Z.log2 n))) b n "".

(** [String(n)] and [n.toString(8)] for integers of base at most ten. *)
Definition to_string (n : Z) : string := to_radix 10 n.
Definition to_octal (n : Z) : string := to_radix 8 n.

(** [z/1000] as a template literal prints it, for an integer [z] of
    fewer than sixteen digits: there the quotient prints with its exact
    decimals, at most three.  [None] beyond that bound. *)
Definition thousandths (z : Z) : option string :=
  if (Z.abs z <? 1000000000000000)%Z then
    let a := Z.abs z in
    let f := (a mod 1000)%Z in
    let frac :=
      if (f =? 0)%Z then ""
      else if (f mod 100 =? 0)%Z then String "." (String (digit (f / 100)) "")
      else if (f mod 10 =? 0)%Z
           then String "." (String (digit (f / 100)) (String (digit (f / 10)) ""))
      else String "." (String (digit (f / 100))
                         (String (digit (f / 10)) (String (digit f) ""))) in
    Some ((if (z <? 0)%Z then "-" else "") +:+ to_string (a / 1000) +:+ frac)
  else None.

Definition number_to_string (n : number) : string :=
  match n with
  | Int z => to_string z
  | NaN => "NaN"
  end.

Definition is_digit (c : ascii) : bool :=
  (48 <=? nat_of_ascii c)%nat && (nat_of_ascii c <=? 57)%nat.

Definition digit_val (c : ascii) : Z := Z.of_nat (nat_of_ascii c - 48).

(** The value of the longest prefix of decimal digits, with the
    remainder; [None] when there is no digit at the head. *)
Fixpoint digits_go (acc : Z) (seen : bool) (s : string) : option Z * string :=
  match s with
  | String c s' =>
    if is_digit c then digits_go (acc * 10 + digit_val c)%Z true s'
    else ((if seen then Some acc else None), s)
  | EmptyString => ((if seen then Some acc else None), EmptyString)
  end.

(** [parseInt(s)] for a text without leading blanks: an optional sign and
    the longest run of digits. *)
Definition parseInt (s : string) : number :=
  let '(neg, body) :=
    match s with
    | String "-" s' => (true, s')
    | String "+" s' => (false, s')
    | _ => (false, s)
    end in
  match digits_go 0 false body with
  | (Some v, _) => Int (if neg then - v else v)%Z
  | (None, _) => NaN
  end.

(** [s|0] for a text [s]: ToNumber, then ToInt32.  Signed decimal
    integers and the empty text are read as JavaScript reads them; every
    other text goes the way of [NaN], to zero (fractions, exponents, hex
    and blanks are not read here). *)
Definition string_or0 (s : string) : Z :=
  let '(neg, body) :=
    match s with
    | String "-" s' => (true, s')
    | String "+" s' => (false, s')
    | _ => (false, s)
    end in
  match digits_go 0 false body with
  | (Some v, EmptyString) => to_int32 (if neg then - v else v)
  | _ => 0%Z
  end.

End Num.

Module Date.
Import Num.

(** A [Date] object: its time value in milliseconds since the epoch, or
    the invalid date, whose time value is [NaN]. *)
Inductive t :=
| Ms (tv : Z)
| Invalid.

(** [a <= b] and [a > b] on dates compare the time values; with a [NaN]
    on either side both are false. *)
Definition le (a b : t) : bool :=
  match a, b with
  | Ms x, Ms y => (x <=? y)%Z
  | _, _ => false
  end.

Definition gt (a b : t) : bool :=
  match a, b with
  | Ms x, Ms y => (y <? x)%Z
  | _, _ => false
  end.

(** [a.getTime() != b.getTime()]; [NaN] differs from everything. *)
Definition getTime_ne (a b : t) : bool :=
  match a, b with
  | Ms x, Ms y => negb (x =? y)%Z
  | _, _ => true
  end.

(** The calendar fields of a time value (ECMAScript's Day, YearFromTime,
    MonthFromTime, DateFromTime in the proleptic Gregorian calendar),
    computed from the day number by the era/day-of-era decomposition. *)
Definition msPerDay : Z := 86400000.

Record civil := Civil { c_year : Z; c_month : Z; c_day : Z }.

Definition civil_of_days (days : Z) : civil :=
  let z := (days + 719468)%Z in
  let era := (z / 146097)%Z in
  let doe := (z - era * 146097)%Z in
  let yoe := ((doe - doe / 1460 + doe / 36524 - doe / 146096) / 365)%Z in
  let y := (yoe + era * 400)%Z in
  let doy := (doe - (365 * yoe + yoe / 4 - yoe / 100))%Z in
  let mp := ((5 * doy + 2) / 153)%Z in
  let d := (doy - (153 * mp + 2) / 5 + 1)%Z in
  let m := (if mp <? 10 then mp + 3 else mp - 9)%Z in
  Civil (if m <=? 2 then y + 1 else y)%Z m d.

Definition year_of (tv : Z) : Z := c_year (civil_of_days (tv / msPerDay)).

Definition pad2 (n : Z) : string :=
  String (digit (n / 10)) (String (digit n) "").
Definition pad3 (n : Z) : string :=
  String (digit (n / 100)) (pad2 n).
Definition pad4 (n : Z) : string :=
  String (digit (n / 1000)) (pad3 n).
Definition pad6 (n : Z) : string :=
  String (digit (n / 100000)) (String (digit (n / 10000)) (pad4 n)).

(** The year of the ISO format: four digits from 0 to 9999, otherwise a
    sign and six digits. *)
Definition iso_year (y : Z) : string :=
  if (0 <=? y)%Z && (y <=? 9999)%Z then pad4 y
  else if (y <? 0)%Z then "-" +:+ pad6 (- y)
  else "+" +:+ pad6 y.

Definition iso_of_ms (tv : Z) : string :=
  let c := civil_of_days (tv / msPerDay) in
  let r := (tv mod msPerDay)%Z in
  iso_year (c_year c) +:+ "-" +:+ pad2 (c_month c) +:+ "-" +:+ pad2 (c_day c)
  +:+ "T" +:+ pad2 (r / 3600000) +:+ ":" +:+ pad2 (r / 60000 mod 60)
  +:+ ":" +:+ pad2 (r / 1000 mod 60) +:+ "." +:+ pad3 (r mod 1000) +:+ "Z".

(** [d.toISOString()]; the invalid date throws a [RangeError]. *)
Definition toISOString (d : t) : JS.result string :=
  match d with
  | Ms tv => JS.Ok (iso_of_ms tv)
  | Invalid => JS.Throw (JS.MkError "RangeError" (Some "Invalid time value") None)
  end.

(** The day number of a calendar date, the inverse of [civil_of_days]. *)
Definition days_of_civil (y m d : Z) : Z :=
  let y' := (if m <=? 2 then y - 1 else y)%Z in
  let era := (y' / 400)%Z in
  let yoe := (y' - era * 400)%Z in
  let doy := ((153 * (if 2 <? m then m - 3 else m + 9) + 2) / 5 + d - 1)%Z in
  let doe := (yoe * 365 + yoe / 4 - yoe / 100 + doy)%Z in
  (era * 146097 + doe - 719468)%Z.

Fixpoint all_digits (s : string) : bool :=
  match s with
  | EmptyString => true
  | String c s' => is_digit c && all_digits s'
  end.

Definition field (s : string) (start len : nat) : option Z :=
  let f := JS.substr s start (Some len) in
  if all_digits f && (String.length f =? len)%nat
  then fst (digits_go 0 false f) else None.

Definition sep_at (s : string) (i : nat) (c : ascii) : bool :=
  match String.get i s with
  | Some d => Ascii.eqb c d
  | None => false
  end.

(** [new Date(text)] for a text in the format [toISOString] writes with
    a four-digit year.  Any other text gives the invalid date here (the
    looser formats the engine also reads are not modelled). *)
Definition parse (s : string) : t :=
  if (String.length s =? 24)%nat
     && sep_at s 4 "-" && sep_at s 7 "-" && sep_at s 10 "T"
     && sep_at s 13 ":" && sep_at s 16 ":" && sep_at s 19 "." && sep_at s 23 "Z"
  then
    match field s 0 4, field s 5 2, field s 8 2,
          field s 11 2, field s 14 2, field s 17 2, field s 20 3 with
    | Some y, Some mo, Some d, Some h, Some mi, Some sec, Some ms =>
      if ((1 <=? mo) && (mo <=? 12) && (1 <=? d) && (d <=? 31)
          && (h <=? 23) && (mi <=? 59) && (sec <=? 59))%Z
      then Ms (days_of_civil y mo d * msPerDay
               + h * 3600000 + mi * 60000 + sec * 1000 + ms)%Z
      else Invalid
    | _, _, _, _, _, _, _ => Invalid
    end
  else Invalid.

End Date.

(** ** std/path (posix), on paths without [.] and [..] segments and
    without doubled or trailing slashes, which is where [normalize]
    leaves a path as it is *)

Module Path.

Definition is_slash (c : ascii) : bool := Ascii.eqb c "/".

(** Cut at the last character that satisfies [f]. *)
Fixpoint rsplit (f : ascii -> bool) (s : string) : option (string * string) :=
  match s with
  | EmptyString => None
  | String c s' =>
    match rsplit f s' with
    | Some (a, b) => Some (String c a, b)
    | None => if f c then Some (EmptyString, s') else None
    end
  end.

(** [path.join(...parts)]: the non-empty parts with a slash between
    them, ["."] when nothing is left. *)
Fixpoint join_go (parts : list string) : string :=
  match parts with
  | [] => ""
  | [p] => p
  | p :: rest => p +:+ "/" +:+ join_go rest
  end.

Definition join (parts : list string) : string :=
  match filter (fun p => negb (String.eqb p "")) parts with
  | [] => "."
  | ps => join_go ps
  end.

Definition dirname (p : string) : string :=
  match rsplit is_slash p with
  | None => "."
  | Some (EmptyString, _) => "/"
  | Some (a, _) => a
  end.

Definition basename (p : string) : string :=
  match rsplit is_slash p with
  | None => p
  | Some (_, b) => b
  end.

(** [path.extname(p)] *)
Definition extname (p : string) : string :=
  match rsplit (Ascii.eqb ".") (basename p) with
  | None => ""
  | Some (EmptyString, _) => ""
  | Some (_, e) => "." +:+ e
  end.

(** [path.basename(p, ext)] *)
Definition basename_ext (p ext : string) : string :=
  let b := basename p in
  let n := String.length b - String.length ext in
  if negb (String.eqb b ext) && String.eqb (JS.drop_str n b) ext
  then JS.take_str n b else b.

(** [fn.split(path.SEP_PATTERN)]: a run of slashes is one separator. *)
Fixpoint split_sep_go (cur : string) (in_run : bool) (s : string) : list string :=
  match s with
  | EmptyString => [String.rev cur]
  | String c s' =>
    if is_slash c then
      if in_run then split_sep_go cur true s'
      else String.rev cur :: split_sep_go EmptyString true s'
    else split_sep_go (String c cur) false s'
  end.

Definition split_sep (s : string) : list string := split_sep_go EmptyString false s.

End Path.

(** ** The file system and the console: the world the program runs in *)

Module Fs.
Import JS.

Record Meta := MkMeta {
  m_mtime : option Date.t;
  m_birthtime : option Date.t;
  m_mode : option Z;
  m_uid : option Z;
  m_gid : option Z
}.

Inductive node :=
| File (m : Meta) (data : string)
| Dir (m : Meta) (dsize : Z)
| Symlink (m : Meta) (lsize : Z).

(** [Deno.FileInfo], as [Deno.lstat] fills it. *)
Record FileInfo := MkInfo {
  isFile : bool;
  isDirectory : bool;
  isSymlink : bool;
  size : Z;
  mtime : option Date.t;
  birthtime : option Date.t;
  mode : option Z;
  uid : option Z;
  gid : option Z
}.

(** [Deno.DirEntry] *)
Record DirEntry := MkEntry {
  name : string;
  de_isFile : bool;
  de_isDirectory : bool;
  de_isSymlink : bool
}.

(** What the program did to files, in order (newest last). *)
Inductive event :=
| EvHash (fn : string)              (* fs.hash read and digested [fn] *)
| EvRead (fn : string)              (* the content of [fn] was read *)
| EvWrite (fn : string)             (* [fn] was created, truncated or written *)
| EvMkdir (fn : string)
| EvRemove (fn : string)
| EvStore (file key : string).      (* the store routine of the object store ran *)

(** Console output. *)
Inductive out :=
| Log (s : string)                  (* console.log *)
| LogError (s : string)             (* console.error *)
| LogObject (e : Error).            (* console.dir(e), console.error(e) *)

(** [BackupStats] of backup-set.ts.  A backup set owns one such object
    and hands it to every source, which updates it in place; it is kept
    with the world so that an update made before an exception stays. *)
Record BackupStats := MkStats {
  skipped : Z;
  folders : Z;
  files : Z;
  bytes : Z;
  backedUp_files : Z;
  backedUp_bytes : Z
}.

Record World := MkWorld {
  disk : gmap string node;
  console : list out;
  trace : list event;
  clock : Z;                         (* what [new Date()] reads *)
  stats : BackupStats
}.

Definition M (A : Type) : Type := World -> result A * World.

#[export] Instance M_ret : MRet M := fun A a w => (Ok a, w).
#[export] Instance M_bind : MBind M := fun A B k m w =>
  match m w with
  | (Ok a, w') => k a w'
  | (Throw e, w') => (Throw e, w')
  | (Crash e, w') => (Crash e, w')
  | (OutOfFuel, w') => (OutOfFuel, w')
  end.

Definition throw {A} (e : Error) : M A := fun w => (Throw e, w).
Definition crash {A} (e : Error) : M A := fun w => (Crash e, w).

(** [try { m } catch (e) { h e }] *)
Definition try_catch {A} (m : M A) (h : Error -> M A) : M A := fun w =>
  match m w with
  | (Throw e, w') => h e w'
  | r => r
  end.

(** A call whose exception nobody can catch. *)
Definition detached {A} (m : M A) : M A := fun w =>
  match m w with
  | (Throw e, w') => (Crash e, w')
  | r => r
  end.

Definition get : M World := fun w => (Ok w, w).
Definition emit (ev : event) : M unit := fun w =>
  (Ok tt, MkWorld (disk w) (console w) (trace w ++ [ev]) (clock w) (stats w)).
Definition print (o : out) : M unit := fun w =>
  (Ok tt, MkWorld (disk w) (console w ++ [o]) (trace w) (clock w) (stats w)).
Definition set_disk (d : gmap string node) : M unit := fun w =>
  (Ok tt, MkWorld d (console w) (trace w) (clock w) (stats w)).
Definition set_node (p : string) (n : node) : M unit := fun w =>
  set_disk (<[p := n]> (disk w)) w.
Definition update_stats (f : BackupStats -> BackupStats) : M unit := fun w =>
  (Ok tt, MkWorld (disk w) (console w) (trace w) (clock w) (f (stats w))).
Definition out_of_fuel {A} : M A := fun w => (OutOfFuel, w).

Definition console_log (s : string) : M unit := print (Log s).
Definition console_error (s : string) : M unit := print (LogError s).
Definition console_dir (e : Error) : M unit := print (LogObject e).

Definition NotFound : Error :=
  MkError "NotFound" (Some "No such file or directory (os error 2)") None.
Definition is_NotFound (e : Error) : bool := String.eqb (e_name e) "NotFound".
Definition plain_error (msg : string) : Error := MkError "Error" (Some msg) None.

Definition info_of (n : node) : FileInfo :=
  match n with
  | File m d =>
    MkInfo true false false (Z.of_nat (String.length d))
      (m_mtime m) (m_birthtime m) (m_mode m) (m_uid m) (m_gid m)
  | Dir m sz =>
    MkInfo false true false sz
      (m_mtime m) (m_birthtime m) (m_mode m) (m_uid m) (m_gid m)
  | Symlink m sz =>
    MkInfo false false true sz
      (m_mtime m) (m_birthtime m) (m_mode m) (m_uid m) (m_gid m)
  end.

(** What [Deno.lstat] throws for a path that goes on below a regular
    file (ENOTDIR): an error that is not a [NotFound]. *)
Definition NotADirectory : Error := plain_error "Not a directory (os error 20)".

(** [k] goes on below [a]: [a], a separator, and more. *)
Definition below (a k : string) : bool := String.prefix (a +:+ "/") k.

(** [fn] lies below a regular file of the disk [d].  (A map that also
    records something below that file stands for no disk a file system
    can hold; such a file does not count.) *)
Definition below_a_file (d : gmap string node) (fn : string) : bool :=
  existsb (fun '(a, n) =>
             match n with
             | File _ _ =>
               below a fn && negb (existsb (fun kv => below a kv.1) (map_to_list d))
             | _ => false
             end) (map_to_list d).

(** [Deno.lstat(fn)], which is also [stat(fn)] of fs.ts: what is there,
    ENOTDIR for a path below a regular file, else NotFound. *)
Definition lstat (fn : string) : M FileInfo := fun w =>
  match disk w !! fn with
  | Some n => (Ok (info_of n), w)
  | None => (Throw (if below_a_file (disk w) fn then NotADirectory else NotFound), w)
  end.

Definition stat := lstat.

(** [exists] of std/fs: [lstat] succeeded, or failed with NotFound; any
    other error is thrown on. *)
Definition std_exists (fn : string) : M bool :=
  try_catch (_ ← lstat fn; mret true)
    (fun e => if is_NotFound e then mret false else throw e).

(** [exists(fn)] of fs.ts; paths are taken relative to one fixed working
    directory, so [path.resolve] leaves them as they are. *)
Definition exists_ (fn : string) : M bool := std_exists fn.

Definition entry_of (k : string) (n : node) : DirEntry :=
  let i := info_of n in
  MkEntry (Path.basename k) (isFile i) (isDirectory i) (isSymlink i).

(** [readdir(path)]: the nodes whose parent is [path], in the order the
    map lists them. *)
Definition children (d : gmap string node) (path : string) : list DirEntry :=
  omap (fun kn : string * node =>
          if String.eqb (Path.dirname kn.1) path && negb (String.eqb kn.1 path)
          then Some (entry_of kn.1 kn.2) else None)
       (map_to_list d).

Definition readdir (path : string) : M (list DirEntry) := fun w =>
  match disk w !! path with
  | Some (Dir _ _) => (Ok (children (disk w) path), w)
  | Some _ => (Throw (plain_error "Not a directory (os error 20)"), w)
  | None => (Throw NotFound, w)
  end.

Definition fresh_meta (w : World) (md : option Z) : Meta :=
  MkMeta (Some (Date.Ms (clock w))) (Some (Date.Ms (clock w))) md None None.

(** [Deno.mkdir(fn, { mode })] *)
Definition Deno_mkdir (fn : string) (md : option Z) : M unit := fun w =>
  match disk w !! fn, disk w !! Path.dirname fn with
  | Some _, _ =>
    (Throw (MkError "AlreadyExists" (Some "File exists (os error 17)") None), w)
  | None, Some (Dir _ _) =>
    (_ ← emit (EvMkdir fn); set_node fn (Dir (fresh_meta w md) 4096)) w
  | None, _ => (Throw NotFound, w)
  end.

(** The first loop of [mkdirp]: drop trailing parts until what is left
    names a directory.  [rparts] holds the parts last to first. *)
Fixpoint mkdirp_probe (fn : string) (rparts : list string) : M (list string) :=
  match rparts with
  | [] => mret []
  | _ :: rest =>
    found ← try_catch
      (st ← lstat (Path.join (rev rparts));
       if isDirectory st then mret true
       else throw (plain_error ("mkdirp: part of path is a file: " +:+ fn)))
      (fun e => if is_NotFound e then mret false else throw e);
    if (found : bool) then mret rparts else mkdirp_probe fn rest
  end.

(** The second loop: push the missing parts one at a time and create
    each directory. *)
Fixpoint mkdirp_make (parts add : list string) (md : option Z) : M unit :=
  match add with
  | [] => mret tt
  | a :: add' =>
    let parts' := parts ++ [a] in
    _ ← Deno_mkdir (Path.join parts') md;
    mkdirp_make parts' add' md
  end.

Definition mkdirp (fn : string) (md : option Z) : M unit :=
  let all := Path.split_sep fn in
  rparts ← mkdirp_probe fn (rev all);
  let parts := rev rparts in
  mkdirp_make parts (drop (length parts) all) md.

(** Opening [fn] for reading and taking its whole content. *)
Definition read_file (fn : string) : M string := fun w =>
  match disk w !! fn with
  | Some (File _ d) => (_ ← emit (EvRead fn); mret d) w
  | Some _ => (Throw (plain_error "Is a directory (os error 21)"), w)
  | None => (Throw NotFound, w)
  end.

(** Opening [fn] with [{ write, create, truncate }] and writing [d]. *)
Definition write_file_mode (fn : string) (md : Z) (d : string) : M unit := fun w =>
  match disk w !! fn, disk w !! Path.dirname fn with
  | Some (File m _), _ =>
    (_ ← emit (EvWrite fn);
     set_node fn (File (MkMeta (Some (Date.Ms (clock w))) (m_birthtime m)
                               (m_mode m) (m_uid m) (m_gid m)) d)) w
  | Some _, _ => (Throw (plain_error "Is a directory (os error 21)"), w)
  | None, Some (Dir _ _) =>
    (_ ← emit (EvWrite fn); set_node fn (File (fresh_meta w (Some md)) d)) w
  | None, _ => (Throw NotFound, w)
  end.

(** Without a mode the file is created with 0o666 less the umask 0o022. *)
Definition write_file (fn : string) (d : string) : M unit :=
  write_file_mode fn 420 d.

(** [handle.appendFile(line)] on an open file: seek to the end, write. *)
Definition append_file (fn : string) (d : string) : M unit := fun w =>
  match disk w !! fn with
  | Some (File m old) =>
    (_ ← emit (EvWrite fn);
     set_node fn (File (MkMeta (Some (Date.Ms (clock w))) (m_birthtime m)
                               (m_mode m) (m_uid m) (m_gid m)) (old +:+ d))) w
  | _ => (Throw (plain_error "Bad resource ID"), w)
  end.

(** [chstat(fn, stat)] without [old]: replay mode, owner and times. *)
Definition chstat (fn : string) (st : FileInfo) : M unit := fun w =>
  match disk w !! fn with
  | Some (File m d) =>
    let m' := MkMeta (match mtime st with Some t => Some t | None => m_mtime m end)
                     (m_birthtime m)
                     (match mode st with Some x => Some x | None => m_mode m end)
                     (match uid st, gid st with
                      | Some u, Some _ => Some u | _, _ => m_uid m end)
                     (match uid st, gid st with
                      | Some _, Some g => Some g | _, _ => m_gid m end) in
    set_node fn (File m' d) w
  | Some _ => (Ok tt, w)
  | None => (Throw NotFound, w)
  end.

(** [copy(from, to)] between two paths. *)
Definition copy (from to : string) : M unit :=
  d ← read_file from;
  _ ← write_file to d;
  st ← lstat from;
  chstat to st.

(** [move(from, to)], [link(from, to)], [unlink(fn)].  A link is a
    second name for the same content; the two are not kept in step
    afterwards. *)
Definition move (from to : string) : M unit := fun w =>
  match disk w !! from with
  | Some n =>
    (_ ← emit (EvRemove from); _ ← emit (EvWrite to);
     set_disk (<[to := n]> (delete from (disk w)))) w
  | None => (Throw NotFound, w)
  end.

Definition link (from to : string) : M unit := fun w =>
  match disk w !! from, disk w !! to with
  | Some n, None => (_ ← emit (EvWrite to); set_node to n) w
  | Some _, Some _ =>
    (Throw (MkError "AlreadyExists" (Some "File exists (os error 17)") None), w)
  | None, _ => (Throw NotFound, w)
  end.

Definition unlink (fn : string) : M unit := fun w =>
  match disk w !! fn with
  | Some _ => (_ ← emit (EvRemove fn); set_disk (delete fn (disk w))) w
  | None => (Throw NotFound, w)
  end.

(** The hash and compression libraries, as the sources use them. *)
Class Codec := MkCodec {
  sha256_hex : string -> string;     (* createHash('sha256') ... toString('hex') *)
  gzip : string -> string;           (* fflate.Gzip, level 9 *)
  gunzip : string -> option string   (* fflate.Gunzip; None: the stream is rejected *)
}.

Section WithCodec.
Context `{Codec}.

(** [hash(file, options)], that is [hashFile] with a path: open, digest
    the content, close. *)
Definition hash (file : string) : M string :=
  _ ← emit (EvHash file);
  d ← read_file file;
  mret (sha256_hex d).

(** [zip(from, to)].  The body runs as the executor of a [new Promise]:
    whatever it throws is a rejection nobody handles. *)
Definition zip (from to : string) : M unit :=
  detached (d ← read_file from; write_file to (gzip d)).

(** [hashZip(zip, options)] *)
Definition hashZip (zipped : string) : M string :=
  d ← read_file zipped;
  match gunzip d with
  | Some plain => mret (sha256_hex plain)
  | None => throw (MkError "" (Some "invalid gzip stream") None)
  end.

(** [compareZipWith(compressed, file)]: the inflated content against the
    content of [file]; the executor of a [new Promise] again. *)
Definition compareZipWith (compressed file : string) : M bool :=
  detached
    (z ← read_file compressed;
     f ← read_file file;
     match gunzip z with
     | Some plain => mret (String.eqb plain f)
     | None => throw (MkError "" (Some "invalid gzip stream") None)
     end).

End WithCodec.

End Fs.

(** ** backup-log.ts *)

Module BackupLog.
Import JS Fs.

Definition VERSION : Z := 2.

(** A field typed [number | string] that may also be missing. *)
Inductive value :=
| VNum (z : Z)
| VStr (s : string)
| VUndef.

(** A field typed [Date | string]. *)
Inductive time_field :=
| TDate (d : Date.t)
| TStr (s : string).

Inductive kind := KD | KF.

Definition kind_text (k : kind) : string :=
  match k with KD => "D" | KF => "F" end.

Record FileEntry := MkFileEntry {
  fe_type : kind;
  fe_mode : value;
  fe_uid : value;
  fe_gid : value;
  fe_ctime : time_field;
  fe_mtime : time_field;
  fe_size : Z;
  fe_hash : string;
  fe_path : string
}.

(** A parsed line.  The statistics of a STATUS line are kept as the text
    [JSON.parse] is given; that this text is JSON is not checked here. *)
Inductive BackupLogEntry :=
| Header (version : option ascii)
| Source (root : string)
| Status (status : option string) (stats : string)
| Entry (e : FileEntry)
| Unknown (line : string).

Record HashMapEntry := MkHashEntry { count : Z; seen : bool }.

Record InfoFileEntry := MkInfoEntry {
  i_source : string;
  i_ctime : time_field;
  i_mtime : time_field;
  i_size : Z;
  i_hash : string
}.

Record BackupInfo := MkBackupInfo {
  time : Date.t;
  F : gmap string InfoFileEntry;
  D : gmap string InfoFileEntry
}.

(** An [FsFile] opened on a path. *)
Record FsFile := MkFsFile { fn : string; opened : bool; closed : bool }.

Record t := MkLog {
  root : string;
  userid : string;
  setname : string;
  log : option FsFile
}.

(** [new BackupLog({ root, userid, setname })]; [userid||''] *)
Definition new (root : string) (userid : option string) (setname : string) : t :=
  MkLog root (default "" userid) setname None.

Definition _log (l : t) : M FsFile :=
  match log l with
  | Some h => mret h
  | None => throw (plain_error "Log file is not open")
  end.

Inductive when_arg :=
| WStr (s : string)
| WDate (d : Date.t).

Definition is_stripped (c : ascii) : bool :=
  Ascii.eqb c "-" || Ascii.eqb c ":" || Ascii.eqb c ".".

(** [s.replace(/[\-:\.]/g, '')] *)
Definition strip (s : string) : string := replace_all (one_of is_stripped) "" s.

(** [parseWhen(when = 'current')] *)
Definition parseWhen (when : option when_arg) : result string :=
  match when with
  | None => Ok "current"
  | Some (WStr s) =>
    if String.eqb s "current" || String.eqb s "running" then Ok s
    else Ok (strip s)
  | Some (WDate d) => iso ← Date.toISOString d; Ok (strip iso)
  end.

Definition ext2iso (ext : string) : string :=
  substr ext 0 (Some 4) +:+ "-" +:+ substr ext 4 (Some 2) +:+ "-" +:+ substr ext 6 (Some 2)
  +:+ "T" +:+ substr ext 9 (Some 2) +:+ ":" +:+ substr ext 11 (Some 2) +:+ ":"
  +:+ substr ext 13 (Some 2)
  +:+ "." +:+ substr ext 15 None.

Definition getLogName (l : t) (when : string) : string :=
  Path.join [root l; "backups"; userid l; setname l +:+ "." +:+ when].

(** [exists(when)]: [Some true] is [true], [None] is [undefined]. *)
Definition exists_ (l : t) (when : string) : M (option bool) :=
  try_catch
    (_ ← Fs.exists_ (getLogName l when); mret (Some true))
    (fun _ => mret None).

(** [fs.open(fn, 'w', mode)]: created or truncated on the spot. *)
Definition open_w (fn : string) (md : Z) : M FsFile :=
  _ ← write_file_mode fn md "";
  mret (MkFsFile fn true false).

(** [handle.appendFile(line)] *)
Definition appendFile (h : FsFile) (line : string) : M unit :=
  if negb (opened h) then throw (plain_error "attempt to appendFile on a non-file stream")
  else if closed h then throw (MkError "BadResource" (Some "Bad resource ID") None)
  else append_file (fn h) line.

Definition LF : string := String "010" "".

(** [create(when)]; the log with its handle set is handed back. *)
Definition create (l : t) (when : string) : M t :=
  let dir := Path.join [root l; "backups"; userid l] in
  _ ← mkdirp dir (Some 493%Z);
  h ← open_w (getLogName l when) 384;
  let l' := MkLog (root l) (userid l) (setname l) (Some h) in
  h' ← _log l';
  _ ← appendFile h'
        ("V" +:+ Num.to_string VERSION
         +:+ " type uid:gid:mode ctime mtime - size hash 0 path" +:+ LF);
  mret l'.

Definition writeSourceEntry (l : t) (root : string) : M unit :=
  h ← _log l;
  appendFile h ("SOURCE " +:+ root +:+ LF).

(** How a template literal prints a field. *)
Definition value_text (v : value) : string :=
  match v with
  | VNum z => Num.to_string z
  | VStr s => s
  | VUndef => "undefined"
  end.

Definition time_text (t : time_field) : result string :=
  match t with
  | TStr s => Ok s
  | TDate d => Date.toISOString d
  end.

Definition mode_text (v : value) : result string :=
  match v with
  | VStr s => Ok s
  | VNum z => Ok (Num.to_octal z)
  | VUndef =>
    Throw (MkError "TypeError" (Some "Cannot read property 'toString' of undefined") None)
  end.

Definition backslash_to_slash (s : string) : string :=
  replace_all (one_of (Ascii.eqb Json.backslash)) "/" s.

(** [entryToString(entry)] *)
Definition entryToString (e : FileEntry) : result string :=
  md ← mode_text (fe_mode e);
  ct ← time_text (fe_ctime e);
  mt ← time_text (fe_mtime e);
  let size := Num.to_int32 (fe_size e) in
  Ok (kind_text (fe_type e) +:+ " " +:+ value_text (fe_uid e) +:+ ":"
      +:+ value_text (fe_gid e) +:+ ":" +:+ md +:+ " " +:+ ct +:+ " " +:+ mt +:+ " - "
      +:+ Num.to_string size +:+ " " +:+ fe_hash e +:+ " 0 "
      +:+ Json.stringify (backslash_to_slash (fe_path e))).

Definition lift {A} (r : result A) : M A := fun w => (r, w).

Definition writeEntry (l : t) (e : FileEntry) : M unit :=
  h ← _log l;
  line ← lift (entryToString e);
  appendFile h (line +:+ LF).

(** [finish(status)]: the STATUS line, then the handle is closed. *)
Definition finish (l : t) (status : string) : M t :=
  h ← _log l;
  _ ← appendFile h ("V" +:+ Num.to_string VERSION +:+ " STATUS " +:+ status +:+ LF);
  h' ← _log l;
  mret (MkLog (root l) (userid l) (setname l)
          (Some (MkFsFile (fn h') (opened h') true))).

Definition is_space (c : ascii) : bool := Ascii.eqb c " ".

(** [words.slice(n).join(' ')] *)
Definition rejoin (ws : list string) : string := String.concat " " ws.

Definition is_colon (c : ascii) : bool := Ascii.eqb c ":".

(** [v && (v|0)] for a text [v] that may be missing. *)
Definition and_or0 (v : option string) : value :=
  match v with
  | None => VUndef
  | Some EmptyString => VStr ""
  | Some s => VNum (Num.string_or0 s)
  end.

Definition opt_value (v : option string) : value :=
  match v with
  | None => VUndef
  | Some s => VStr s
  end.

(** [parse(line)] *)
Definition parse (line : string) : result BackupLogEntry :=
  let words := split is_space line in
  let w0 := default "" (words !! 0) in
  if String.eqb w0 "V1" || String.eqb w0 "V2" then
    match words !! 1 with
    | Some "STATUS" =>
      (* [JSON.parse] of the statistics: the text is kept, once it is JSON *)
      if Json.valid (rejoin (drop 3 words))
      then Ok (Status (words !! 2) (rejoin (drop 3 words)))
      else Throw Json.SyntaxError
    | _ => Ok (Header (char_at w0 1))
    end
  else if String.eqb w0 "SOURCE" then
    Ok (Source (substr line (String.length w0 + 1) None))
  else if String.eqb w0 "D" || String.eqb w0 "F" then
    path ← Json.parse (rejoin (drop 8 words));
    let mode0 := split is_colon (default "" (words !! 1)) in
    let mode := match mode0 with [m] => [""; ""; m] | _ => mode0 end in
    Ok (Entry
      {| fe_type := if String.eqb w0 "D" then KD else KF;
         fe_uid := and_or0 (mode !! 0);
         fe_gid := and_or0 (mode !! 1);
         fe_mode := opt_value (mode !! 2);
         fe_ctime := TStr (default "" (words !! 2));
         fe_mtime := TStr (default "" (words !! 3));
         fe_size := if String.eqb w0 "D" then 0%Z
                    else Num.string_or0 (default "" (words !! 5));
         fe_hash := default "" (words !! 6);
         fe_path := path |})
  else Ok (Unknown line).

(** The lines [readLines] yields: cut at every line feed, a carriage
    return before it dropped; nothing after the last line feed. *)
Definition chomp_cr (l : string) : string :=
  match String.rev l with
  | String "013" r => String.rev r
  | _ => l
  end.

Definition lines_of (d : string) : list string :=
  let ps := split (Ascii.eqb "010") d in
  let ps' := match List.rev ps with
             | EmptyString :: r => List.rev r
             | _ => ps
             end in
  map chomp_cr ps'.

(** [readline(file)] delivering every line to [on_line], which threads a
    state of type [S]; what the handler throws ends the reading.  The
    same shape serves for a [forEach] whose callback may throw. *)
Fixpoint deliver {S X} (on_line : S -> X -> result S) (acc : S)
    (ls : list X) : result S :=
  match ls with
  | [] => Ok acc
  | l :: ls' => acc' ← on_line acc l; deliver on_line acc' ls'
  end.

(** [getLinesFromLog(when)]: an error on the way rejects the promise. *)
Definition getLinesFromLog (l : t) (when : option when_arg)
  : M (list BackupLogEntry) :=
  ext ← lift (parseWhen when);
  d ← read_file (getLogName l ext);
  lift (deliver
    (fun (acc : list BackupLogEntry) line =>
       if (0 <? String.length line)%nat then
         parsed ← parse line; Ok (acc ++ [parsed])
       else Ok acc)
    [] (lines_of d)).

(** One line of [getHashesFromInstanceLog]. *)
Definition count_line (hashes : gmap string HashMapEntry) (line : string)
  : result (gmap string HashMapEntry) :=
  entry ← parse line;
  match entry with
  | Entry e =>
    match fe_type e with
    | KF =>
      let key := fe_hash e +:+ "." +:+ Num.to_string (fe_size e) in
      let h := default (MkHashEntry 0 false) (hashes !! key) in
      Ok (<[key := MkHashEntry (count h + 1) (seen h)]> hashes)
    | KD => Ok hashes
    end
  | _ => Ok hashes
  end.

(** [getHashesFromInstanceLog(when, hashes)]: no error handler is
    installed, so whatever goes wrong while reading is not caught. *)
Definition getHashesFromInstanceLog (l : t) (when : option when_arg)
    (hashes : gmap string HashMapEntry) : M (gmap string HashMapEntry) :=
  ext ← lift (parseWhen when);
  detached
    (d ← read_file (getLogName l ext);
     lift (deliver count_line hashes (lines_of d))).

(** [a > b] on strings: by character codes, left to right. *)
Definition str_gt (a b : string) : bool :=
  match String.compare a b with
  | Gt => true
  | _ => false
  end.

Definition truthy (s : string) : bool := negb (String.eqb s "").

(** The loop of [getLastBackup] over the directory entries. *)
Definition newest (prefix : string) (last : option string) (e : DirEntry)
  : option string :=
  if de_isFile e && negb (String.prefix "." (name e)) then
    if startsWith (name e) prefix then
      let ts := substr (name e) (String.length prefix) None in
      if String.eqb ts "running" || String.eqb ts "current" then last
      else
        match last with
        | Some lb => if negb (truthy lb) || str_gt ts lb then Some ts else last
        | None => Some ts
        end
    else last
  else last.

(** The [forEach] of [getLastBackup]: the state is [source] and the two
    maps under construction. *)
Definition materialise
    (st : option string * gmap string InfoFileEntry * gmap string InfoFileEntry)
    (entry : BackupLogEntry)
  : result (option string * gmap string InfoFileEntry * gmap string InfoFileEntry) :=
  let '(source, f, d) := st in
  match entry with
  | Source r => Ok (Some (Path.join [r]), f, d)
  | Entry e =>
    match source with
    | None =>
      Throw (MkError "TypeError" (Some "Path must be a string. Received undefined") None)
    | Some src =>
      let as_date t := match t with
                       | TStr x => TDate (Date.parse x)
                       | TDate x => TDate x
                       end in
      let v := MkInfoEntry src (as_date (fe_ctime e)) (as_date (fe_mtime e))
                 (fe_size e) (fe_hash e) in
      let key := Path.join [src; fe_path e] in
      match fe_type e with
      | KF => Ok (source, <[key := v]> f, d)
      | KD => Ok (source, f, <[key := v]> d)
      end
    end
  | _ => Ok st
  end.

Definition getLastBackup (l : t) : M (option BackupInfo) :=
  let dir := Path.join [root l; "backups"; userid l] in
  let prefix := setname l +:+ "." in
  lastBackup ← try_catch
    (es ← readdir dir; mret (fold_left (newest prefix) es None))
    (fun e => _ ← console_dir e; mret None);
  match lastBackup with
  | Some lb =>
    if truthy lb then
      lines ← getLinesFromLog l (Some (WStr lb));
      '(_, f, d) ← lift (deliver materialise (None, ∅, ∅) lines);
      mret (Some (MkBackupInfo (Date.parse (ext2iso lb)) f d))
    else mret None
  | None => mret None
  end.

(** [complete(ts)] *)
Definition complete (l : t) (ts : Date.t) : M unit :=
  let from := getLogName l "running" in
  ext ← lift (parseWhen (Some (WDate ts)));
  let to := getLogName l ext in
  let current := getLogName l "current" in
  _ ← move from to;
  ex ← Fs.exists_ current;
  _ ← (if (ex : bool) then unlink current else mret tt);
  try_catch (link to current)
    (fun e =>
       (* 'os error 1' is what a file system without links answers *)
       if includes (default "" (e_message e)) "(os error 1)"
       then copy to current else throw e).

End BackupLog.

(** ** hash-filesystem-v5.ts *)

Module HashFileSystemV5.
Import JS Fs.

Record Key := MkKey {
  hash : string;
  size : Num.number;
  name : string;
  path : string
}.

Record t := MkHfs { root : string }.

Definition _hash2name (hash : string) : string :=
  Path.join [substr hash 0 (Some 2); substr hash 2 (Some 2); hash].

Definition getKey (hfs : t) (hash : string) (size : Num.number) : Key :=
  let name := _hash2name hash in
  MkKey hash size name
    (Path.join [root hfs; name +:+ "." +:+ Num.number_to_string size]).

Definition exists_ (key : Key) : M bool := std_exists (path key).

Definition keyFromFile (dir name : string) : string := name.

Section WithCodec.
Context `{Codec}.

Definition store (hfs : t) (file : string) (key : Key) (isCompressedStream : bool)
  : M unit :=
  _ ← emit (EvStore file (path key));
  _ ← mkdirp (Path.join [root hfs; Path.dirname (name key)]) (Some 448%Z);
  if isCompressedStream then copy file (path key) else zip file (path key).

Definition compare (key : Key) (file : string) : M bool :=
  compareZipWith (path key) file.

Definition hashKey (key : Key) : M string := hashZip (path key).

Definition hashFile (file : string) : M string := Fs.hash file.

End WithCodec.

End HashFileSystemV5.

(** ** backup-filesystem.ts *)

Module BackupFileSystem.
Import JS Fs.
Module HFS := HashFileSystemV5.

Record t := MkBfs {
  root : option string;
  hfs : option HFS.t
}.

(** The table [ERROR]. *)
Definition ERROR (code : string) : option string :=
  if String.eqb code "SETLOCATION_NOT_CALLED" then Some "setLocation not called"
  else if String.eqb code "NOT_FOUND" then Some "Not found"
  else if String.eqb code "UNKNOWN_FILESYSTEM" then Some "unknown hash filesystem type"
  else if String.eqb code "ENTRY_CORRUPT" then Some "files.db entry corrupt"
  else None.

Definition ERROR_SETLOCATION_NOT_CALLED : string := "setLocation not called".
Definition ERROR_NOT_FOUND : string := "Not found".
Definition ERROR_UNKNOWN_FILESYSTEM : string := "unknown hash filesystem type".
Definition ERROR_ENTRY_CORRUPT : string := "files.db entry corrupt".

(** [assert(test, name)]: the error takes [name] as its name and
    [ERROR[name]] as its message. *)
Definition assert (test : bool) (name : string) : M unit :=
  if test then mret tt else throw (MkError name (ERROR name) None).

Definition new : t := MkBfs None None.

Definition setLocation (root : string) (fstype : string) : M t :=
  if String.eqb fstype "hash-v5" then mret (MkBfs (Some root) (Some (HFS.MkHfs root)))
  else _ ← assert false ERROR_UNKNOWN_FILESYSTEM; mret (MkBfs (Some root) None).

Record PutResult := MkPut { stored : bool }.

Section WithCodec.
Context `{Codec}.

(** [put(file, size, hash, options = {})] *)
Definition put (bfs : t) (file : string) (size : Z) (hash : string)
    (compressed : option bool) : M PutResult :=
  let stored := true in
  _ ← assert (bool_decide (is_Some (hfs bfs))) ERROR_SETLOCATION_NOT_CALLED;
  _ ← match hfs bfs with
      | Some h =>
        let key := HFS.getKey h hash (Num.Int size) in
        ex ← HFS.exists_ key;
        if negb ex then HFS.store h file key (default false compressed)
        else mret tt
      | None => mret tt
      end;
  mret (MkPut stored).

(** [verify(size, hash, compareWith?)] *)
Definition verify (bfs : t) (size : Num.number) (hash : string)
    (compareWith : option string) : M unit :=
  _ ← assert (bool_decide (is_Some (hfs bfs))) ERROR_SETLOCATION_NOT_CALLED;
  match hfs bfs with
  | Some h =>
    let key := HFS.getKey h hash size in
    ex ← HFS.exists_ key;
    _ ← assert ex ERROR_NOT_FOUND;
    hash2 ← HFS.hashKey key;
    _ ← assert (String.eqb hash2 hash) ERROR_ENTRY_CORRUPT;
    match compareWith with
    | Some cw =>
      if BackupLog.truthy cw then _ ← HFS.compare key cw; mret tt else mret tt
    | None => mret tt
    end
  | None => mret tt
  end.

Definition hashFile (bfs : t) (file : string) : M (option string) :=
  _ ← assert (bool_decide (is_Some (hfs bfs))) ERROR_SETLOCATION_NOT_CALLED;
  match hfs bfs with
  | Some h => r ← HFS.hashFile file; mret (Some r)
  | None => mret None
  end.

End WithCodec.

Definition has (bfs : t) (size : Z) (hash : string) : M bool :=
  _ ← assert (bool_decide (is_Some (hfs bfs))) ERROR_SETLOCATION_NOT_CALLED;
  match hfs bfs with
  | Some h => HFS.exists_ (HFS.getKey h hash (Num.Int size))
  | None => mret false
  end.

Definition keyFromFile (bfs : t) (dir name : string) : M string :=
  _ ← assert (bool_decide (is_Some (hfs bfs))) ERROR_SETLOCATION_NOT_CALLED;
  mret (HFS.keyFromFile dir name).

End BackupFileSystem.

(** ** backup-target.ts: the object, its methods come further down *)

Module Target.

Record t := MkTarget {
  destination : string;
  filesystem : BackupFileSystem.t;
  fstype : string;
  configFile : string;
  filesDb : string;
  backups : string
}.

(** [new LocalBackup({ destination, fstype })] followed by a [connect]
    that found the configuration and called [setLocation]. *)
Definition connected (destination : string) : t :=
  let filesDb := Path.join [destination; "files.db"] in
  MkTarget destination
    (BackupFileSystem.MkBfs (Some filesDb) (Some (HashFileSystemV5.MkHfs filesDb)))
    "hash-v5"
    (Path.join [destination; "config.json"])
    filesDb
    (Path.join [destination; "backups"]).

Definition getPath (t : t) : string := destination t.
Definition fs (t : t) : BackupFileSystem.t := filesystem t.

End Target.

(** ** backup-instance.ts *)

Module BackupInstance.
Import JS Fs.

Record t := MkInstance {
  target : Target.t;
  setname : option string;
  userid : option string;
  _log : option BackupLog.t
}.

Definition new (target : Target.t) (setname userid : option string) : t :=
  MkInstance target setname userid None.

Definition falsy (s : option string) : bool :=
  match s with
  | Some x => negb (BackupLog.truthy x)
  | None => true
  end.

Definition _userid (i : t) : M string :=
  match userid i with
  | Some u => if BackupLog.truthy u then mret u
              else throw (plain_error "userid not defined")
  | None => throw (plain_error "userid not defined")
  end.

Definition _setname (i : t) : M string :=
  match setname i with
  | Some n => if BackupLog.truthy n then mret n
              else throw (plain_error "setname not defined")
  | None => throw (plain_error "setname not defined")
  end.

Definition fresh_log (i : t) : M BackupLog.t :=
  u ← _userid i;
  n ← _setname i;
  mret (BackupLog.new (Target.getPath (target i)) (Some u) n).

(** [createNewInstance()]; the instance with its log set is handed back. *)
Definition createNewInstance (i : t) : M t :=
  l ← fresh_log i;
  l' ← BackupLog.create l "running";
  mret (MkInstance (target i) (setname i) (userid i) (Some l')).

(** [log()]: the log of the instance, made on first use.  A log made
    here has no open file, and making it twice gives the same object, so
    it is not stored back. *)
Definition log (i : t) : M BackupLog.t :=
  match _log i with
  | Some l => mret l
  | None => fresh_log i
  end.

Definition complete (i : t) (ts : Date.t) : M unit :=
  l ← log i; BackupLog.complete l ts.

Definition exists_ (i : t) (when : string) : M (option bool) :=
  l ← log i; BackupLog.exists_ l when.

Definition getLinesFromInstanceLog (i : t) (when : string)
  : M (list BackupLog.BackupLogEntry) :=
  l ← log i; BackupLog.getLinesFromLog l (Some (BackupLog.WStr when)).

Definition getHashesFromInstanceLog (i : t) (when : string)
    (hashes : gmap string BackupLog.HashMapEntry)
  : M (gmap string BackupLog.HashMapEntry) :=
  l ← log i; BackupLog.getHashesFromInstanceLog l (Some (BackupLog.WStr when)) hashes.

Section WithCodec.
Context `{Codec}.

Definition put (i : t) (file : string) (size : Z) (hash : string)
  : M BackupFileSystem.PutResult :=
  BackupFileSystem.put (Target.fs (target i)) file size hash None.

Definition has_code (e : Error) (c : string) : bool :=
  match e_code e with
  | Some x => String.eqb x c
  | None => false
  end.

Definition report (word : string) (e : BackupLog.FileEntry) : string :=
  word +:+ " " +:+ BackupLog.fe_hash e +:+ " "
  +:+ Num.to_string (BackupLog.fe_size e) +:+ " " +:+ BackupLog.fe_path e.

(** One turn of the loop of [verify]; the state is [root]. *)
Definition verify_entry (i : t) (verbose compare : bool)
    (compareWith : option string) (root : option string)
    (entry : BackupLog.BackupLogEntry) : M (option string) :=
  match entry with
  | BackupLog.Source r =>
    _ ← (if verbose then console_log ("SOURCE " +:+ r) else mret tt);
    mret (Some r)
  | BackupLog.Entry e =>
    match BackupLog.fe_type e with
    | BackupLog.KF =>
      if falsy root then throw (plain_error "corrupt backup log, missing SOURCE entry")
      else
        _ ← try_catch
          (let compareWithFile :=
             if compare then
               Some (Path.join [ (if falsy compareWith then default "" root
                                  else default "" compareWith);
                                 BackupLog.fe_path e ])
             else None in
           _ ← BackupFileSystem.verify (Target.fs (target i))
                 (Num.Int (BackupLog.fe_size e)) (BackupLog.fe_hash e) compareWithFile;
           if verbose then console_log (report "OK" e) else mret tt)
          (fun err =>
             if has_code err "ENOCOMPARE" then console_log (report "CHANGED" e)
             else if has_code err "ENOENT" then console_log (report "DELETED" e)
             else _ ← console_log (report "ERROR" e); console_dir err);
        mret root
    | BackupLog.KD => mret root
    end
  | _ => mret root
  end.

Fixpoint verify_loop (i : t) (verbose compare : bool) (compareWith : option string)
    (root : option string) (lines : list BackupLog.BackupLogEntry) : M unit :=
  match lines with
  | [] => mret tt
  | entry :: rest =>
    root' ← verify_entry i verbose compare compareWith root entry;
    verify_loop i verbose compare compareWith root' rest
  end.

(** [verify({ when, log, verbose, compare, compareWith })], the lines
    going to the console. *)
Definition verify (i : t) (when : string) (verbose compare : bool)
    (compareWith : option string) : M unit :=
  l ← log i;
  lines ← BackupLog.getLinesFromLog l (Some (BackupLog.WStr when));
  verify_loop i verbose compare compareWith None lines.

End WithCodec.

End BackupInstance.

(** ** backup-source.ts (on a platform other than Windows) *)

Module BackupSource.
Import JS Fs.

Record t := MkSource {
  src : string;
  filters : option (list string);
  subdirs : option (list string);
  deepscan : bool;
  verbose : bool;
  checkHash : bool
}.

(** [sameAsLastBackup(a, b)] *)
Definition sameAsLastBackup (a : FileInfo) (b : BackupLog.InfoFileEntry)
  : result bool :=
  match BackupLog.i_mtime b with
  | BackupLog.TStr _ =>
    Throw (plain_error "sameAsLastBackup expects mtime to be a date")
  | BackupLog.TDate bm =>
    if negb (size a =? BackupLog.i_size b)%Z then Ok false
    else
      match mtime a with
      | Some am => if Date.getTime_ne am bm then Ok false else Ok true
      | None => Ok false      (* null != a Date object *)
      end
  end.

(** [x || ''] for a number and for a date that may be [null]. *)
Definition num_or_empty (x : option Z) : BackupLog.value :=
  match x with
  | Some z => if (z =? 0)%Z then BackupLog.VStr "" else BackupLog.VNum z
  | None => BackupLog.VStr ""
  end.

Definition date_or_empty (x : option Date.t) : BackupLog.time_field :=
  match x with
  | Some d => BackupLog.TDate d
  | None => BackupLog.TStr ""
  end.

(** [_log(instance, type, fn, stats, hash = '-', modified = ' ')] *)
Definition _log (s : t) (instance : BackupInstance.t) (type : BackupLog.kind)
    (fn : string) (st : FileInfo) (hash : string) (modified : string) : M unit :=
  _ ← (if verbose s then console_log (modified +:+ " " +:+ Path.join [src s; fn])
       else mret tt);
  l ← BackupInstance.log instance;
  BackupLog.writeEntry l
    {| BackupLog.fe_type := type;
       BackupLog.fe_uid := num_or_empty (uid st);
       BackupLog.fe_gid := num_or_empty (gid st);
       BackupLog.fe_mode := num_or_empty (mode st);
       BackupLog.fe_ctime := date_or_empty (birthtime st);
       BackupLog.fe_mtime := date_or_empty (mtime st);
       BackupLog.fe_size := size st;
       BackupLog.fe_hash := hash;
       BackupLog.fe_path := fn |}.

Definition rel (s : t) (fn : string) : string :=
  substr fn (String.length (src s) + 1) None.

Section WithCodec.
Context `{Codec}.

(** The choice [_backupFile] makes before it hashes: the hash taken over
    from the last backup, if any, and the code for [modified]. *)
Definition choose (s : t) (lastBackup : option BackupLog.BackupInfo)
    (fn : string) (fstat : FileInfo) : result (option string * string) :=
  match lastBackup with
  | Some lb =>
    match BackupLog.F lb !! fn, mtime fstat with
    | Some last, Some mt =>
      same ← (if Date.le mt (BackupLog.time lb) then sameAsLastBackup fstat last
              else Ok false);
      if (same : bool) then
        if checkHash s then Ok (None, "c")
        else Ok (Some (BackupLog.i_hash last), "-")
      else Ok (None, "u")
    | _, _ => Ok (None, "a")
    end
  | None => Ok (None, "a")
  end.

Definition _backupFile (s : t) (lastBackup : option BackupLog.BackupInfo)
    (fn : string) (instance : BackupInstance.t) : M unit :=
  try_catch
    (fstat ← Fs.stat fn;
     '(hash0, modified) ← BackupLog.lift (choose s lastBackup fn fstat);
     hash ← match hash0 with
            | Some h => if BackupLog.truthy h then mret h else Fs.hash fn
            | None => Fs.hash fn
            end;
     _ ← update_stats (fun st =>
           MkStats (skipped st) (folders st) (files st + 1) (bytes st + size fstat)
                   (backedUp_files st) (backedUp_bytes st));
     r ← BackupInstance.put instance fn (size fstat) hash;
     _ ← _log s instance BackupLog.KF (rel s fn) fstat hash modified;
     if BackupFileSystem.stored r then
       update_stats (fun st =>
         MkStats (skipped st) (folders st) (files st) (bytes st)
                 (backedUp_files st + 1) (backedUp_bytes st + size fstat))
     else mret tt)
    (fun e =>
       _ ← update_stats (fun st =>
             MkStats (skipped st + 1) (folders st) (files st) (bytes st)
                     (backedUp_files st) (backedUp_bytes st));
       _ ← console_log (fn +:+ " failed");
       _ ← console_dir e;
       throw e).

(** The first half of [_backupDir]: stat the directory and write its D
    record.  [false] is the early [return] for a missing directory. *)
Definition _backupDir_head (s : t) (lastBackup : option BackupLog.BackupInfo)
    (dirname : string) (instance : BackupInstance.t) : M bool :=
  try_catch
    (fstat ← Fs.stat dirname;
     let modified :=
       match lastBackup with
       | Some lb =>
         match BackupLog.D lb !! dirname, mtime fstat with
         | Some _, Some mt => if Date.gt mt (BackupLog.time lb) then "u" else "-"
         | _, _ => "-"
         end
       | None => "a"
       end in
     _ ← _log s instance BackupLog.KD (rel s dirname) fstat "-" modified;
     mret true)
    (fun e =>
       if BackupInstance.has_code e "ENOENT" then
         _ ← console_log (dirname +:+ " is missing");
         _ ← update_stats (fun st =>
               MkStats (skipped st + 1) (folders st) (files st) (bytes st)
                       (backedUp_files st) (backedUp_bytes st));
         mret false
       else throw e).

(** [type] of a directory entry: the last of the three tests that holds. *)
Definition entry_type (e : DirEntry) : option ascii :=
  if de_isSymlink e then Some "L"%char
  else if de_isDirectory e then Some "D"%char
  else if de_isFile e then Some "F"%char
  else None.

(** [_scanDir] and [_backupDir] call each other down the tree; [fuel]
    bounds the depth. *)
Fixpoint _scanDir (fuel : nat) (s : t) (lastBackup : option BackupLog.BackupInfo)
    (dirname : string) (instance : BackupInstance.t) (filter : Filter.t)
    {struct fuel} : M unit :=
  match fuel with
  | O => out_of_fuel
  | S fuel' =>
    try_catch
      (dir ← readdir dirname;
       (fix loop (es : list DirEntry) : M unit :=
          match es with
          | [] => mret tt
          | entry :: es' =>
            _ ← (if de_isDirectory entry then
                   let fn := Path.join [dirname; name entry] in
                   match Filter.ignores filter (rel s fn) with
                   | Some _ => _scanDir fuel' s lastBackup fn instance filter
                   | None => _backupDir fuel' s lastBackup fn instance filter
                   end
                 else mret tt);
            loop es'
          end) dir)
      (fun e => console_dir e)
  end
with _backupDir (fuel : nat) (s : t) (lastBackup : option BackupLog.BackupInfo)
    (dirname : string) (instance : BackupInstance.t) (filter : Filter.t)
    {struct fuel} : M unit :=
  match fuel with
  | O => out_of_fuel
  | S fuel' =>
    present ← _backupDir_head s lastBackup dirname instance;
    if (present : bool) then
      _ ← update_stats (fun st =>
            MkStats (skipped st) (folders st + 1) (files st) (bytes st)
                    (backedUp_files st) (backedUp_bytes st));
      try_catch
        (dir ← readdir dirname;
         (fix loop (es : list DirEntry) : M unit :=
            match es with
            | [] => mret tt
            | entry :: es' =>
              _ ← match entry_type entry with
                  | Some ty =>
                    let fn := Path.join [dirname; name entry] in
                    let ignored := Filter.ignores filter (rel s fn) in
                    if Ascii.eqb ty "D" then
                      match ignored with
                      | Some _ =>
                        if deepscan s
                        then _scanDir fuel' s lastBackup fn instance filter
                        else mret tt
                      | None => _backupDir fuel' s lastBackup fn instance filter
                      end
                    else if Ascii.eqb ty "F" then
                      match ignored with
                      | Some _ => mret tt
                      | None => _backupFile s lastBackup fn instance
                      end
                    else mret tt
                  | None => console_log (name entry +:+ " unknown file type")
                  end;
              loop es'
            end) dir)
        (fun e => console_dir e)
    else mret tt
  end.

(** [backupTo(instance, stats, lastBackup)].  The SOURCE line is written
    without an [await]; the model lets that write finish first, and an
    exception in it is nobody's to catch. *)
Definition backupTo (fuel : nat) (s : t) (instance : BackupInstance.t)
    (lastBackup : option BackupLog.BackupInfo) : M unit :=
  _ ← detached (l ← BackupInstance.log instance; BackupLog.writeSourceEntry l (src s));
  match Filter.new (filters s) None with
  | None => out_of_fuel   (* a pattern beyond the fragment [Filter] reads *)
  | Some filter =>
    match subdirs s with
    | Some (sd :: sds) =>
      (fix loop (ds : list string) : M unit :=
         match ds with
         | [] => mret tt
         | d :: ds' =>
           _ ← _backupDir fuel s lastBackup (Path.join [src s; d]) instance filter;
           loop ds'
         end) (sd :: sds)
    | _ => _backupDir fuel s lastBackup (src s) instance filter
    end
  end.

End WithCodec.

End BackupSource.

(** ** backup-set.ts *)

Module BackupSet.
Import JS Fs.

Record t := MkSet {
  setname : string;
  sources : list BackupSource.t;
  started : option Date.t;
  instance : option BackupInstance.t;
  took : option Z                    (* [this.stats.took] *)
}.

(** The statistics every new [BackupSet] starts from. *)
Definition zero_stats : BackupStats := MkStats 0 0 0 0 0 0.

Definition new (setname : option string) (sources : list BackupSource.t) : t :=
  MkSet (match setname with
         | Some n => if BackupLog.truthy n then n else "default"
         | None => "default"
         end) sources None None None.

Definition now : M Date.t := w ← get; mret (Date.Ms (clock w)).

(** [JSON.stringify(this.stats)], with [took] as computed from a clock
    that stands still during the run. *)
Definition stats_json (st : BackupStats) (took : Z) : string :=
  "{" +:+ Json.stringify "skipped" +:+ ":" +:+ Num.to_string (skipped st)
  +:+ "," +:+ Json.stringify "folders" +:+ ":" +:+ Num.to_string (folders st)
  +:+ "," +:+ Json.stringify "files" +:+ ":" +:+ Num.to_string (files st)
  +:+ "," +:+ Json.stringify "bytes" +:+ ":" +:+ Num.to_string (bytes st)
  +:+ "," +:+ Json.stringify "backedUp" +:+ ":{"
  +:+ Json.stringify "files" +:+ ":" +:+ Num.to_string (backedUp_files st)
  +:+ "," +:+ Json.stringify "bytes" +:+ ":" +:+ Num.to_string (backedUp_bytes st)
  +:+ "}," +:+ Json.stringify "took" +:+ ":" +:+ Num.to_string took +:+ "}".

Section WithCodec.
Context `{Codec}.

Fixpoint each_source (fuel : nat) (ss : list BackupSource.t)
    (i : BackupInstance.t) (lastBackup : option BackupLog.BackupInfo) : M unit :=
  match ss with
  | [] => mret tt
  | s :: ss' =>
    _ ← BackupSource.backupTo fuel s i lastBackup;
    each_source fuel ss' i lastBackup
  end.

(** [backupTo(instance)]; the set with [instance] and [started] filled
    in is handed back. *)
Definition backupTo (fuel : nat) (b : t) (i : BackupInstance.t) : M t :=
  l ← BackupInstance.log i;
  lastBackup ← BackupLog.getLastBackup l;
  started ← now;
  _ ← each_source fuel (sources b) i lastBackup;
  finished ← now;
  let took := match finished, started with
              | Date.Ms a, Date.Ms b => (a - b)%Z
              | _, _ => 0%Z
              end in
  w ← get;
  l' ← BackupInstance.log i;
  _ ← BackupLog.finish l' ("OK " +:+ stats_json (stats w) took);
  mret (MkSet (setname b) (sources b) (Some started) (Some i) (Some took)).

End WithCodec.

(** [((n+1023)/1024/1024)|0] *)
Definition megabytes (n : Z) : Z := Num.to_int32 (Z.quot (n + 1023) 1048576).

(** [displayStats()]: three lines on the console.  [took] is
    [undefined] as long as no run has ended.  A [took] of sixteen digits
    or more is beyond what the model prints. *)
Definition displayStats (b : t) : M unit :=
  w ← get;
  let st := stats w in
  secs ← match took b with
         | None => mret "NaN"
         | Some z =>
           match Num.thousandths z with
           | Some s => mret s
           | None => out_of_fuel
           end
         end;
  _ ← console_log ("Backup " +:+ setname b +:+ " complete. Took " +:+ secs
                   +:+ " seconds.");
  _ ← console_log ("Processed: " +:+ Num.to_string (files st) +:+ " files ("
                   +:+ Num.to_string (megabytes (bytes st)) +:+ " MB) "
                   +:+ Num.to_string (folders st) +:+ " folders. Skipped "
                   +:+ Num.to_string (skipped st) +:+ ".");
  console_log ("Backed up: " +:+ Num.to_string (backedUp_files st) +:+ " files ("
               +:+ Num.to_string (megabytes (backedUp_bytes st)) +:+ " MB)").

(** [complete()] *)
Definition complete (b : t) : M unit :=
  match instance b, started b with
  | Some i, Some ts => _ ← BackupInstance.complete i ts; displayStats b
  | _, _ =>
    throw (MkError "TypeError" (Some "Cannot read property 'complete' of null") None)
  end.

End BackupSet.

(** ** backup-target.ts: the methods of [LocalBackup] *)

Module LocalBackup.
Import JS Fs.

Record Logs := MkLogs {
  l_userid : option string;
  l_log : DirEntry
}.

(** One file entry of the loop of [getLogs]. *)
Definition wanted (setname when : option string) (e : DirEntry) : bool :=
  let ext := Path.extname (name e) in
  (BackupInstance.falsy setname
   || String.eqb (default "" setname) (Path.basename_ext (name e) ext))
  && (BackupInstance.falsy when
      || String.eqb (default "" when) (substr ext 1 None)).

Definition is_log_file (e : DirEntry) : bool :=
  de_isFile e && negb (String.prefix "." (name e)).

(** [getLogs(setname, when, userid, logs)] with a [userid] that is set:
    directories are passed over. *)
Definition getLogs_of_user (t : Target.t) (setname when : option string)
    (userid : string) (logs : list Logs) : M (list Logs) :=
  es ← readdir (Path.join [Target.backups t; userid]);
  mret (fold_left
          (fun acc e =>
             if is_log_file e && wanted setname when e
             then acc ++ [MkLogs (Some userid) e] else acc)
          es logs).

(** [getLogs(setname, when, userid, logs = [])].  The call recurses only
    from a call without [userid] into a directory, whose name then is the
    [userid]: one level, spelled out here. *)
Definition getLogs (t : Target.t) (setname when userid : option string)
  : M (list Logs) :=
  if BackupInstance.falsy userid then
    es ← readdir (Path.join [Target.backups t; ""]);
    (fix loop (es : list DirEntry) (logs : list Logs) : M (list Logs) :=
       match es with
       | [] => mret logs
       | e :: es' =>
         logs' ← (if is_log_file e then
                    mret (if wanted setname when e
                          then logs ++ [MkLogs userid e] else logs)
                  else if de_isDirectory e then
                    if BackupLog.truthy (name e)
                    then getLogs_of_user t setname when (name e) logs
                    else mret logs
                  else mret logs);
         loop es' logs'
       end) es []
  else getLogs_of_user t setname when (default "" userid) [].

(** [getAllActiveHashes()] *)
Fixpoint collect (t : Target.t) (logs : list Logs)
    (hashes : gmap string BackupLog.HashMapEntry)
  : M (gmap string BackupLog.HashMapEntry) :=
  match logs with
  | [] => mret hashes
  | le :: rest =>
    let ext := Path.extname (name (l_log le)) in
    hashes' ←
      (if String.eqb ext ".current" then mret hashes
       else if String.eqb ext ".running" then
         throw (plain_error "can't when a backup is running")
       else
         let nm := Path.basename_ext (name (l_log le)) ext in
         let instance := BackupInstance.new t (Some nm) (l_userid le) in
         BackupInstance.getHashesFromInstanceLog instance (substr ext 1 None) hashes);
    collect t rest hashes'
  end.

Definition getAllActiveHashes (t : Target.t)
  : M (gmap string BackupLog.HashMapEntry) :=
  logs ← getLogs t None None None;
  collect t logs ∅.

(** [_scanFs(root, callback)]; the callback threads a state, and [fuel]
    bounds the depth of the tree. *)
Fixpoint _scanFs {S} (fuel : nat) (t : Target.t) (root : string)
    (callback : S -> string -> DirEntry -> string -> M S) (acc : S) : M S :=
  match fuel with
  | O => out_of_fuel
  | S fuel' =>
    dir ← readdir root;
    let s := String.length (Target.filesDb t) + 1 in
    (fix loop (es : list DirEntry) (acc : S) : M S :=
       match es with
       | [] => mret acc
       | entry :: es' =>
         acc' ← (if de_isDirectory entry then
                   _scanFs fuel' t (Path.join [root; name entry]) callback acc
                 else if de_isFile entry then
                   key ← BackupFileSystem.keyFromFile (Target.filesystem t)
                           (substr root s None) (name entry);
                   callback acc root entry key
                 else mret acc);
         loop es' acc'
       end) dir acc
  end.

Record FsckStats := MkFsck {
  total : Z;
  verified : Z;
  damaged : Z;
  orphaned : Z;
  missing : Z
}.

Section WithCodec.
Context `{Codec}.

(** The callback [fsck] gives to [_scanFs]; the state is the counters
    and the table of hashes.  ([key in hashes] is read as a lookup in the
    table: the names every object inherits are not keys here.) *)
Definition fsck_visit (t : Target.t) (verbose : bool)
    (st : FsckStats * gmap string BackupLog.HashMapEntry)
    (root : string) (entry : DirEntry) (key : string)
  : M (FsckStats * gmap string BackupLog.HashMapEntry) :=
  let '(stats, hashes) := st in
  let stats := MkFsck (total stats + 1) (verified stats) (damaged stats)
                 (orphaned stats) (missing stats) in
  if BackupLog.truthy key then
    match hashes !! key with
    | None =>
      _ ← console_log ("ORPHANED " +:+ key);
      mret (MkFsck (total stats) (verified stats) (damaged stats)
              (orphaned stats + 1) (missing stats), hashes)
    | Some h =>
      let parts := split (Ascii.eqb ".") key in
      let hash := default "" (parts !! 0) in
      let size := match parts !! 1 with
                  | Some p => Num.parseInt p
                  | None => Num.NaN
                  end in
      try_catch
        (_ ← BackupFileSystem.verify (Target.filesystem t) size hash None;
         _ ← (if verbose then console_log ("OK " +:+ key) else mret tt);
         mret (MkFsck (total stats) (verified stats + 1) (damaged stats)
                 (orphaned stats) (missing stats),
               <[key := BackupLog.MkHashEntry (BackupLog.count h) true]> hashes))
        (fun e =>
           _ ← console_log ("ERROR " +:+ key);
           _ ← console_dir e;
           mret (MkFsck (total stats) (verified stats) (damaged stats + 1)
                   (orphaned stats) (missing stats), hashes))
    end
  else mret (stats, hashes).

Fixpoint report_missing (keys : list string) (stats : FsckStats) : M FsckStats :=
  match keys with
  | [] => mret stats
  | key :: rest =>
    _ ← console_log ("MISSING " +:+ key);
    report_missing rest
      (MkFsck (total stats) (verified stats) (damaged stats) (orphaned stats)
         (missing stats + 1))
  end.

(** [fsck({ verbose })].  The source keeps the counters to itself and
    prints them; here they are also the result.  The MISSING lines come
    in the order the table lists its keys. *)
Definition fsck (fuel : nat) (t : Target.t) (verbose : bool) : M FsckStats :=
  hashes ← getAllActiveHashes t;
  '(stats, hashes) ← _scanFs fuel t (Target.filesDb t) (fsck_visit t verbose)
                       (MkFsck 0 0 0 0 0, hashes);
  stats ← report_missing
    (map fst (filter (fun kv => negb (BackupLog.seen kv.2)) (map_to_list hashes)))
    stats;
  _ ← console_log
    ("Total " +:+ Num.to_string (total stats)
     +:+ " Verified " +:+ Num.to_string (verified stats)
     +:+ " Orphaned " +:+ Num.to_string (orphaned stats)
     +:+ " Damaged " +:+ Num.to_string (damaged stats)
     +:+ " Missing " +:+ Num.to_string (missing stats));
  mret stats.

(** [backup({ backupset })]: the instance is made without a [userid]. *)
Definition backup (fuel : nat) (t : Target.t) (backupset : BackupSet.t)
  : M BackupSet.t :=
  let instance := BackupInstance.new t (Some (BackupSet.setname backupset)) None in
  i ← BackupInstance.createNewInstance instance;
  BackupSet.backupTo fuel backupset i.

(** [verify({ setname, when, userid, compare, compareWith, verbose })] *)
Definition verify (fuel : nat) (t : Target.t) (setname : option string)
    (when : string) (userid : option string) (compare : bool)
    (compareWith : option string) (verbose : bool) : M unit :=
  if BackupInstance.falsy setname then _ ← fsck fuel t verbose; mret tt
  else BackupInstance.verify (BackupInstance.new t setname userid)
         when verbose compare compareWith.

End WithCodec.

Definition complete (backupset : BackupSet.t) : M unit :=
  BackupSet.complete backupset.

End LocalBackup.

(** ** The scenarios S1 to S3 of the specification, as worlds *)

Module Scenario.
Import JS Fs.

Definition hello : string := "hello" +:+ BackupLog.LF.

Definition hash_hello : string :=
  "5891b5b522d5df086d0ff0b110fbd9d21bb4fc7163af34d08286a2e846f6be03".

Definition object_path : string :=
  "tgt/files.db/58/91/" +:+ hash_hello +:+ ".6".

(** A stand-in for the hash and compression libraries, to run the
    scenarios with: it gives ["hello\n"] the digest SHA-256 gives it, and
    frames what it compresses with a two-letter mark. *)
Definition sample_codec : Codec :=
  {| sha256_hex d :=
       if String.eqb d hello then hash_hello
       else "e3b0c44298fc1c149afbf4c8996fb92427ae41e4649b934ca495991b7852b855";
     gzip d := "GZ" +:+ d;
     gunzip z := if String.prefix "GZ" z then Some (substr z 2 None) else None |}.

(** Any codec, made to reject the empty stream the way fflate does
    ([Gunzip.push] with [final] set throws 'invalid gzip stream' when
    fewer than eight bytes follow the header). *)
Definition rejecting_empty (c : Codec) : Codec :=
  {| sha256_hex := sha256_hex;
     gzip := gzip;
     gunzip z := if String.eqb z "" then None else gunzip z |}.

Definition file_meta (t : Z) : Meta :=
  MkMeta (Some (Date.Ms t)) (Some (Date.Ms t)) (Some 420%Z) (Some 1000%Z) (Some 1000%Z).

Definition dir_meta (t : Z) : Meta :=
  MkMeta (Some (Date.Ms t)) (Some (Date.Ms t)) (Some 493%Z) (Some 1000%Z) (Some 1000%Z).

Definition fresh (t : Z) (md : Z) : Meta :=
  MkMeta (Some (Date.Ms t)) (Some (Date.Ms t)) (Some md) None None.

(** The time of the source file, of the first run and of the second. *)
Definition t_file : Z := 1700000000000.
Definition t_run1 : Z := 1705326312345.
Definition t_run2 : Z := 1705326400000.

(** Before the first run: the source tree [/src] with one file, and an
    initialised target [tgt] below the working directory. *)
Definition disk0 (content : string) : gmap string node :=
  <["." := Dir (dir_meta 1000) 4096]> (
  <["/src" := Dir (dir_meta 1000) 4096]> (
  <["/src/a.txt" := File (file_meta t_file) content]> (
  <["tgt" := Dir (dir_meta 1000) 4096]> (
  <["tgt/files.db" := Dir (dir_meta 1000) 4096]> (
  <["tgt/backups" := Dir (dir_meta 1000) 4096]> ∅))))).

Definition world0 : World :=
  MkWorld (disk0 hello) [] [] t_run1 BackupSet.zero_stats.

(** The same target with a regular file where the directory of the
    user ["u"] belongs. *)
Definition world_blocked : World :=
  MkWorld (<["tgt/backups/u" := File (file_meta 1000) ""]> (disk0 hello))
    [] [] t_run1 BackupSet.zero_stats.

Definition target : Target.t := Target.connected "tgt".

Definition source (verbose : bool) : BackupSource.t :=
  BackupSource.MkSource "/src" None None false verbose false.

Definition backupset (verbose : bool) : BackupSet.t :=
  BackupSet.new (Some "set1") [source verbose].

(** One backup run the way [LocalBackup.backup] and
    [LocalBackup.complete] do it, for an instance that has a [userid]. *)
Definition backup_as `{Codec} (userid : string) (verbose : bool) : M unit :=
  i ← BackupInstance.createNewInstance
         (BackupInstance.new target (Some "set1") (Some userid));
  b ← BackupSet.backupTo 8 (backupset verbose) i;
  BackupSet.complete b.

(** The manifest the first run leaves, with [h] in the hash column of
    its F line. *)
Definition manifest (h : string) : string :=
  "V2 type uid:gid:mode ctime mtime - size hash 0 path" +:+ BackupLog.LF
  +:+ "SOURCE /src" +:+ BackupLog.LF
  +:+ "D 1000:1000:755 1970-01-01T00:00:01.000Z 1970-01-01T00:00:01.000Z - 4096 - 0 "
  +:+ Json.stringify "" +:+ BackupLog.LF
  +:+ "F 1000:1000:644 2023-11-14T22:13:20.000Z 2023-11-14T22:13:20.000Z - 6 "
  +:+ h +:+ " 0 " +:+ Json.stringify "a.txt" +:+ BackupLog.LF
  +:+ "V2 STATUS OK " +:+ BackupSet.stats_json (MkStats 0 1 1 6 1 6) 0
  +:+ BackupLog.LF.

Definition manifest1 : string := manifest hash_hello.

(** After S1, with [man] for the manifest, [object] for the content of
    the stored object and [content] for the content of the source file. *)
Definition disk1_with (man object content : string) : gmap string node :=
  <["tgt/backups/u" := Dir (fresh t_run1 493) 4096]> (
  <["tgt/backups/u/set1.20240115T134512345Z" := File (fresh t_run1 384) man]> (
  <["tgt/backups/u/set1.current" := File (fresh t_run1 384) man]> (
  <["tgt/files.db/58" := Dir (fresh t_run1 448) 4096]> (
  <["tgt/files.db/58/91" := Dir (fresh t_run1 448) 4096]> (
  <[object_path := File (fresh t_run1 420) object]> (disk0 content)))))).

Definition disk1 (object content : string) : gmap string node :=
  disk1_with manifest1 object content.

(** A later moment, with a new process: empty console, empty trace, the
    counters of a new backup set. *)
Definition world1 (object content : string) : World :=
  MkWorld (disk1 object content) [] [] t_run2 BackupSet.zero_stats.

(** The second run at the moment its walker starts: the [running] log
    has been created and holds the header line. *)
Definition running_path : string := "tgt/backups/u/set1.running".

Definition running_log : BackupLog.t :=
  BackupLog.MkLog "tgt" "u" "set1"
    (Some (BackupLog.MkFsFile running_path true false)).

Definition running_instance : BackupInstance.t :=
  BackupInstance.MkInstance target (Some "set1") (Some "u") (Some running_log).

Definition header_line : string :=
  "V2 type uid:gid:mode ctime mtime - size hash 0 path" +:+ BackupLog.LF.

Definition world_running (man object : string) : World :=
  MkWorld
    (<[running_path := File (fresh t_run2 384) header_line]>
       (disk1_with man object hello))
    [] [EvWrite running_path; EvWrite running_path] t_run2 BackupSet.zero_stats.

(** What [getLastBackup] makes of the manifest. *)
Definition last_entry (h : string) : BackupLog.InfoFileEntry :=
  BackupLog.MkInfoEntry "/src"
    (BackupLog.TDate (Date.Ms t_file)) (BackupLog.TDate (Date.Ms t_file)) 6 h.

Definition last_info (h : string) : BackupLog.BackupInfo :=
  BackupLog.MkBackupInfo (Date.Ms t_run1)
    {[ "/src/a.txt" := last_entry h ]}
    {[ "/src" := BackupLog.MkInfoEntry "/src"
                   (BackupLog.TDate (Date.Ms 1000)) (BackupLog.TDate (Date.Ms 1000))
                   0 "-" ]}.

End Scenario.

(** ** Notions the specification uses, in its own words *)

Module Spec.
Import JS Filter Fs.

(** "The last filter in list order whose pattern matches [p]". *)
Definition last_matching (fs : list FilterItem) (p : string) : option FilterItem :=
  last (filter (fun f => test (re f) p = true) fs).

(** An exclude filter is one of type ['-']. *)
Definition is_exclude (f : FilterItem) : bool :=
  match type f with
  | Some "-"%char => true
  | _ => false
  end.

(** What [ignores] is to return for a last match [m]: the filter when it
    excludes, [null] otherwise. *)
Definition verdict (m : option FilterItem) : option FilterItem :=
  match m with
  | Some f => if is_exclude f then Some f else None
  | None => None
  end.

(** "A pattern containing no wildcard". *)
Definition no_wildcard (pat : string) : bool := negb (includes pat "*").

(** "The on-disk byte count of the object store": the sizes of the
    files below [root], summed. *)
Definition byte_count (root : string) (w : World) : Z :=
  map_fold
    (fun k n acc =>
       match n with
       | File _ d =>
         if String.prefix (root +:+ "/") k
         then (acc + Z.of_nat (String.length d))%Z else acc
       | _ => acc
       end)
    0%Z (disk w).

(** The F record of the file [fn] with the stat [fstat] and the hash
    [hash], as the walker hands it to the log. *)
Definition file_record (s : BackupSource.t) (fn : string) (fstat : FileInfo)
    (hash : string) : BackupLog.FileEntry :=
  {| BackupLog.fe_type := BackupLog.KF;
     BackupLog.fe_uid := BackupSource.num_or_empty (uid fstat);
     BackupLog.fe_gid := BackupSource.num_or_empty (gid fstat);
     BackupLog.fe_mode := BackupSource.num_or_empty (mode fstat);
     BackupLog.fe_ctime := BackupSource.date_or_empty (birthtime fstat);
     BackupLog.fe_mtime := BackupSource.date_or_empty (mtime fstat);
     BackupLog.fe_size := size fstat;
     BackupLog.fe_hash := hash;
     BackupLog.fe_path := BackupSource.rel s fn |}.

(** Events that are a hash of, a read of, or a store from some file. *)
Definition reads_or_stores (ev : event) : bool :=
  match ev with
  | EvHash _ | EvRead _ | EvStore _ _ => true
  | _ => false
  end.

End Spec.

(** ** _fs/hash-file.ts *)

Module HashFile.
Import JS.

(** What [signature] is called with. *)
Record SignaturePart := MkPart {
  sp_offset : nat;
  sp_size : nat;
  sp_checksum : string
}.

(** The options that steer the loop: [blockSize], and whether a
    [signature] callback is given.  ([bufSize] sizes the reads and
    [encoding] the text of the digests; the digests are taken here as
    functions from the data to their text.) *)
Record Options := MkOptions {
  blockSize : option nat;
  signature : bool
}.

(** The variables of [hashFile]; [sum] and [blockSum] stand for the two
    hash objects, each as the data it has been given so far. *)
Record state := MkState {
  sum : string;
  blockSum : string;
  blocks : nat;
  blockLen : nat;
  offset : nat;
  parts : list SignaturePart
}.

Definition init : state := MkState "" "" 0 0 0 [].

Section WithHashes.
Variables sha256 sha1 : string -> string.

(** [while (blockLen + chunk.length >= blockSize) { ... }]; what is left
    of the chunk is handed back.  [fuel] bounds the turns. *)
Fixpoint cut (fuel bs : nat) (chunk : string) (st : state) : option (string * state) :=
  if Nat.leb bs (blockLen st + String.length chunk) then
    match fuel with
    | O => None
    | S fuel' =>
      let n := bs - blockLen st in
      cut fuel' bs (drop_str n chunk)
        {| sum := sum st; blockSum := ""; blocks := S (blocks st); blockLen := 0;
           offset := S (blocks st) * bs;
           parts := parts st
                    ++ [MkPart (offset st) bs (sha1 (blockSum st +:+ take_str n chunk))] |}
    end
  else Some (chunk, st).

(** [if (chunk.length) { blockSum.update(chunk); blockLen += chunk.length; }] *)
Definition absorb (chunk : string) (st : state) : state :=
  if Nat.ltb 0 (String.length chunk) then
    {| sum := sum st; blockSum := blockSum st +:+ chunk; blocks := blocks st;
       blockLen := blockLen st + String.length chunk; offset := offset st;
       parts := parts st |}
  else st.

(** The signature part of one turn: the loop, then what is left. *)
Definition feed (bs : nat) (st : state) (chunk : string) : option state :=
  match cut (S (String.length chunk)) bs chunk st with
  | Some (chunk', st2) => Some (absorb chunk' st2)
  | None => None
  end.

Definition with_sum (x : string) (st : state) : state :=
  {| sum := x; blockSum := blockSum st; blocks := blocks st;
     blockLen := blockLen st; offset := offset st; parts := parts st |}.

(** One turn of the [for await] loop. *)
Definition step (sig : bool) (bs : nat) (st : option state) (chunk : string)
  : option state :=
  match st with
  | None => None
  | Some st =>
    let st1 := {| sum := sum st +:+ chunk; blockSum := blockSum st; blocks := blocks st;
                  blockLen := blockLen st; offset := offset st; parts := parts st |} in
    if sig then
      match cut (S (String.length chunk)) bs chunk st1 with
      | Some (chunk', st2) => Some (absorb chunk' st2)
      | None => None
      end
    else Some st1
  end.

(** [hashFile(source, opts)] over the chunks the source yields: the
    digest, and the parts [signature] was called with, in order.  [None]
    is the model's bound hit. *)
Definition hashFile (chunks : list string) (opts : Options)
  : option (string * list SignaturePart) :=
  let bs := match blockSize opts with
            | Some (S n) => S n
            | _ => 128 * 128      (* 16384 *)
            end in
  match fold_left (step (signature opts) bs) chunks (Some init) with
  | Some st =>
    Some (sha256 (sum st),
          if signature opts && Nat.ltb 0 (blockLen st)
          then parts st ++ [MkPart (offset st) (blockLen st) (sha1 (blockSum st))]
          else parts st)
  | None => None
  end.

End WithHashes.
End HashFile.

(** ** auth-db.ts *)

Module AuthDb.
Import JS.

(** An entry of [keys], as the interface declares it. *)
Record Account := MkAccount {
  userid : string;
  email : option string;
  allow : option (list string);
  password : option string
}.

(** [this.auth]: [null], or the [keys] of the database that was loaded. *)
Record t := MkAuthDb { auth : option (gmap string Account) }.

(** The names every object has from [Object.prototype] under Deno,
    which takes [__proto__] away from it. *)
Definition inherited_names : list string :=
  ["constructor"; "__defineGetter__"; "__defineSetter__";
   "__lookupGetter__"; "__lookupSetter__"; "hasOwnProperty"; "isPrototypeOf";
   "propertyIsEnumerable"; "toLocaleString"; "toString"; "valueOf"].

(** What [authenticate] returns: [undefined], an account of the
    database, or the value [Object.prototype] has under a name. *)
Inductive answer :=
| Undefined
| OfAccount (a : Account)
| Inherited (name : string).

(** [this.auth.keys[key]]: the own property first, then the prototype. *)
Definition get (keys : gmap string Account) (key : string) : answer :=
  match keys !! key with
  | Some a => OfAccount a
  | None => if bool_decide (key ∈ inherited_names) then Inherited key else Undefined
  end.

(** [if (subnet.indexOf('/') == -1) subnet += '/32'] *)
Definition with_mask (subnet : string) : string :=
  if includes subnet "/" then subnet else subnet +:+ "/32".

Section WithIp.
(** [ip.cidrSubnet(subnet).contains(address)], of the node-ip library. *)
Variable cidr_contains : string -> string -> result bool.

(** The loop over [allow]; running off its end is [return;]. *)
Fixpoint check (allow : list string) (address : string) (account : Account)
  : result answer :=
  match allow with
  | [] => Ok Undefined
  | subnet :: rest =>
    if String.eqb subnet address then Ok (OfAccount account)
    else
      inside ← cidr_contains (with_mask subnet) address;
      if (inside : bool) then Ok (OfAccount account) else check rest address account
  end.

(** [authenticate({ key, address })] *)
Definition authenticate (db : t) (key address : string) : result answer :=
  match auth db with
  | None => Ok Undefined                   (* no auth-database *)
  | Some keys =>
    match get keys key with
    | Undefined => Ok Undefined            (* invalid access key *)
    | Inherited name => Ok (Inherited name)   (* its [allow] is [undefined] *)
    | OfAccount account =>
      match allow account with
      | Some (subnet :: rest) => check (subnet :: rest) address account
      | _ => Ok (OfAccount account)
      end
    end
  end.

End WithIp.
End AuthDb.

(** ** Notions the further properties of Part II are stated with *)

Module Notions.
Import JS Fs BackupLog.

(** Every character of [s] passes [f]. *)
Fixpoint all_chars (f : ascii -> bool) (s : string) : bool :=
  match s with
  | EmptyString => true
  | String c s' => f c && all_chars f s'
  end.

(** The suffix of a log of the set, for an entry of the directory that
    [getLastBackup] takes into account: a file whose name does not begin
    with a dot, begins with [prefix], and does not end in [running] or
    [current]. *)
Definition dated_suffix (prefix : string) (e : DirEntry) : option string :=
  if de_isFile e && negb (String.prefix "." (name e)) && startsWith (name e) prefix
  then
    let ts := substr (name e) (String.length prefix) None in
    if String.eqb ts "running" || String.eqb ts "current" then None else Some ts
  else None.

(** [r] is what the greatest suffix among the entries [es] is: none when
    no entry counts, else a suffix that occurs and that no other one
    exceeds in the order of [>] on strings. *)
Definition is_greatest (prefix : string) (es : list DirEntry) (r : option string) : Prop :=
  match r with
  | None => forall e, In e es -> dated_suffix prefix e = None
  | Some m =>
    (exists e, In e es /\ dated_suffix prefix e = Some m)
    /\ (forall e ts, In e es -> dated_suffix prefix e = Some ts -> str_gt ts m = false)
  end.

(** What Deno throws for a resource id that is not open. *)
Definition BadResource : Error := MkError "BadResource" (Some "Bad resource ID") None.

(** What a failed assertion of backup-filesystem.ts throws: the text of
    the table is passed where the key is expected, so it becomes the
    name of the error and the message is looked up under it and is
    [undefined]. *)
Definition NotFoundInStore : Error := MkError "Not found" None None.

(** The texts [String(n)] and [n.toString(8)] hold digits and at most a
    sign in front. *)
Definition is_numeric (c : ascii) : bool := Num.is_digit c || Ascii.eqb c "-".

Definition no_space (s : string) : bool := all_chars (fun c => negb (is_space c)) s.

(** A field as the walker fills it: a number or the empty text, a date
    or the empty text. *)
Definition walker_value (v : value) : bool :=
  match v with
  | VNum _ => true
  | VStr s => String.eqb s ""
  | VUndef => false
  end.

Definition walker_time (t : time_field) : bool :=
  match t with
  | TDate (Date.Ms _) => true
  | TDate Date.Invalid => false
  | TStr s => String.eqb s ""
  end.

Definition written_by_walker (e : FileEntry) : bool :=
  walker_value (fe_uid e) && walker_value (fe_gid e) && walker_value (fe_mode e)
  && walker_time (fe_ctime e) && walker_time (fe_mtime e) && no_space (fe_hash e).

(** What [parse] makes of such a field once it is written. *)
Definition read_value (v : value) : value :=
  match v with
  | VNum z => VNum (Num.to_int32 z)
  | _ => v
  end.

Definition read_mode (v : value) : value :=
  match v with
  | VNum z => VStr (Num.to_octal z)
  | _ => v
  end.

Definition read_time (t : time_field) : time_field :=
  match t with
  | TDate (Date.Ms tv) => TStr (Date.iso_of_ms tv)
  | _ => t
  end.

Definition read_back (e : FileEntry) : FileEntry :=
  {| fe_type := fe_type e;
     fe_mode := read_mode (fe_mode e);
     fe_uid := read_value (fe_uid e);
     fe_gid := read_value (fe_gid e);
     fe_ctime := read_time (fe_ctime e);
     fe_mtime := read_time (fe_mtime e);
     fe_size := match fe_type e with KD => 0%Z | KF => Num.to_int32 (fe_size e) end;
     fe_hash := fe_hash e;
     fe_path := backslash_to_slash (fe_path e) |}.

(** A character that ends neither a word nor a number of the triple
    [uid:gid:mode]. *)
Definition plain_word (c : ascii) : bool := negb (is_space c) && negb (is_colon c).

End Notions.

Module FilterNotions.
Import JS Filter Notions.

(** A character that neither the translation of [_init] nor the syntax
    of regular expressions treats specially. *)
Definition ordinary (c : ascii) : bool :=
  negb (existsb (Ascii.eqb c)
          ["*"; "."; "/"; "\"; "{"; "}"; "("; ")"; "|"; "?"; "+"; "^"; "$"; "["; "]"]%char).

Definition is_dot (c : ascii) : bool := Ascii.eqb c ".".

(** [path] starts with the text [pat], a dot of [pat] standing for any
    character that does not end a line. *)
Fixpoint starts_with_dotted (pat path : string) : bool :=
  match pat, path with
  | EmptyString, _ => true
  | String c pat', String d path' =>
    (if is_dot c then negb (is_line_terminator d) else Ascii.eqb d c)
    && starts_with_dotted pat' path'
  | String _ _, EmptyString => false
  end.

Definition dotted (c : ascii) : bool := ordinary c || is_dot c.

(** The expression [_init] builds for such a pattern, atom by atom. *)
Definition atom_of (c : ascii) : atom * quant :=
  (if is_dot c then AAny else AChar c, One).

Fixpoint atoms_of (s : string) : RegExp :=
  match s with
  | EmptyString => []
  | String c s' => atom_of c :: atoms_of s'
  end.

End FilterNotions.

Module WalkerNotions.
Import JS Fs BackupLog BackupSource.

(** [stats.folders++] *)
Definition count_folder (st : BackupStats) : BackupStats :=
  MkStats (skipped st) (folders st + 1) (files st) (bytes st)
          (backedUp_files st) (backedUp_bytes st).

Import Scenario.

(** A store in which a file sits where the directory of an object is to
    be made, and a source with two files that both belong there. *)
Definition blocked_world : World :=
  MkWorld
    (<["tgt/files.db/e3" := File (file_meta 1000) ""]> (
     <["/src/a.txt" := File (file_meta t_file) "x"]> (
     <["/src/b.txt" := File (file_meta t_file) "y"]> (
       disk (world_running manifest1 "")))))
    [] [] t_run2 BackupSet.zero_stats.

End WalkerNotions.

Module AuthNotions.
Import JS AuthDb.

(** The entry at [i] lets [address] in, and no entry before it did or
    made the library throw. *)
Definition lets_in (cidr_contains : string -> string -> result bool)
    (allow : list string) (address : string) (i : nat) : Prop :=
  (exists subnet, allow !! i = Some subnet
     /\ (subnet = address \/ cidr_contains (with_mask subnet) address = Ok true))
  /\ forall j s, j < i -> allow !! j = Some s ->
       s <> address /\ cidr_contains (with_mask s) address = Ok false.

End AuthNotions.

Module FsckNotions.
Import JS Fs LocalBackup.

(** The counters of a report that hang together: none is negative, and
    the objects verified, damaged and orphaned are among those counted
    in total. *)
Definition consistent (st : FsckStats) : Prop :=
  (0 <= verified st /\ 0 <= damaged st /\ 0 <= orphaned st /\ 0 <= missing st
   /\ verified st + damaged st + orphaned st <= total st)%Z.

End FsckNotions.

(* ===================================================================== *)
(** * Part II: theorems                                                   *)
(* ===================================================================== *)

(** Split conjunctions, and only those. *)
Ltac conjs := repeat match goal with |- _ /\ _ => split end.

(** ** The monad of the world *)

Module FsFacts.
Import JS Fs.

Lemma bind_run {A B} (m : M A) (k : A -> M B) (w : World) :
  (m ≫= k) w =
  match m w with
  | (Ok a, w') => k a w'
  | (Throw e, w') => (Throw e, w')
  | (Crash e, w') => (Crash e, w')
  | (OutOfFuel, w') => (OutOfFuel, w')
  end.
Proof. reflexivity. Qed.

Lemma ret_run {A} (a : A) (w : World) : (mret a : M A) w = (Ok a, w).
Proof. reflexivity. Qed.

Lemma bind_ret_run {A B} (a : A) (k : A -> M B) (w : World) :
  ((mret a : M A) ≫= k) w = k a w.
Proof. reflexivity. Qed.

Lemma bind_ok {A B} (m : M A) (k : A -> M B) (w w' : World) (b : B) :
  (m ≫= k) w = (Ok b, w') ->
  exists a w1, m w = (Ok a, w1) /\ k a w1 = (Ok b, w').
Proof.
  rewrite bind_run. destruct (m w) as [[a|e|e|] w1]; try discriminate. eauto.
Qed.

Lemma detached_ok {A} (m : M A) w a w' :
  detached m w = (Ok a, w') -> m w = (Ok a, w').
Proof.
  unfold detached. destruct (m w) as [[x|e|e|] w1]; try discriminate; auto.
Qed.

Lemma lstat_found fn w n :
  disk w !! fn = Some n -> lstat fn w = (Ok (info_of n), w).
Proof. intros E. unfold lstat. now rewrite E. Qed.

Lemma lstat_world fn w r w' : lstat fn w = (r, w') -> w' = w.
Proof. unfold lstat. destruct (disk w !! fn); intros [= _ <-]; reflexivity. Qed.

Lemma std_exists_run p w :
  std_exists p w
  = (match disk w !! p with
     | Some _ => Ok true
     | None => if below_a_file (disk w) p then Throw NotADirectory else Ok false
     end, w).
Proof.
  unfold std_exists, try_catch, lstat, mbind, M_bind, mret, M_ret.
  destruct (disk w !! p) eqn:E; [reflexivity|].
  destruct (below_a_file (disk w) p); reflexivity.
Qed.

Lemma std_exists_present p w :
  is_Some (disk w !! p) -> std_exists p w = (Ok true, w).
Proof. intros [n E]. now rewrite std_exists_run, E. Qed.

(** A path is not below a regular file when something that is on the
    disk lies below whatever the path lies below. *)
Lemma below_a_file_beside d p k :
  is_Some (d !! k) ->
  (forall a, below a p = true -> below a k = true) ->
  below_a_file d p = false.
Proof.
  intros [nk Hk] Hb. unfold below_a_file. apply not_true_is_false. intros H.
  apply existsb_exists in H as ([a n] & _ & Hf).
  destruct n as [m c| |]; try discriminate.
  apply andb_true_iff in Hf as [Ha Hn]. apply negb_true_iff in Hn.
  assert (Hex : existsb (fun kv : string * node => below a kv.1) (map_to_list d) = true).
  { apply existsb_exists. exists (k, nk). split; [|exact (Hb a Ha)].
    apply list_elem_of_In, elem_of_map_to_list. exact Hk. }
  congruence.
Qed.

(** When the check answers, it answers whether the path is there. *)
Lemma std_exists_ok p w b w' :
  std_exists p w = (Ok b, w') ->
  w' = w /\ b = bool_decide (is_Some (disk w !! p)).
Proof.
  rewrite std_exists_run. destruct (disk w !! p) eqn:E.
  - intros [= <- <-]. split; [reflexivity|].
    symmetry. apply bool_decide_eq_true_2. eauto.
  - destruct (below_a_file (disk w) p); [discriminate|]. intros [= <- <-].
    split; [reflexivity|]. symmetry. apply bool_decide_eq_false_2.
    intros [? ?]; discriminate.
Qed.

Lemma emit_run ev w :
  emit ev w
  = (Ok tt, MkWorld (disk w) (console w) (trace w ++ [ev]) (clock w) (stats w)).
Proof. reflexivity. Qed.

Lemma set_node_disk p n w u w' :
  set_node p n w = (Ok u, w') -> disk w' = <[p := n]> (disk w).
Proof. unfold set_node, set_disk. intros [= <- <-]. reflexivity. Qed.

Lemma write_file_mode_present fn md d w w' :
  write_file_mode fn md d w = (Ok tt, w') -> is_Some (disk w' !! fn).
Proof.
  unfold write_file_mode.
  destruct (disk w !! fn) as [[m old|m sz|m sz]|];
    [| discriminate | discriminate
     | destruct (disk w !! Path.dirname fn) as [[| |]|]; try discriminate ];
    rewrite bind_run, emit_run; intros Hs; apply set_node_disk in Hs;
    rewrite Hs; cbn [disk]; rewrite lookup_insert_eq; eauto.
Qed.

Lemma chstat_keeps fn st w w' p :
  chstat fn st w = (Ok tt, w') -> is_Some (disk w !! p) -> is_Some (disk w' !! p).
Proof.
  unfold chstat.
  destruct (disk w !! fn) as [[m old|m sz|m sz]|] eqn:E; try discriminate.
  - intros Hs Hp. apply set_node_disk in Hs. rewrite Hs.
    destruct (decide (fn = p)) as [->|Hne].
    + rewrite lookup_insert_eq. eauto.
    + now rewrite lookup_insert_ne.
  - intros [= <-]. auto.
  - intros [= <-]. auto.
Qed.

Lemma copy_present from to w w' :
  copy from to w = (Ok tt, w') -> is_Some (disk w' !! to).
Proof.
  intros Hc. unfold copy in Hc.
  apply bind_ok in Hc as (d & w1 & _ & Hc).
  apply bind_ok in Hc as ([] & w2 & Hw & Hc).
  apply bind_ok in Hc as (st & w3 & Hl & Hc).
  apply lstat_world in Hl. subst w3.
  apply write_file_mode_present in Hw. eapply chstat_keeps; eauto.
Qed.

Lemma zip_present `{Codec} from to w w' :
  zip from to w = (Ok tt, w') -> is_Some (disk w' !! to).
Proof.
  intros Hz. apply detached_ok in Hz. apply bind_ok in Hz as (d & w1 & _ & Hw).
  now apply write_file_mode_present in Hw.
Qed.

End FsFacts.

(** ** u8pipe.ts *)

Module U8PipeFacts.
Import U8 U8Pipe.

Lemma drain_S fuel n s :
  drain (S fuel) n s =
  match read (repeat x00 n) s with
  | (Null, _, s') => Some ([], s')
  | (Waiting, _, _) => None
  | (Count k, p, s') =>
    match drain fuel n s' with
    | Some (rest, s'') => Some (take k p ++ rest, s'')
    | None => None
    end
  end.
Proof. reflexivity. Qed.

(** Once the queue is empty and eof is set, [read] answers [null] and
    keeps doing so, whatever the buffer. *)
Lemma read_at_eof p s :
  chunks s = [] -> eof s = true ->
  exists s', read p s = (Null, p, s') /\ chunks s' = [] /\ eof s' = true.
Proof.
  intros Hc He. unfold read. rewrite Hc, He. cbn.
  eexists. split; [reflexivity|]. split; reflexivity.
Qed.

Lemma read_fits p b c tin tout e m :
  List.length (b :: c) <= List.length p ->
  read p (Pipe [b :: c] tin tout e m)
  = (Count (List.length (b :: c)), set p (b :: c) 0,
     Pipe [] tin (tout + List.length (b :: c)) e m).
Proof.
  intros Hfit. unfold read.
  cbn [chunks eof totBytesIn totBytesOut mismatch_logged shift_nonempty].
  change (Nat.eqb (List.length (b :: c)) 0) with false. cbv iota.
  unfold fill. rewrite Nat.sub_0_r, (proj2 (Nat.leb_le _ _) Hfit).
  cbn [f_offset f_buf f_queue f_out f_block].
  rewrite Nat.add_0_l.
  change (0 <? List.length (b :: c))%nat with true. cbv iota.
  reflexivity.
Qed.

Lemma read_too_big p b c tin tout e m :
  List.length p < List.length (b :: c) ->
  read p (Pipe [b :: c] tin tout e m)
  = (Count (List.length p), set p (slice_to (b :: c) (List.length p)) 0,
     Pipe [slice_from (b :: c) (List.length p)] tin (tout + List.length p) e m).
Proof.
  intros Hbig. unfold read.
  cbn [chunks eof totBytesIn totBytesOut mismatch_logged shift_nonempty].
  change (Nat.eqb (List.length (b :: c)) 0) with false. cbv iota.
  unfold fill. rewrite Nat.sub_0_r, (proj2 (Nat.leb_gt _ _) Hbig).
  cbn [f_offset f_buf f_queue f_out f_block].
  change (0 <? 0)%nat with false. cbv iota. reflexivity.
Qed.

Lemma set_head_take (p c : bytes) : take (List.length c) (set p c 0) = c.
Proof. unfold set. rewrite take_0, app_nil_l, take_app_length. reflexivity. Qed.

(** What the pipe does get right: a chunk that is alone in the queue
    comes out whole for every positive buffer size, cut across as many
    reads as it takes. *)
Lemma drain_one_chunk n : 0 < n ->
  forall (k : nat) (c : bytes) tin tout m,
    List.length c <= k ->
    exists s',
      drain (S (S k)) n (Pipe [c] tin tout true m) = Some (c, s')
      /\ chunks s' = [] /\ totBytesOut s' = tout + List.length c.
Proof.
  intros Hn k. induction k as [|k IH]; intros c tin tout m Hk.
  - destruct c; [|cbn in Hk; lia]. cbn. eexists. split; [reflexivity|].
    cbn. split; [reflexivity|lia].
  - destruct c as [|b c].
    { cbn. eexists. split; [reflexivity|]. cbn. split; [reflexivity|lia]. }
    destruct (Nat.leb (List.length (b :: c)) n) eqn:Hfit.
    + apply Nat.leb_le in Hfit.
      rewrite drain_S, read_fits by (rewrite repeat_length; exact Hfit).
      rewrite drain_S.
      destruct (read_at_eof (repeat x00 n)
                  (Pipe [] tin (tout + List.length (b :: c)) true m))
        as (s' & Hr & Hc & _); [reflexivity..|].
      rewrite Hr, set_head_take, app_nil_r.
      exists s'. split; [reflexivity|]. split; [exact Hc|].
      unfold read in Hr. cbn in Hr. injection Hr as <-. reflexivity.
    + apply Nat.leb_gt in Hfit.
      rewrite drain_S, read_too_big by (rewrite repeat_length; exact Hfit).
      rewrite repeat_length.
      destruct (IH (slice_from (b :: c) n) tin (tout + n) m) as (s' & Hd & Hc & Ho).
      { unfold slice_from. rewrite length_drop. cbn [List.length] in *. lia. }
      rewrite Hd. exists s'. split.
      * f_equal. f_equal. unfold set, slice_to. rewrite take_0, app_nil_l.
        rewrite take_app_length'.
        -- apply take_drop.
        -- rewrite length_take. cbn [List.length] in *. lia.
      * split; [exact Hc|]. rewrite Ho. unfold slice_from. rewrite length_drop.
        cbn [List.length] in *. lia.
Qed.

(** C3, at the input where the code fails it.  Two chunks, one byte and
    three bytes, are written, the second flagged as last; they are read
    back through a buffer of two bytes.  The first read copies the one
    byte, takes the second chunk off the queue, finds that it does not
    fit the remaining room and returns 1; the chunk is not put back.
    The next read finds the queue empty and returns [null].  One byte
    out of four arrives, and the pipe's own check of bytes in against
    bytes out fires. *)
Theorem C3_read_drops_the_chunk_that_does_not_fit :
  let written := [[x01]; [x02; x03; x04]] in
  exists s',
    drain 4 2 (write_all written U8Pipe.empty) = Some ([x01], s')
    /\ [x01] <> concat written
    /\ chunks s' = [] /\ totBytesIn s' = 4 /\ totBytesOut s' = 1
    /\ mismatch_logged s' = true.
Proof.
  cbv zeta. eexists. split; [vm_compute; reflexivity|].
  split; [discriminate|]. repeat split.
Qed.

End U8PipeFacts.

(** ** filter.ts *)

Module FilterFacts.
Import JS Filter Spec.

Lemma ignores_step_hit str ignored f :
  test (re f) str = true -> ignores_step str ignored f = verdict (Some f).
Proof.
  intros Hm. unfold ignores_step, verdict, is_exclude. rewrite Hm.
  destruct (type f) as [c|]; [|reflexivity].
  destruct (Ascii.eqb c "-") eqn:E.
  - apply Ascii.eqb_eq in E. subst. reflexivity.
  - destruct c as [[] [] [] [] [] [] [] []]; try reflexivity; discriminate.
Qed.

Lemma ignores_step_miss str ignored f :
  test (re f) str = false -> ignores_step str ignored f = ignored.
Proof. intros Hm. unfold ignores_step. now rewrite Hm. Qed.

Lemma fold_ignores fs p :
  fold_left (ignores_step p) fs None = verdict (last_matching fs p).
Proof.
  induction fs as [|f fs IH] using rev_ind; [reflexivity|].
  rewrite fold_left_app. cbn [fold_left]. unfold last_matching.
  rewrite filter_app.
  destruct (test (re f) p) eqn:Hm.
  - rewrite (ignores_step_hit _ _ _ Hm).
    rewrite filter_cons_True by exact Hm. rewrite filter_nil.
    now rewrite last_snoc.
  - rewrite (ignores_step_miss _ _ _ Hm), IH.
    rewrite filter_cons_False by (rewrite Hm; discriminate).
    rewrite filter_nil, app_nil_r. reflexivity.
Qed.

(** C8.  For every list of filters and every path, [ignores] returns
    the last filter of the list that matches the path when that filter
    is of type ['-'], and [null] when the last match is of another type
    or nothing matches; without a filter list it returns [null]; and
    with the patterns ["-*"] and ["+keep.txt"], ["keep.txt"] is not
    ignored. *)
Theorem C8_ignores_last_match_wins :
  (forall (fs : list FilterItem) (p : string),
      ignores (MkFilter (Some fs)) p = verdict (last_matching fs p))
  /\ (forall p, ignores (MkFilter None) p = None)
  /\ (exists flt, _init ["-*"; "+keep.txt"] = Some flt
                  /\ ignores flt "keep.txt" = None).
Proof.
  split; [|split].
  - intros fs p. unfold ignores. cbn [filters]. apply fold_ignores.
  - reflexivity.
  - eexists. split; [vm_compute; reflexivity|]. vm_compute. reflexivity.
Qed.

Lemma star_here a (k : string -> bool) s : k s = true -> star a k s = true.
Proof. intros H. destruct s; cbn [star]; rewrite H; reflexivity. Qed.

Lemma star_mono a (k k' : string -> bool) s t :
  (forall s0, k s0 = true -> k' (s0 +:+ t) = true) ->
  star a k s = true -> star a k' (s +:+ t) = true.
Proof.
  intros Hk. induction s as [|c s IH].
  - cbn [star]. rewrite orb_false_r. intros H. apply star_here, (Hk _ H).
  - cbn [star]. intros H. apply orb_true_iff in H as [H|H].
    + apply star_here, (Hk _ H).
    + apply andb_true_iff in H as [Ha Hs].
      change (String c s +:+ t) with (String c (s +:+ t)). cbn [star].
      rewrite Ha, (IH Hs). apply orb_true_r.
Qed.

(** An expression that matches a path matches every path that goes on
    from it: nothing anchors the end. *)
Lemma match_here_mono r : forall s t,
  match_here r s = true -> match_here r (s +:+ t) = true.
Proof.
  induction r as [|[a q] r IH]; intros s t; [reflexivity|].
  destruct q.
  - destruct s as [|c s]; [discriminate|].
    change (String c s +:+ t) with (String c (s +:+ t)). cbn [match_here].
    intros H. apply andb_true_iff in H as [Ha Hr].
    now rewrite Ha, (IH _ _ Hr).
  - cbn [match_here]. apply star_mono. intros s0. apply IH.
  - destruct s as [|c s]; [discriminate|].
    change (String c s +:+ t) with (String c (s +:+ t)). cbn [match_here].
    intros H. apply andb_true_iff in H as [Ha Hr]. rewrite Ha.
    cbn [andb]. revert Hr. apply star_mono. intros s0. apply IH.
Qed.

End FilterFacts.

(** ** backup-log.ts *)

Module BackupLogFacts.
Import JS Fs BackupLog.

Lemma digit_not_stripped n : is_stripped (Num.digit n) = false.
Proof.
  unfold Num.digit.
  assert (H : (Z.to_nat (n mod 10) < 10)%nat).
  { pose proof (Z.mod_pos_bound n 10 eq_refl). lia. }
  revert H. generalize (Z.to_nat (n mod 10)). intros k H.
  do 10 (destruct k as [|k]; [reflexivity|]). lia.
Qed.

Lemma strip_cons c s :
  strip (String c s) = if is_stripped c then strip s else String c (strip s).
Proof.
  unfold strip, replace_all. cbn [replace_go one_of].
  destruct (is_stripped c); reflexivity.
Qed.

Lemma strip_nil : strip "" = "".
Proof. reflexivity. Qed.

(** The shape [toISOString] gives a date with a four-digit year, and
    what stripping and re-inserting does to it. *)
Lemma ext2iso_strip_shape (y1 y2 y3 y4 m1 m2 d1 d2 h1 h2 n1 n2 s1 s2 f1 f2 f3 : Z) :
  let D := Num.digit in
  let iso :=
    String (D y1) (String (D y2) (String (D y3) (String (D y4) (String "-"
    (String (D m1) (String (D m2) (String "-"
    (String (D d1) (String (D d2) (String "T"
    (String (D h1) (String (D h2) (String ":"
    (String (D n1) (String (D n2) (String ":"
    (String (D s1) (String (D s2) (String "."
    (String (D f1) (String (D f2) (String (D f3) "Z")))))))))))))))))))))) in
  ext2iso (strip iso) = iso.
Proof.
  cbv zeta.
  repeat (rewrite strip_cons;
          first [ rewrite digit_not_stripped
                | change (is_stripped "-") with true
                | change (is_stripped ":") with true
                | change (is_stripped ".") with true
                | change (is_stripped "T") with false
                | change (is_stripped "Z") with false ];
          cbv iota).
  rewrite strip_nil.
  reflexivity.
Qed.

(** C7, as amended.  For every date whose UTC year lies between 0 and
    9999, [parseWhen] returns a text from which [ext2iso] rebuilds
    exactly what [toISOString] gives for that date. *)
Theorem C7_ext2iso_parseWhen_four_digit_year (tv : Z) :
  (0 <= Date.year_of tv <= 9999)%Z ->
  exists ext iso,
    parseWhen (Some (WDate (Date.Ms tv))) = Ok ext
    /\ Date.toISOString (Date.Ms tv) = Ok iso
    /\ ext2iso ext = iso.
Proof.
  intros Hy. do 2 eexists. split; [reflexivity|]. split; [reflexivity|].
  unfold Date.iso_of_ms, Date.iso_year. fold (Date.year_of tv).
  replace ((0 <=? Date.year_of tv)%Z && (Date.year_of tv <=? 9999)%Z) with true
    by (symmetry; apply andb_true_iff; split; apply Z.leb_le; lia).
  cbv iota. unfold Date.pad4, Date.pad3, Date.pad2.
  cbn [String.append].
  apply ext2iso_strip_shape.
Qed.

Lemma C7_witness :
  (0 <= Date.year_of 1705326312345 <= 9999)%Z
  /\ exists ext iso,
       parseWhen (Some (WDate (Date.Ms 1705326312345))) = Ok ext
       /\ Date.toISOString (Date.Ms 1705326312345) = Ok iso
       /\ ext2iso ext = iso.
Proof.
  assert (H : (0 <= Date.year_of 1705326312345 <= 9999)%Z)
    by (vm_compute; split; discriminate).
  split; [exact H|]. exact (C7_ext2iso_parseWhen_four_digit_year _ H).
Defined.

(** C7 as stated fails: the first millisecond of the year 10000 is a
    date; its ISO text has a sign and six digits for the year, and the
    fixed offsets of [ext2iso] cut it in the wrong places. *)
Lemma C7_counterexample_year_10000 :
  exists ext iso,
    parseWhen (Some (WDate (Date.Ms 253402300800000))) = Ok ext
    /\ Date.toISOString (Date.Ms 253402300800000) = Ok iso
    /\ iso = "+010000-01-01T00:00:00.000Z"
    /\ ext2iso ext <> iso.
Proof.
  do 2 eexists. split; [reflexivity|]. split; [reflexivity|].
  split; [vm_compute; reflexivity|]. vm_compute. discriminate.
Qed.

(** The timestamp of the specification's example. *)
Example parseWhen_example :
  parseWhen (Some (WDate (Date.Ms 1705326312345))) = Ok "20240115T134512345Z".
Proof. vm_compute. reflexivity. Qed.

(** [exists(when)] awaits the check and returns [true], whatever the
    check answers; the [catch] takes what the check throws, and the
    check throws what [lstat] throws other than NotFound. *)
Lemma exists_discards_the_check (l : BackupLog.t) (when : string) (w : World) :
  BackupLog.exists_ l when w
  = (Ok (match disk w !! getLogName l when with
         | Some _ => Some true
         | None => if below_a_file (disk w) (getLogName l when) then None
                   else Some true
         end), w).
Proof.
  unfold BackupLog.exists_, Fs.exists_, try_catch.
  rewrite FsFacts.bind_run, FsFacts.std_exists_run.
  destruct (disk w !! getLogName l when); [reflexivity|].
  destruct (below_a_file (disk w) (getLogName l when)); reflexivity.
Qed.

(** C10, as amended.  [exists(when)] never throws and leaves the world
    as it is.  It returns [true] whether the log file is there or not,
    as long as [lstat] finds the file or misses it with NotFound; it
    returns [undefined] in the one case left, a log name that lies below
    a regular file, where [lstat] fails with another error. *)
Theorem C10_exists_true_unless_lstat_fails (l : BackupLog.t) (when : string)
    (w : World) :
  exists r,
    BackupLog.exists_ l when w = (Ok r, w)
    /\ (r = Some true \/ r = None)
    /\ (r = None
        <-> disk w !! getLogName l when = None
            /\ below_a_file (disk w) (getLogName l when) = true).
Proof.
  rewrite exists_discards_the_check. eexists. split; [reflexivity|].
  destruct (disk w !! getLogName l when) as [n|].
  - split; [now left|]. split; [discriminate|]. intros [E _]. discriminate E.
  - destruct (below_a_file (disk w) (getLogName l when)).
    + split; [now right|]. split; auto.
    + split; [now left|]. split; [discriminate|]. intros [_ E]. discriminate E.
Qed.

(** C10 as stated fails: with a regular file where the directory of the
    user belongs, [lstat] of the log name fails with ENOTDIR, the check
    throws it on, and [exists] returns [undefined]. *)
Lemma C10_counterexample_below_a_file :
  disk Scenario.world_blocked !! "tgt/backups/u"
  = Some (File (Scenario.file_meta 1000) "")
  /\ getLogName Scenario.running_log "current" = "tgt/backups/u/set1.current"
  /\ lstat "tgt/backups/u/set1.current" Scenario.world_blocked
     = (Throw NotADirectory, Scenario.world_blocked)
  /\ BackupLog.exists_ Scenario.running_log "current" Scenario.world_blocked
     = (Ok None, Scenario.world_blocked).
Proof. conjs; vm_compute; reflexivity. Qed.

(** Both of the other cases do occur: a log that is not there, and one
    that is. *)
Example exists_for_a_missing_log :
  disk Scenario.world0 !! getLogName Scenario.running_log "running" = None
  /\ BackupLog.exists_ Scenario.running_log "running" Scenario.world0
     = (Ok (Some true), Scenario.world0).
Proof. split; vm_compute; reflexivity. Qed.

Example exists_for_a_present_log :
  let w := Scenario.world1 "" Scenario.hello in
  is_Some (disk w !! getLogName Scenario.running_log "current")
  /\ BackupLog.exists_ Scenario.running_log "current" w = (Ok (Some true), w).
Proof.
  cbv zeta. split; [eexists; vm_compute; reflexivity |].
  rewrite exists_discards_the_check.
  assert (E : is_Some (disk (Scenario.world1 "" Scenario.hello)
                         !! getLogName Scenario.running_log "current"))
    by (eexists; vm_compute; reflexivity).
  destruct E as [n ->]. reflexivity.
Qed.

End BackupLogFacts.

(** ** backup-filesystem.ts and hash-filesystem-v5.ts *)

Module StoreFacts.
Import JS Fs FsFacts.
Module HFS := HashFileSystemV5.
Module BFS := BackupFileSystem.

Section WithCodec.
Context `{Codec}.

Lemma store_present h file key c w w' :
  HFS.store h file key c w = (Ok tt, w') -> is_Some (disk w' !! HFS.path key).
Proof.
  unfold HFS.store. intros Hs.
  apply bind_ok in Hs as ([] & w1 & _ & Hs).
  apply bind_ok in Hs as ([] & w2 & _ & Hs).
  destruct c; [now apply copy_present in Hs | now apply zip_present in Hs].
Qed.

(** [put] for a key that is in the store: the world stays as it is. *)
Lemma put_existing bfs h file size hash c w :
  BFS.hfs bfs = Some h ->
  is_Some (disk w !! HFS.path (HFS.getKey h hash (Num.Int size))) ->
  BFS.put bfs file size hash c w = (Ok (BFS.MkPut true), w).
Proof.
  intros Hh Hex. unfold BFS.put. rewrite Hh.
  rewrite bool_decide_eq_true_2 by eauto.
  unfold BFS.assert. rewrite bind_ret_run.
  rewrite bind_run, bind_run. unfold HFS.exists_.
  rewrite (std_exists_present _ _ Hex). reflexivity.
Qed.

(** A [put] that returns has the key in the store afterwards. *)
Lemma put_ok_present bfs h file size hash c w r w' :
  BFS.hfs bfs = Some h ->
  BFS.put bfs file size hash c w = (Ok r, w') ->
  r = BFS.MkPut true
  /\ is_Some (disk w' !! HFS.path (HFS.getKey h hash (Num.Int size))).
Proof.
  intros Hh. unfold BFS.put. rewrite Hh.
  rewrite bool_decide_eq_true_2 by eauto.
  unfold BFS.assert. rewrite bind_ret_run.
  rewrite bind_run, bind_run. unfold HFS.exists_. rewrite std_exists_run.
  destruct (disk w !! _) as [n|] eqn:E.
  - cbn [negb]. unfold mret, M_ret. intros [= <- <-]. split; [reflexivity|]. eauto.
  - destruct (below_a_file _ _); [discriminate|]. cbn [negb].
    destruct (HFS.store _ _ _ _ w) as [[[]|e|e|] w1] eqn:Hs; try discriminate.
    unfold mret, M_ret. intros [= <- <-]. split; [reflexivity|].
    eapply store_present; eauto.
Qed.

(** C2.  With the store connected: (1) for a key that exists, [put]
    returns [{stored: true}] and leaves the world as it was: no store
    routine runs, nothing is written, the byte count of the object store
    is the same; (2) whenever a [put] returns, it returns [{stored:
    true}], and the same [put] again returns [{stored: true}] and
    changes nothing. *)
Theorem C2_put_idempotent (bfs : BFS.t) (h : HFS.t) (file : string) (size : Z)
    (hash : string) (c : option bool) (w : World) :
  BFS.hfs bfs = Some h ->
  (is_Some (disk w !! HFS.path (HFS.getKey h hash (Num.Int size))) ->
   BFS.put bfs file size hash c w = (Ok (BFS.MkPut true), w))
  /\ (forall r w',
        BFS.put bfs file size hash c w = (Ok r, w') ->
        BFS.stored r = true
        /\ BFS.put bfs file size hash c w' = (Ok (BFS.MkPut true), w')
        /\ Spec.byte_count (default "" (BFS.root bfs)) w'
           = Spec.byte_count (default "" (BFS.root bfs))
               (BFS.put bfs file size hash c w').2).
Proof.
  intros Hh. split.
  - now apply put_existing.
  - intros r w' Hput.
    destruct (put_ok_present _ _ _ _ _ _ _ _ _ Hh Hput) as [-> Hex].
    split; [reflexivity|].
    rewrite (put_existing _ _ _ _ _ _ _ Hh Hex). split; reflexivity.
Qed.

End WithCodec.

Lemma C2_witness :
  let bfs := Target.fs Scenario.target in
  let h := HFS.MkHfs "tgt/files.db" in
  let w := Scenario.world1 ("GZ" +:+ Scenario.hello) Scenario.hello in
  let put := BFS.put (H := Scenario.sample_codec) bfs "/src/a.txt" 6
               Scenario.hash_hello None in
  BFS.hfs bfs = Some h
  /\ is_Some (disk w !! HFS.path (HFS.getKey h Scenario.hash_hello (Num.Int 6)))
  /\ put w = (Ok (BFS.MkPut true), w)
  /\ BFS.stored (BFS.MkPut true) = true.
Proof.
  cbv zeta.
  pose proof (C2_put_idempotent (H := Scenario.sample_codec)
                (Target.fs Scenario.target) (HFS.MkHfs "tgt/files.db")
                "/src/a.txt" 6 Scenario.hash_hello None
                (Scenario.world1 ("GZ" +:+ Scenario.hello) Scenario.hello) eq_refl)
    as [H1 H2].
  assert (Hex : is_Some (disk (Scenario.world1 ("GZ" +:+ Scenario.hello) Scenario.hello)
                  !! HFS.path (HFS.getKey (HFS.MkHfs "tgt/files.db")
                                 Scenario.hash_hello (Num.Int 6)))).
  { eexists. vm_compute. reflexivity. }
  split; [reflexivity|]. split; [exact Hex|]. split; [exact (H1 Hex)|].
  exact (proj1 (H2 _ _ (H1 Hex))).
Defined.

(** The other way into [put]: the key is absent, the object is stored,
    and the second [put] finds it. *)
Example put_stores_then_skips :
  let put := BFS.put (H := Scenario.sample_codec) (Target.fs Scenario.target)
               "/src/a.txt" 6 Scenario.hash_hello None in
  let w1 := (put Scenario.world0).2 in
  disk Scenario.world0 !! Scenario.object_path = None
  /\ (put Scenario.world0).1 = Ok (BFS.MkPut true)
  /\ disk w1 !! Scenario.object_path
     = Some (File (Scenario.fresh Scenario.t_run1 420) ("GZ" +:+ Scenario.hello))
  /\ put w1 = (Ok (BFS.MkPut true), w1).
Proof. cbv zeta. conjs; vm_compute; reflexivity. Qed.

End StoreFacts.

(** ** backup-source.ts *)

Module WalkerFacts.
Import JS Fs FsFacts BackupLog BackupSource Spec.
Module HFS := HashFileSystemV5.
Module BFS := BackupFileSystem.

Section WithCodec.
Context `{Codec}.

(** The decision itself: an entry in the last backup, a stat not newer
    than the last backup and the same in size and mtime, [checkHash]
    off: the old hash is taken over and the code is ['-']. *)
Lemma choose_skip s lb fn fstat e t :
  checkHash s = false ->
  F lb !! fn = Some e ->
  mtime fstat = Some (Date.Ms t) ->
  Date.le (Date.Ms t) (time lb) = true ->
  size fstat = i_size e ->
  i_mtime e = TDate (Date.Ms t) ->
  choose s (Some lb) fn fstat = Ok (Some (i_hash e), "-").
Proof.
  intros Hc He Hm Hle Hsz Hmt. unfold choose. rewrite He, Hm, Hle.
  unfold sameAsLastBackup. rewrite Hmt, Hsz, Z.eqb_refl, Hm. cbn.
  rewrite Z.eqb_refl. cbn. now rewrite Hc.
Qed.

Lemma entryToString_ok s fn m data hash t :
  m_mtime m = Some (Date.Ms t) ->
  m_birthtime m <> Some Date.Invalid ->
  exists line, entryToString (file_record s fn (info_of (File m data)) hash) = Ok line.
Proof.
  intros Hm Hb. unfold entryToString, file_record.
  cbn [info_of fe_mode fe_ctime fe_mtime mode birthtime mtime
       fe_type fe_uid fe_gid fe_size fe_hash fe_path uid gid size].
  rewrite Hm.
  assert (Hmode : exists x, mode_text (num_or_empty (m_mode m)) = Ok x).
  { unfold num_or_empty.
    destruct (m_mode m) as [z|]; [destruct (z =? 0)%Z|]; cbn; eauto. }
  destruct Hmode as [md ->].
  assert (Hct : exists x, time_text (date_or_empty (m_birthtime m)) = Ok x).
  { destruct (m_birthtime m) as [[tv|]|]; cbn; eauto. congruence. }
  destruct Hct as [ct ->].
  cbn. eauto.
Qed.

(** [_log] with the log open: one line is appended, and with [verbose]
    one line goes to the console. *)
Lemma _log_run s instance ty fn st hash modified w l h lm ldata line :
  BackupInstance._log instance = Some l ->
  log l = Some h -> opened h = true -> closed h = false ->
  disk w !! BackupLog.fn h = Some (File lm ldata) ->
  entryToString
    {| fe_type := ty;
       fe_uid := num_or_empty (uid st);
       fe_gid := num_or_empty (gid st);
       fe_mode := num_or_empty (mode st);
       fe_ctime := date_or_empty (birthtime st);
       fe_mtime := date_or_empty (mtime st);
       fe_size := size st;
       fe_hash := hash;
       fe_path := fn |} = Ok line ->
  _log s instance ty fn st hash modified w
  = (Ok tt,
     MkWorld
       (<[BackupLog.fn h :=
            File (MkMeta (Some (Date.Ms (clock w))) (m_birthtime lm) (m_mode lm)
                    (m_uid lm) (m_gid lm)) (ldata +:+ line +:+ LF)]> (disk w))
       (console w ++ (if verbose s
                      then [Log (modified +:+ " " +:+ Path.join [src s; fn])] else []))
       (trace w ++ [EvWrite (BackupLog.fn h)])
       (clock w) (stats w)).
Proof.
  intros Hlog Hh Hop Hcl Hlf Hline.
  unfold _log, BackupInstance.log. rewrite Hlog.
  assert (Hw : forall w1, disk w1 = disk w ->
    writeEntry l
      {| fe_type := ty;
         fe_uid := num_or_empty (uid st);
         fe_gid := num_or_empty (gid st);
         fe_mode := num_or_empty (mode st);
         fe_ctime := date_or_empty (birthtime st);
         fe_mtime := date_or_empty (mtime st);
         fe_size := size st;
         fe_hash := hash;
         fe_path := fn |} w1
    = (Ok tt,
       MkWorld
         (<[BackupLog.fn h :=
              File (MkMeta (Some (Date.Ms (clock w1))) (m_birthtime lm) (m_mode lm)
                      (m_uid lm) (m_gid lm)) (ldata +:+ line +:+ LF)]> (disk w))
         (console w1) (trace w1 ++ [EvWrite (BackupLog.fn h)]) (clock w1) (stats w1))).
  { intros w1 Hd. unfold writeEntry, BackupLog._log. rewrite Hh, bind_ret_run.
    rewrite bind_run. unfold lift. rewrite Hline.
    unfold appendFile. rewrite Hop, Hcl. cbn [negb].
    unfold append_file. rewrite Hd, Hlf. rewrite bind_run, emit_run.
    unfold set_node, set_disk. cbn [disk console trace clock stats].
    rewrite Hd. reflexivity. }
  destruct (verbose s).
  - rewrite bind_run. unfold console_log, print. rewrite bind_ret_run.
    rewrite Hw by reflexivity. reflexivity.
  - rewrite bind_ret_run, bind_ret_run. rewrite Hw by reflexivity.
    rewrite app_nil_r. destruct w; reflexivity.
Qed.

(** C6, as amended.  The walker visits the regular file [fn]; the last
    backup has the entry [e] for it; the file's mtime is not after the
    time of the last backup; size and mtime are those of [e]; [checkHash]
    is off; and the hash of [e] is not the empty text.  The run is in
    progress: the log of the instance is open on an existing file, the
    store is connected and holds the object of [e].  Then [_backupFile]
    returns, having appended to the log the F record of [fn] with the
    hash of [e], having printed the code ['-'] when [verbose] is on, and
    having done nothing else to the file system: the file is neither
    hashed nor read. *)
Theorem C6_skip_reuses_hash (s : BackupSource.t) (lb : BackupInfo) (fn : string)
    (instance : BackupInstance.t) (w : World)
    (m : Meta) (data : string) (e : InfoFileEntry) (t : Z)
    (l : BackupLog.t) (h : FsFile) (lm : Meta) (ldata : string) (hfs : HFS.t) :
  checkHash s = false ->
  disk w !! fn = Some (File m data) ->
  F lb !! fn = Some e ->
  m_mtime m = Some (Date.Ms t) ->
  Date.le (Date.Ms t) (time lb) = true ->
  i_size e = Z.of_nat (String.length data) ->
  i_mtime e = TDate (Date.Ms t) ->
  i_hash e <> "" ->
  m_birthtime m <> Some Date.Invalid ->
  BackupInstance._log instance = Some l ->
  log l = Some h -> opened h = true -> closed h = false ->
  disk w !! BackupLog.fn h = Some (File lm ldata) ->
  BFS.hfs (Target.fs (BackupInstance.target instance)) = Some hfs ->
  is_Some (disk w !! HFS.path (HFS.getKey hfs (i_hash e)
                                 (Num.Int (Z.of_nat (String.length data))))) ->
  exists line w',
    _backupFile s (Some lb) fn instance w = (Ok tt, w')
    /\ entryToString (file_record s fn (info_of (File m data)) (i_hash e)) = Ok line
    /\ (exists lm',
          disk w' = <[BackupLog.fn h := File lm' (ldata +:+ line +:+ LF)]> (disk w))
    /\ console w'
       = console w ++ (if verbose s
                       then [Log ("- " +:+ Path.join [src s; rel s fn])] else [])
    /\ trace w' = trace w ++ [EvWrite (BackupLog.fn h)].
Proof.
  intros Hc Hfile He Hm Hle Hsz Hmt Hne Hb Hlog Hh Hop Hcl Hlf Hhfs Hobj.
  destruct (entryToString_ok s fn m data (i_hash e) t Hm Hb) as [line Hline].
  exists line.
  unfold _backupFile, try_catch.
  unfold Fs.stat. rewrite bind_run, (lstat_found _ _ _ Hfile).
  rewrite bind_run. unfold lift at 1.
  rewrite (choose_skip s lb fn (info_of (File m data)) e t Hc He Hm Hle (eq_sym Hsz) Hmt).
  assert (Ht : truthy (i_hash e) = true).
  { unfold truthy. destruct (String.eqb_spec (i_hash e) ""); [contradiction|reflexivity]. }
  rewrite Ht. rewrite bind_ret_run.
  rewrite bind_run. unfold update_stats at 1.
  rewrite bind_run. unfold BackupInstance.put.
  rewrite (StoreFacts.put_existing _ hfs) by (cbn [disk size info_of]; assumption).
  cbn [BFS.stored].
  rewrite bind_run.
  match goal with
  | |- context [ _log _ _ _ _ _ _ _ ?w1 ] =>
    rewrite (_log_run s instance KF (rel s fn) (info_of (File m data)) (i_hash e) "-"
               w1 l h lm ldata line Hlog Hh Hop Hcl Hlf Hline)
  end.
  unfold update_stats.
  eexists. split; [reflexivity|]. split; [exact Hline|].
  cbn [disk console trace].
  split; [eexists; reflexivity|]. split; reflexivity.
Qed.

End WithCodec.

Import Scenario.

(** The worlds of the second run are what the sources make them. *)
Lemma creates_running man object :
  BackupInstance.createNewInstance
    (BackupInstance.new target (Some "set1") (Some "u"))
    (MkWorld (disk1_with man object hello) [] [] t_run2 BackupSet.zero_stats)
  = (Ok running_instance, world_running man object).
Proof. vm_compute. reflexivity. Qed.

Lemma reads_last_backup object :
  (getLastBackup running_log (world_running manifest1 object)).1
  = Ok (Some (last_info hash_hello)).
Proof. vm_compute. reflexivity. Qed.

Lemma reads_last_backup_empty_hash object :
  (getLastBackup running_log (world_running (manifest "") object)).1
  = Ok (Some (last_info "")).
Proof. vm_compute. reflexivity. Qed.

Lemma C6_witness :
  let s := source true in
  let w := world_running manifest1 ("GZ" +:+ hello) in
  let e := last_entry hash_hello in
  exists line w',
    _backupFile (H := sample_codec) s (Some (last_info hash_hello)) "/src/a.txt"
      running_instance w = (Ok tt, w')
    /\ entryToString
         (file_record s "/src/a.txt" (info_of (File (file_meta t_file) hello))
            (i_hash e)) = Ok line
    /\ (exists lm',
          disk w' = <[running_path := File lm' (header_line +:+ line +:+ LF)]> (disk w))
    /\ console w' = console w ++ [Log ("- " +:+ Path.join ["/src"; "a.txt"])]
    /\ trace w' = trace w ++ [EvWrite running_path].
Proof.
  cbv zeta.
  refine (C6_skip_reuses_hash (H := sample_codec)
            (source true) (last_info hash_hello) "/src/a.txt" running_instance
            (world_running manifest1 ("GZ" +:+ hello))
            (file_meta t_file) hello (last_entry hash_hello) t_file
            running_log (MkFsFile running_path true false)
            (fresh t_run2 384) header_line (HFS.MkHfs "tgt/files.db")
            _ _ _ _ _ _ _ _ _ _ _ _ _ _ _ _).
  - reflexivity.
  - vm_compute. reflexivity.
  - vm_compute. reflexivity.
  - reflexivity.
  - vm_compute. reflexivity.
  - reflexivity.
  - reflexivity.
  - vm_compute. discriminate.
  - vm_compute. discriminate.
  - reflexivity.
  - reflexivity.
  - reflexivity.
  - reflexivity.
  - vm_compute. reflexivity.
  - reflexivity.
  - eexists. vm_compute. reflexivity.
Defined.

(** C6 as stated fails for an entry whose hash is the empty text: the
    hypotheses of the claim hold (an entry for the file, the file not
    newer than the last backup, same size, same mtime, [checkHash] off),
    yet the walker hashes the file and writes the record with the
    digest it computed, not with the hash of the entry. *)
Lemma C6_counterexample_empty_hash :
  let s := source true in
  let w := world_running (manifest "") ("GZ" +:+ hello) in
  let lb := last_info "" in
  let e := last_entry "" in
  let fstat := info_of (File (file_meta t_file) hello) in
  let run := _backupFile (H := sample_codec) s (Some lb) "/src/a.txt"
               running_instance w in
  checkHash s = false
  /\ lstat "/src/a.txt" w = (Ok fstat, w)
  /\ F lb !! "/src/a.txt" = Some e
  /\ mtime fstat = Some (Date.Ms t_file)
  /\ Date.le (Date.Ms t_file) (time lb) = true
  /\ i_mtime e = TDate (Date.Ms t_file)
  /\ size fstat = i_size e
  /\ run.1 = Ok tt
  /\ trace run.2
     = trace w ++ [EvHash "/src/a.txt"; EvRead "/src/a.txt"; EvWrite running_path]
  /\ console run.2 = [Log "- /src/a.txt"]
  /\ disk run.2 !! running_path
     = Some (File (fresh t_run2 384)
               (header_line
                +:+ "F 1000:1000:644 2023-11-14T22:13:20.000Z 2023-11-14T22:13:20.000Z - 6 "
                +:+ hash_hello +:+ " 0 " +:+ Json.stringify "a.txt" +:+ LF))
  /\ i_hash e <> hash_hello.
Proof.
  cbv zeta. conjs; try (vm_compute; reflexivity). vm_compute. discriminate.
Qed.

(** Why the store has to hold the object: with the object gone, the
    same visit still takes the hash over without hashing, but [put] now
    stores the file under that hash, and reads it to do so. *)
Example skip_with_the_object_gone :
  let w := world_running manifest1 ("GZ" +:+ hello) in
  let w_gone := MkWorld (delete object_path (disk w)) [] [] t_run2
                  BackupSet.zero_stats in
  let run := _backupFile (H := sample_codec) (source true)
               (Some (last_info hash_hello)) "/src/a.txt" running_instance w_gone in
  run.1 = Ok tt
  /\ console run.2 = [Log "- /src/a.txt"]
  /\ trace run.2
     = [EvStore "/src/a.txt" object_path; EvRead "/src/a.txt";
        EvWrite object_path; EvWrite running_path].
Proof. cbv zeta. conjs; vm_compute; reflexivity. Qed.

End WalkerFacts.

(** ** The scenarios *)

Module ScenarioFacts.
Import JS Fs Scenario.

(** S1 in the model: the first run, for the user ["u"], leaves the
    object, the manifest and its [current] twin, and counts one file
    backed up. *)
Lemma first_run :
  let run := backup_as (H := sample_codec) "u" false world0 in
  run.1 = Ok tt
  /\ disk run.2 = disk1 ("GZ" +:+ hello) hello
  /\ stats run.2 = MkStats 0 1 1 6 1 6.
Proof. cbv zeta. conjs; vm_compute; reflexivity. Qed.

(** Without a [userid], which is how [LocalBackup.backup] makes its
    instance, no run gets as far as creating its log. *)
Lemma backup_without_userid `{Codec} :
  LocalBackup.backup 8 target (backupset false) world0
  = (Throw (plain_error "userid not defined"), world0).
Proof. reflexivity. Qed.

(** C1, at the input where the code fails it: the second run of S2.
    Whatever the hash and compression libraries and whatever the stored
    object holds, the run over the unchanged source prints the code ['-']
    for the file, writes a manifest equal to the first one (the F record
    with the hash taken over), neither hashes nor stores nor reads the
    file, leaves the object as it was, and ends with [backedUp.files] at
    1, not 0, which is also what the summary of [displayStats] says in
    its last line:
    [put] answers [{stored: true}] for an object it did not store, and
    the walker counts on that answer. *)
Theorem C1_second_run_counts_the_file_as_backed_up `{Codec} (object : string) :
  let run := backup_as "u" true (world1 object hello) in
  run.1 = Ok tt
  /\ console run.2
     = [Log "- /src"; Log "- /src/a.txt";
        Log "Backup set1 complete. Took 0 seconds.";
        Log "Processed: 1 files (0 MB) 1 folders. Skipped 0.";
        Log "Backed up: 1 files (0 MB)"]
  /\ disk run.2 !! "tgt/backups/u/set1.20240115T134640000Z"
     = Some (File (fresh t_run2 384) manifest1)
  /\ filter (fun ev => Spec.reads_or_stores ev = true) (trace run.2)
     = [EvRead "tgt/backups/u/set1.20240115T134512345Z"]
  /\ disk run.2 !! object_path = Some (File (fresh t_run1 420) object)
  /\ files (stats run.2) = 1%Z
  /\ backedUp_files (stats run.2) = 1%Z.
Proof. cbv zeta. conjs; vm_compute; reflexivity. Qed.

(** What makes a damaged object a missing one: when [verify] throws,
    the visit counts the object as damaged and leaves the table of
    hashes as it was, the entry of the key unseen. *)
Lemma fsck_visit_damaged `{Codec} t verbose st hashes root entry key h size hash w e w1 :
  BackupLog.truthy key = true ->
  hashes !! key = Some h ->
  hash = default "" (split (Ascii.eqb ".") key !! 0) ->
  size = match split (Ascii.eqb ".") key !! 1 with
         | Some p => Num.parseInt p
         | None => Num.NaN
         end ->
  BackupFileSystem.verify (Target.filesystem t) size hash None w = (Throw e, w1) ->
  exists w2,
    LocalBackup.fsck_visit t verbose (st, hashes) root entry key w
    = (Ok (LocalBackup.MkFsck (LocalBackup.total st + 1) (LocalBackup.verified st)
             (LocalBackup.damaged st + 1) (LocalBackup.orphaned st)
             (LocalBackup.missing st), hashes), w2)
    /\ console w2 = console w1 ++ [Log ("ERROR " +:+ key); LogObject e].
Proof.
  intros Hk Hh -> -> Hv. unfold LocalBackup.fsck_visit. rewrite Hk, Hh.
  unfold try_catch. rewrite FsFacts.bind_run, Hv.
  eexists. split; [reflexivity|]. cbn [console]. now rewrite <- app_assoc.
Qed.

(** C4, at the input where the code fails it: S3.  With the object of
    S1 cut to zero bytes, and with any hash and compression library whose
    inflater rejects the empty stream, [fsck] counts the object as
    damaged and, because a damaged object is never marked as seen, as
    missing too: total 1, verified 0, damaged 1, orphaned 0, missing 1. *)
Theorem C4_fsck_counts_damaged_object_as_missing (c : Codec) :
  let run := LocalBackup.fsck (H := rejecting_empty c) 8 target false
               (world1 "" hello) in
  run.1 = Ok (LocalBackup.MkFsck 1 0 1 0 1)
  /\ console run.2
     = [Log ("ERROR " +:+ hash_hello +:+ ".6");
        LogObject (MkError "" (Some "invalid gzip stream") None);
        Log ("MISSING " +:+ hash_hello +:+ ".6");
        Log "Total 1 Verified 0 Orphaned 0 Damaged 1 Missing 1"].
Proof. cbv zeta. split; vm_compute; reflexivity. Qed.

(** With the manifests directly below [backups/], as S1 of the
    specification lays them out, [fsck] gives no report at all: the
    instance it makes for a manifest has no [userid]. *)
Lemma fsck_without_userid :
  let d := <["tgt/backups/set1.20240115T134512345Z" := File (fresh t_run1 384) manifest1]>
             (disk1 "" hello) in
  let w := MkWorld d [] [] t_run2 BackupSet.zero_stats in
  LocalBackup.fsck (H := sample_codec) 8 target false w
  = (Throw (plain_error "userid not defined"), w).
Proof. vm_compute. reflexivity. Qed.

(** With the object intact [fsck] reports it verified and nothing
    missing. *)
Lemma fsck_after_S1 :
  (LocalBackup.fsck (H := sample_codec) 8 target false
     (world1 ("GZ" +:+ hello) hello)).1
  = Ok (LocalBackup.MkFsck 1 1 0 0 0).
Proof. vm_compute. reflexivity. Qed.

(** What [BackupFileSystem.verify] does with the answer of the
    comparison: nothing.  With a file to compare with, it ends as the
    check without comparison ends, followed by the comparison, whose
    boolean is dropped. *)
Lemma verify_drops_the_comparison `{Codec} bfs h size hash cw w :
  BackupFileSystem.hfs bfs = Some h ->
  BackupLog.truthy cw = true ->
  BackupFileSystem.verify bfs size hash (Some cw) w
  = match BackupFileSystem.verify bfs size hash None w with
    | (Ok _, w1) =>
      match HashFileSystemV5.compare (HashFileSystemV5.getKey h hash size) cw w1 with
      | (Ok _, w2) => (Ok tt, w2)
      | (Throw e, w2) => (Throw e, w2)
      | (Crash e, w2) => (Crash e, w2)
      | (OutOfFuel, w2) => (OutOfFuel, w2)
      end
    | r => r
    end.
Proof.
  intros Hh Hcw. unfold BackupFileSystem.verify. rewrite Hh, Hcw.
  rewrite bool_decide_eq_true_2 by eauto.
  unfold mbind, M_bind, mret, M_ret.
  change (BackupFileSystem.assert true BackupFileSystem.ERROR_SETLOCATION_NOT_CALLED w)
    with (@Ok unit tt, w).
  cbv beta iota.
  destruct (HashFileSystemV5.exists_ (HashFileSystemV5.getKey h hash size) w)
    as [[ex|e|e|] w1]; try reflexivity.
  destruct (BackupFileSystem.assert ex BackupFileSystem.ERROR_NOT_FOUND w1)
    as [[[]|e|e|] w2]; try reflexivity.
  destruct (HashFileSystemV5.hashKey (HashFileSystemV5.getKey h hash size) w2)
    as [[h2|e|e|] w3]; try reflexivity.
  destruct (BackupFileSystem.assert (String.eqb h2 hash)
              BackupFileSystem.ERROR_ENTRY_CORRUPT w3)
    as [[[]|e|e|] w4]; reflexivity.
Qed.

(** C5, at the input where the code fails it.  The object of S1 is
    sound, the file on disk has another content, the comparison of the
    two answers [false], and [verify] runs with [compare] and [verbose]:
    the line for the record is OK. *)
Theorem C5_verify_compare_reports_OK :
  let object := "GZ" +:+ hello in
  let changed := "HELLO" +:+ BackupLog.LF in
  let w0 := world1 object changed in
  let run := LocalBackup.verify (H := sample_codec) 8 target (Some "set1")
               "20240115T134512345Z" (Some "u") true None true w0 in
  changed <> hello
  /\ (Fs.compareZipWith (H := sample_codec) object_path "/src/a.txt" w0).1 = Ok false
  /\ run.1 = Ok tt
  /\ console run.2 = [Log "SOURCE /src"; Log ("OK " +:+ hash_hello +:+ " 6 a.txt")].
Proof.
  cbv zeta. split; [discriminate|]. conjs; vm_compute; reflexivity.
Qed.

(** Without [verbose] the record gets no line at all. *)
Lemma verify_compare_quiet :
  let run := LocalBackup.verify (H := sample_codec) 8 target (Some "set1")
               "20240115T134512345Z" (Some "u") true None false
               (world1 ("GZ" +:+ hello) ("HELLO" +:+ BackupLog.LF)) in
  run.1 = Ok tt /\ console run.2 = [].
Proof. cbv zeta. split; vm_compute; reflexivity. Qed.

End ScenarioFacts.

(** ** Strings, numbers and JSON: what is written reads back *)

Module StringFacts.
Import JS Notions.

Lemma app_cons c a b : String c a +:+ b = String c (a +:+ b).
Proof. reflexivity. Qed.

Lemma app_empty b : "" +:+ b = b.
Proof. reflexivity. Qed.

Lemma app_empty_r a : a +:+ "" = a.
Proof. induction a as [|c a IH]; [reflexivity|]. rewrite app_cons. now rewrite IH. Qed.

Lemma str_app_assoc a : forall b c, (a +:+ b) +:+ c = a +:+ (b +:+ c).
Proof.
  induction a as [|x a IH]; intros b c; [reflexivity|].
  rewrite !app_cons. f_equal. apply IH.
Qed.

Lemma all_chars_app f a b :
  all_chars f (a +:+ b) = all_chars f a && all_chars f b.
Proof.
  induction a as [|c a IH]; [reflexivity|]. rewrite app_cons. cbn [all_chars].
  now rewrite IH, andb_assoc.
Qed.

Lemma all_chars_impl (f g : ascii -> bool) s :
  (forall c, f c = true -> g c = true) -> all_chars f s = true -> all_chars g s = true.
Proof.
  intros Hfg. induction s as [|c s IH]; [reflexivity|]. cbn [all_chars].
  intros H. apply andb_true_iff in H as [Hc Hs]. now rewrite (Hfg _ Hc), (IH Hs).
Qed.

Lemma rev_app_app b : forall c, String.rev_app b c = String.rev_app b "" +:+ c.
Proof.
  induction b as [|x b IH]; intros c; [reflexivity|].
  cbn [String.rev_app]. rewrite (IH (String x c)), (IH (String x "")).
  now rewrite str_app_assoc.
Qed.

Lemma rev_app_rev_app a : forall b c,
  String.rev_app (String.rev_app a b) c = String.rev_app b (a +:+ c).
Proof.
  induction a as [|x a IH]; intros b c; [reflexivity|].
  cbn [String.rev_app]. now rewrite IH.
Qed.

Lemma rev_cons c cur : String.rev (String c cur) = String.rev cur +:+ String c "".
Proof. unfold String.rev. cbn [String.rev_app]. apply rev_app_app. Qed.

Lemma rev_push s acc : String.rev (String.rev_app s acc) = String.rev acc +:+ s.
Proof.
  unfold String.rev. rewrite rev_app_rev_app, app_empty_r. apply rev_app_app.
Qed.

(** [split]: up to the first separator. *)
Lemma split_go_word sep a : forall cur c b,
  all_chars (fun x => negb (sep x)) a = true -> sep c = true ->
  split_go sep cur (a +:+ String c b) = String.rev (String.rev_app a cur) :: split_go sep "" b.
Proof.
  induction a as [|x a IH]; intros cur c b Ha Hc.
  - rewrite app_empty. cbn [split_go String.rev_app]. now rewrite Hc.
  - cbn [all_chars] in Ha. apply andb_true_iff in Ha as [Hx Ha].
    apply negb_true_iff in Hx. rewrite app_cons. cbn [split_go String.rev_app]. rewrite Hx.
    now apply IH.
Qed.

Lemma split_go_last sep a : forall cur,
  all_chars (fun x => negb (sep x)) a = true ->
  split_go sep cur a = [String.rev (String.rev_app a cur)].
Proof.
  induction a as [|x a IH]; intros cur Ha; [reflexivity|].
  cbn [all_chars] in Ha. apply andb_true_iff in Ha as [Hx Ha].
  apply negb_true_iff in Hx. cbn [split_go String.rev_app]. rewrite Hx. now apply IH.
Qed.

Lemma split_word sep a c b :
  all_chars (fun x => negb (sep x)) a = true -> sep c = true ->
  split sep (a +:+ String c b) = a :: split sep b.
Proof.
  intros Ha Hc. unfold split. rewrite (split_go_word sep a "" c b Ha Hc).
  now rewrite rev_push.
Qed.

Lemma split_last sep a :
  all_chars (fun x => negb (sep x)) a = true -> split sep a = [a].
Proof. intros Ha. unfold split. rewrite (split_go_last sep a "" Ha). now rewrite rev_push. Qed.

Lemma split_go_cons sep s : forall cur, exists w ws, split_go sep cur s = w :: ws.
Proof.
  induction s as [|c s IH]; intros cur; cbn [split_go]; [eauto|].
  destruct (sep c); eauto.
Qed.

(** Joining what [split(' ')] gave with [' '] gives the text back. *)
Lemma concat_split_go s : forall cur,
  String.concat " " (split_go (fun c => Ascii.eqb c " ") cur s) = String.rev cur +:+ s.
Proof.
  induction s as [|c s IH]; intros cur.
  - cbn [split_go String.concat]. now rewrite app_empty_r.
  - cbn [split_go]. destruct (Ascii.eqb_spec c " ") as [->|Hne].
    + destruct (split_go_cons (fun c => Ascii.eqb c " ") s "") as (w & ws & E).
      pose proof (IH "") as H. rewrite E in *.
      change (String.concat " " (String.rev cur :: w :: ws))
        with (String.rev cur +:+ " " +:+ String.concat " " (w :: ws)).
      rewrite H. reflexivity.
    + rewrite IH, rev_cons. now rewrite str_app_assoc.
Qed.

Lemma filter_nonempty_cons p ps :
  filter (fun p => negb (String.eqb p "")) (p :: ps)
  = if String.eqb p "" then filter (fun p => negb (String.eqb p "")) ps
    else p :: filter (fun p => negb (String.eqb p "")) ps.
Proof.
  rewrite filter_cons. destruct (String.eqb p ""); cbn [negb];
    destruct (decide _) as [H|H]; try reflexivity; [destruct H|destruct H; exact I].
Qed.

End StringFacts.

Module NumFacts.
Import JS Num Notions StringFacts.

Lemma small_digit k : (k < 10)%nat ->
  is_digit (ascii_of_nat (48 + k)) = true
  /\ digit_val (ascii_of_nat (48 + k)) = Z.of_nat k.
Proof.
  intros H. do 10 (destruct k as [|k]; [split; reflexivity|]). lia.
Qed.

Lemma mod_digit b n : (2 <= b <= 10)%Z ->
  is_digit (ascii_of_nat (48 + Z.to_nat (n mod b))) = true
  /\ digit_val (ascii_of_nat (48 + Z.to_nat (n mod b))) = (n mod b)%Z.
Proof.
  intros Hb. pose proof (Z.mod_pos_bound n b ltac:(lia)) as Hm.
  destruct (small_digit (Z.to_nat (n mod b)) ltac:(lia)) as [H1 H2].
  split; [exact H1|]. rewrite H2. lia.
Qed.

(** The digits [radix_go] writes are digits. *)
Lemma radix_go_digits b : (2 <= b <= 10)%Z -> forall fuel n acc,
  all_chars is_digit acc = true -> all_chars is_digit (radix_go fuel b n acc) = true.
Proof.
  intros Hb. induction fuel as [|fuel IH]; intros n acc Hacc; [exact Hacc|].
  cbn [radix_go]. cbv zeta.
  assert (H : all_chars is_digit
                (String (ascii_of_nat (48 + Z.to_nat (n mod b))) acc) = true).
  { cbn [all_chars]. now rewrite (proj1 (mod_digit b n Hb)), Hacc. }
  destruct (n / b =? 0)%Z; [exact H|now apply IH].
Qed.

Lemma radix_go_head b fuel n acc : (2 <= b <= 10)%Z ->
  exists c r, radix_go (S fuel) b n acc = String c r /\ is_digit c = true.
Proof.
  intros Hb. revert n acc. induction fuel as [|fuel IH]; intros n acc.
  - cbn [radix_go]. cbv zeta. destruct (n / b =? 0)%Z;
      do 2 eexists; (split; [reflexivity|apply (mod_digit b n Hb)]).
  - change (radix_go (S (S fuel)) b n acc)
      with (let acc' := String (ascii_of_nat (48 + Z.to_nat (n mod b))) acc in
            if (n / b =? 0)%Z then acc' else radix_go (S fuel) b (n / b) acc').
    cbv zeta. destruct (n / b =? 0)%Z; [|apply IH].
    do 2 eexists. split; [reflexivity|apply (mod_digit b n Hb)].
Qed.

(** Reading back what [radix_go] wrote in base ten. *)
Lemma digits_of_radix fuel : forall n rest,
  (0 <= n < 10 ^ Z.of_nat (S fuel))%Z ->
  exists k : nat, forall a seen,
    digits_go a seen (radix_go (S fuel) 10 n rest)
    = digits_go (a * 10 ^ Z.of_nat k + n)%Z true rest.
Proof.
  induction fuel as [|fuel IH]; intros n rest Hn.
  - exists 1%nat. intros a seen. cbn [radix_go]. cbv zeta.
    assert (E : radix_go 0 10 (n / 10) (String (ascii_of_nat (48 + Z.to_nat (n mod 10))) rest)
                = String (ascii_of_nat (48 + Z.to_nat (n mod 10))) rest) by reflexivity.
    destruct (n / 10 =? 0)%Z; rewrite ?E; cbn [digits_go];
      destruct (mod_digit 10 n ltac:(lia)) as [H1 H2]; rewrite H1, H2;
      f_equal; change (Z.of_nat 1) with 1%Z in *; rewrite Z.mod_small by lia; lia.
  - change (radix_go (S (S fuel)) 10 n rest)
      with (let acc' := String (ascii_of_nat (48 + Z.to_nat (n mod 10))) rest in
            if (n / 10 =? 0)%Z then acc' else radix_go (S fuel) 10 (n / 10) acc').
    cbv zeta. destruct (n / 10 =? 0)%Z eqn:E.
    + apply Z.eqb_eq in E. exists 1%nat. intros a seen. cbn [digits_go].
      destruct (mod_digit 10 n ltac:(lia)) as [H1 H2]. rewrite H1, H2. f_equal.
      pose proof (Z.div_mod n 10 ltac:(lia)). change (Z.of_nat 1) with 1%Z. lia.
    + apply Z.eqb_neq in E.
      destruct (IH (n / 10)%Z (String (ascii_of_nat (48 + Z.to_nat (n mod 10))) rest))
        as [k Hk].
      { split; [apply Z.div_pos; lia|].
        apply Z.div_lt_upper_bound; [lia|].
        replace (Z.of_nat (S (S fuel))) with (Z.succ (Z.of_nat (S fuel))) in Hn by lia.
        rewrite Z.pow_succ_r in Hn by lia. lia. }
      exists (S k). intros a seen. rewrite Hk. cbn [digits_go].
      destruct (mod_digit 10 n ltac:(lia)) as [H1 H2]. rewrite H1, H2. f_equal.
      pose proof (Z.div_mod n 10 ltac:(lia)) as Hdm.
      replace (Z.of_nat (S k)) with (Z.succ (Z.of_nat k)) by lia.
      rewrite Z.pow_succ_r by lia. lia.
Qed.

Lemma fuel_is_enough n : (0 <= n)%Z -> (n < 10 ^ Z.of_nat (S (Z.to_nat (Z.log2 n))))%Z.
Proof.
  intros Hn. destruct (Z.eq_dec n 0%Z) as [->|Hne]; [reflexivity|].
  pose proof (Z.log2_spec n ltac:(lia)) as [_ Hlt].
  pose proof (Z.log2_nonneg n) as Hl.
  replace (Z.of_nat (S (Z.to_nat (Z.log2 n)))) with (Z.succ (Z.log2 n)) by lia.
  eapply Z.lt_le_trans; [exact Hlt|].
  apply Z.pow_le_mono_l. lia.
Qed.

(** [to_string] of a number that is not negative: digits, read back as
    the number. *)
Lemma to_string_nonneg n : (0 <= n)%Z ->
  to_string n = radix_go (S (Z.to_nat (Z.log2 n))) 10 n "".
Proof.
  intros Hn. unfold to_string, to_radix.
  now rewrite (proj2 (Z.ltb_ge n 0) Hn).
Qed.

Lemma digits_of_to_string n : (0 <= n)%Z ->
  digits_go 0 false (to_string n) = (Some n, "").
Proof.
  intros Hn. rewrite (to_string_nonneg n Hn).
  destruct (digits_of_radix _ n "" (conj Hn (fuel_is_enough n Hn))) as [k Hk].
  rewrite Hk. cbn [digits_go]. f_equal.
Qed.

Lemma to_string_head n : (0 <= n)%Z ->
  exists c r, to_string n = String c r /\ is_digit c = true.
Proof.
  intros Hn. rewrite (to_string_nonneg n Hn). apply radix_go_head. lia.
Qed.

Lemma to_string_neg n : (n < 0)%Z -> to_string n = String "-" (to_string (- n)).
Proof.
  intros Hn. unfold to_string, to_radix.
  rewrite (proj2 (Z.ltb_lt n 0) Hn).
  now rewrite (proj2 (Z.ltb_ge (- n) 0)) by lia.
Qed.

Lemma digit_is_no_sign c : is_digit c = true -> c <> "-"%char /\ c <> "+"%char.
Proof.
  destruct c as [[] [] [] [] [] [] [] []]; cbv; intros H; try discriminate;
    split; discriminate.
Qed.

(** [parseInt] and [|0] applied to what [String(n)] wrote. *)
Lemma parseInt_to_string n : parseInt (to_string n) = Int n.
Proof.
  unfold parseInt. destruct (Z.ltb_spec n 0) as [Hn|Hn].
  - rewrite (to_string_neg n Hn). rewrite digits_of_to_string by lia.
    f_equal. lia.
  - destruct (to_string_head n Hn) as (c & r & E & Hc).
    pose proof (digits_of_to_string n Hn) as Hd. rewrite E in *.
    destruct (digit_is_no_sign c Hc) as [N1 N2].
    replace (match String c r with
             | String "-" s' => (true, s')
             | String "+" s' => (false, s')
             | _ => (false, String c r)
             end) with (false, String c r).
    + now rewrite Hd.
    + destruct c as [[] [] [] [] [] [] [] []]; try reflexivity; congruence.
Qed.

Lemma string_or0_to_string n : string_or0 (to_string n) = to_int32 n.
Proof.
  unfold string_or0. destruct (Z.ltb_spec n 0) as [Hn|Hn].
  - rewrite (to_string_neg n Hn). rewrite digits_of_to_string by lia.
    f_equal. lia.
  - destruct (to_string_head n Hn) as (c & r & E & Hc).
    pose proof (digits_of_to_string n Hn) as Hd. rewrite E in *.
    destruct (digit_is_no_sign c Hc) as [N1 N2].
    replace (match String c r with
             | String "-" s' => (true, s')
             | String "+" s' => (false, s')
             | _ => (false, String c r)
             end) with (false, String c r).
    + now rewrite Hd.
    + destruct c as [[] [] [] [] [] [] [] []]; try reflexivity; congruence.
Qed.

Lemma to_int32_range z : (- 2147483648 <= to_int32 z < 2147483648)%Z.
Proof. unfold to_int32. pose proof (Z.mod_pos_bound (z + 2147483648) 4294967296). lia. Qed.

Lemma to_int32_small z : (- 2147483648 <= z < 2147483648)%Z -> to_int32 z = z.
Proof. intros H. unfold to_int32. rewrite Z.mod_small by lia. lia. Qed.

Lemma to_int32_idem z : to_int32 (to_int32 z) = to_int32 z.
Proof. apply to_int32_small, to_int32_range. Qed.

Lemma to_radix_numeric b n : (2 <= b <= 10)%Z -> all_chars is_numeric (to_radix b n) = true.
Proof.
  intros Hb. unfold to_radix.
  assert (H : forall f m, all_chars is_numeric (radix_go f b m "") = true).
  { intros f m. apply (all_chars_impl is_digit).
    - intros c Hc. unfold is_numeric. now rewrite Hc.
    - now apply radix_go_digits. }
  destruct (n <? 0)%Z; [|apply H]. rewrite app_cons, app_empty. cbn [all_chars].
  now rewrite H.
Qed.

End NumFacts.

Module JsonFacts.
Import JS Json Notions StringFacts.

Lemma decode_char c acc rest :
  decode_go (DIn acc) (escape_char c +:+ rest) = decode_go (DIn (String c acc)) rest.
Proof. destruct c as [[] [] [] [] [] [] [] []]; reflexivity. Qed.

Lemma decode_escape s : forall acc rest,
  decode_go (DIn acc) (escape s +:+ rest) = decode_go (DIn (String.rev_app s acc)) rest.
Proof.
  induction s as [|c s IH]; intros acc rest; [reflexivity|].
  cbn [escape String.rev_app]. rewrite str_app_assoc, decode_char. apply IH.
Qed.

(** [JSON.parse(JSON.stringify(s))] is [s]. *)
Lemma parse_stringify s : Json.parse (stringify s) = Ok s.
Proof.
  unfold Json.parse, stringify.
  change (decode_go DBefore (String dquote (escape s +:+ String dquote "")))
    with (decode_go (DIn "") (escape s +:+ String dquote "")).
  rewrite decode_escape.
  change (decode_go (DIn (String.rev_app s "")) (String dquote ""))
    with (Some (String.rev (String.rev_app s ""))).
  now rewrite rev_push.
Qed.

(** [JSON.parse] takes a value of any kind between blanks ... *)
Example valid_json_texts :
  forallb valid
    ["{}"; "[]"; " 0 "; "-12.50"; "1e5"; "0.5E-3"; "true"; "null";
     "[1,[2,{}],false]"; "[ ]"; stringify "a\b";
     "{" +:+ stringify "files" +:+ ": 3, " +:+ stringify "skipped" +:+ ":[{}]}"]
  = true.
Proof. vm_compute; reflexivity. Qed.

(** ... and nothing else. *)
Example invalid_json_texts :
  existsb valid
    [""; " "; "OK"; "01"; "1."; "-"; "+1"; ".5"; "1e"; "[1,]"; "{,}"; "[";
     "]"; "1 2"; "tru"; "nulll"; "{1:2}"; "[1}"; "0x10";
     "{" +:+ stringify "a" +:+ "}"; String dquote "a"]
  = false.
Proof. vm_compute; reflexivity. Qed.

(** A STATUS line is read when its statistics are JSON, and throws when
    they are not, as a line without statistics. *)
Example parse_status_lines :
  BackupLog.parse "V2 STATUS OK {}" = Ok (BackupLog.Status (Some "OK") "{}")
  /\ BackupLog.parse "V2 STATUS OK" = Throw SyntaxError
  /\ BackupLog.parse "V2 STATUS" = Throw SyntaxError
  /\ BackupLog.parse "V2 STATUS OK files" = Throw SyntaxError.
Proof. repeat split; vm_compute; reflexivity. Qed.

End JsonFacts.

(** ** u8pipe.ts: what one read delivers *)

Module U8PipeReadFacts.
Import U8 U8Pipe.

Lemma shift_nonempty_some q block q' :
  shift_nonempty q = (Some block, q') ->
  concat q = block ++ concat q' /\ 0 < length block.
Proof.
  induction q as [|c q IH]; cbn [shift_nonempty]; [discriminate|].
  destruct (Nat.eqb (length c) 0) eqn:E.
  - apply Nat.eqb_eq in E. destruct c; [|discriminate]. exact IH.
  - apply Nat.eqb_neq in E. intros [= <- <-]. split; [reflexivity|lia].
Qed.

Lemma shift_nonempty_none q q' :
  shift_nonempty q = (None, q') -> concat q = [] /\ q' = [].
Proof.
  induction q as [|c q IH]; cbn [shift_nonempty]; [intros [= <-]; auto|].
  destruct (Nat.eqb (length c) 0) eqn:E; [|discriminate].
  apply Nat.eqb_eq in E. destruct c; [|discriminate]. exact IH.
Qed.

Lemma length_set p c offset :
  offset + length c <= length p -> length (set p c offset) = length p.
Proof.
  intros H. unfold set. rewrite !length_app, length_take, length_drop. lia.
Qed.

Lemma take_set p c offset :
  offset <= length p -> take (offset + length c) (set p c offset) = take offset p ++ c.
Proof.
  intros H. unfold set. rewrite app_assoc.
  apply take_app_length'. rewrite length_app, length_take. lia.
Qed.

Lemma drop_set p c offset n :
  offset + length c <= length p -> offset + length c <= n ->
  drop n (set p c offset) = drop n p.
Proof.
  intros H Hn. unfold set. rewrite app_assoc.
  rewrite drop_app_ge by (rewrite length_app, length_take; lia).
  rewrite length_app, length_take, drop_drop. f_equal. lia.
Qed.

(** What the copy loop of [read] does, for any queue. *)
Lemma fill_spec q : forall block p offset out,
  offset <= length p ->
  exists taken,
    let f := fill block q p offset out in
    f_offset f = offset + length taken
    /\ f_out f = out + length taken
    /\ f_offset f <= length p
    /\ f_buf f = take offset p ++ taken ++ drop (offset + length taken) p
    /\ ((block ++ concat q = taken /\ f_queue f = [])
        \/ (block ++ concat q = taken ++ f_block f ++ concat (f_queue f)
            /\ length p - f_offset f < length (f_block f))).
Proof.
  induction q as [|c q IH]; intros block p offset out Hoff.
  - cbn [fill]. destruct (Nat.leb (length block) (length p - offset)) eqn:E.
    + apply Nat.leb_le in E. exists block. cbn.
      repeat split; try lia. left. now rewrite app_nil_r.
    + apply Nat.leb_gt in E. exists []. cbn.
      rewrite !Nat.add_0_r, take_drop. repeat split; try lia. right.
      split; [now rewrite app_nil_r|lia].
  - cbn [fill]. destruct (Nat.leb (length block) (length p - offset)) eqn:E.
    + apply Nat.leb_le in E.
      assert (Hlen : length (set p block offset) = length p) by (apply length_set; lia).
      destruct (IH c (set p block offset) (offset + length block) (out + length block))
        as (taken & H1 & H2 & H3 & H4 & H5); [lia|].
      exists (block ++ taken). cbv zeta in *.
      rewrite length_app. repeat split; try lia.
      * rewrite H4, take_set by lia. rewrite drop_set by lia.
        rewrite <- !app_assoc, Nat.add_assoc. reflexivity.
      * cbn [concat]. destruct H5 as [[H5 H6]|[H5 H6]].
        -- left. split; [|exact H6]. now rewrite <- H5, app_assoc.
        -- right. split; [|lia]. rewrite <- app_assoc. f_equal. exact H5.
    + apply Nat.leb_gt in E. exists []. cbn [f_offset f_out f_buf f_queue f_block length app].
      rewrite !Nat.add_0_r, take_drop. repeat split; try lia. right.
      split; [reflexivity|lia].
Qed.

(** X1.  What [read] hands out is the head of the stream: the count is at
    most the size of the buffer, the buffer keeps its size, its first
    [n] bytes are the next [n] bytes of the queue, and the count of
    bytes out goes up by [n].  What stays queued is a tail of the rest,
    after a stretch [lost] that is in neither place. *)
Theorem read_delivers_the_head_of_the_stream (p : bytes) (s s' : pipe)
    (n : nat) (p' : bytes) :
  read p s = (Count n, p', s') ->
  n <= length p
  /\ length p' = length p
  /\ n <= length (concat (chunks s))
  /\ take n p' = take n (concat (chunks s))
  /\ totBytesOut s' = totBytesOut s + n
  /\ totBytesIn s' = totBytesIn s
  /\ eof s' = eof s
  /\ exists lost, drop n (concat (chunks s)) = lost ++ concat (chunks s').
Proof.
  unfold read.
  assert (Hmain :
    match shift_nonempty (chunks s) with
    | (Some block, q) =>
      let f := fill block q p 0 (totBytesOut s) in
      if Nat.ltb 0 (f_offset f) then
        (Count (f_offset f), f_buf f,
         {| chunks := f_queue f; totBytesIn := totBytesIn s;
            totBytesOut := f_out f; eof := eof s;
            mismatch_logged := mismatch_logged s |})
      else
        let blk := f_block f in
        let p' := set (f_buf f) (slice_to blk (length p)) 0 in
        (Count (length p), p',
         {| chunks := slice_from blk (length p) :: f_queue f;
            totBytesIn := totBytesIn s;
            totBytesOut := f_out f + length p; eof := eof s;
            mismatch_logged := mismatch_logged s |})
    | (None, q) =>
      (Null, p,
       {| chunks := q; totBytesIn := totBytesIn s;
          totBytesOut := totBytesOut s; eof := eof s;
          mismatch_logged :=
            mismatch_logged s || negb (Nat.eqb (totBytesIn s) (totBytesOut s)) |})
    end = (Count n, p', s') ->
    n <= length p
    /\ length p' = length p
    /\ n <= length (concat (chunks s))
    /\ take n p' = take n (concat (chunks s))
    /\ totBytesOut s' = totBytesOut s + n
    /\ totBytesIn s' = totBytesIn s
    /\ eof s' = eof s
    /\ exists lost, drop n (concat (chunks s)) = lost ++ concat (chunks s')).
  { destruct (shift_nonempty (chunks s)) as [[block|] q] eqn:Hs; [|discriminate].
    apply shift_nonempty_some in Hs as [Hcat Hpos].
    destruct (fill_spec q block p 0 (totBytesOut s)) as (taken & H1 & H2 & H3 & H4 & H5);
      [lia|].
    cbv zeta in *. rewrite take_0, app_nil_l, Nat.add_0_l in H4.
    rewrite Nat.add_0_l in H1.
    destruct (Nat.ltb 0 _) eqn:E.
    - intros [= <- <- <-]. cbn [chunks totBytesOut totBytesIn eof].
      rewrite H4, H1, H2. rewrite Hcat.
      assert (Hl : length (taken ++ drop (length taken) p) = length p).
      { rewrite length_app, length_drop. lia. }
      assert (Ht : take (length taken) (taken ++ drop (length taken) p) = taken)
        by (now apply take_app_length').
      destruct H5 as [[H5 H6]|[H5 H6]].
      + rewrite H5, H6. repeat split; try lia; try exact Ht.
        * now rewrite firstn_all.
        * exists []. now rewrite drop_all.
      + rewrite H5. repeat split; try lia.
        * rewrite length_app. lia.
        * rewrite Ht. symmetry. now apply take_app_length'.
        * exists (f_block (fill block q p 0 (totBytesOut s))).
          rewrite drop_app_length'; [|reflexivity]. reflexivity.
    - apply Nat.ltb_ge in E.
      assert (Ht : taken = []) by (destruct taken; [reflexivity|cbn in H1; lia]).
      subst taken. cbn [length app] in *. rewrite drop_0 in H4. rewrite Nat.add_0_r in H2.
      destruct H5 as [[H5 _]|[H5 H6]].
      { destruct block; [cbn in Hpos; lia|discriminate]. }
      rewrite H1, Nat.sub_0_r in H6. cbn [app] in H5.
      intros [= <- <- <-]. cbn [chunks totBytesOut totBytesIn eof].
      rewrite H4, H2, Hcat, H5. unfold set, slice_to, slice_from.
      rewrite take_0, app_nil_l, Nat.add_0_l, length_take.
      rewrite (Nat.min_l (length p)) by lia.
      rewrite drop_all, app_nil_r. cbn [concat].
      repeat split; try lia.
      + rewrite length_take. lia.
      + rewrite length_app. lia.
      + rewrite take_take, Nat.min_id. rewrite take_app_le by lia. reflexivity.
      + exists []. rewrite drop_app_le by lia. reflexivity. }
  destruct (chunks s) as [|c q0] eqn:Hc; [destruct (eof s); [|discriminate]|];
    exact Hmain.
Qed.

Lemma read_delivers_witness :
  let p := [x00; x00] in
  let s := Pipe [[x01]; [x02; x03; x04]; [x05]] 5 0 false false in
  let s' := Pipe [[x05]] 5 1 false false in
  1 <= length p
  /\ length [x01; x00] = length p
  /\ 1 <= length (concat (chunks s))
  /\ take 1 [x01; x00] = take 1 (concat (chunks s))
  /\ totBytesOut s' = totBytesOut s + 1
  /\ totBytesIn s' = totBytesIn s
  /\ eof s' = eof s
  /\ exists lost, drop 1 (concat (chunks s)) = lost ++ concat (chunks s').
Proof.
  intros p s s'. apply (read_delivers_the_head_of_the_stream p s s' 1 [x01; x00]).
  reflexivity.
Defined.

Lemma fill_stop block q p offset out :
  length p - offset < length block ->
  fill block q p offset out = Fill block q p offset out.
Proof.
  intros H. destruct q; cbn [fill]; now rewrite (proj2 (Nat.leb_gt _ _) H).
Qed.

(** X2.  When everything that is queued fits the buffer, one [read] hands
    all of it out and leaves the queue empty. *)
Theorem read_takes_all_that_fits (p : bytes) (s : pipe) :
  0 < length (concat (chunks s)) ->
  length (concat (chunks s)) <= length p ->
  exists p' s',
    read p s = (Count (length (concat (chunks s))), p', s')
    /\ take (length (concat (chunks s))) p' = concat (chunks s)
    /\ chunks s' = []
    /\ totBytesOut s' = totBytesOut s + length (concat (chunks s)).
Proof.
  intros Hpos Hfit. unfold read.
  destruct (shift_nonempty (chunks s)) as [[block|] q] eqn:Hs.
  2:{ apply shift_nonempty_none in Hs as [Hs _]. rewrite Hs in Hpos. cbn in Hpos. lia. }
  apply shift_nonempty_some in Hs as [Hcat Hb].
  destruct (fill_spec q block p 0 (totBytesOut s)) as (taken & H1 & H2 & H3 & H4 & H5);
    [lia|].
  cbv zeta in *. rewrite take_0, app_nil_l, Nat.add_0_l in H4. rewrite Nat.add_0_l in H1.
  destruct H5 as [[H5 H6]|[H5 H6]].
  - assert (Ht : length taken = length (concat (chunks s))) by now rewrite Hcat, H5.
    replace (match chunks s with [] => _ | _ :: _ => _ end)
      with (if Nat.ltb 0 (f_offset (fill block q p 0 (totBytesOut s))) then
              (Count (f_offset (fill block q p 0 (totBytesOut s))),
               f_buf (fill block q p 0 (totBytesOut s)),
               {| chunks := f_queue (fill block q p 0 (totBytesOut s));
                  totBytesIn := totBytesIn s;
                  totBytesOut := f_out (fill block q p 0 (totBytesOut s));
                  eof := eof s; mismatch_logged := mismatch_logged s |})
            else
              (Count (length p),
               set (f_buf (fill block q p 0 (totBytesOut s)))
                 (slice_to (f_block (fill block q p 0 (totBytesOut s))) (length p)) 0,
               {| chunks := slice_from (f_block (fill block q p 0 (totBytesOut s)))
                              (length p)
                            :: f_queue (fill block q p 0 (totBytesOut s));
                  totBytesIn := totBytesIn s;
                  totBytesOut := f_out (fill block q p 0 (totBytesOut s)) + length p;
                  eof := eof s; mismatch_logged := mismatch_logged s |}))
      by (destruct (chunks s); [cbn in Hpos; lia|reflexivity]).
    rewrite H1, (proj2 (Nat.ltb_lt 0 (length taken))) by lia.
    do 2 eexists. split; [rewrite Ht; reflexivity|].
    cbn [chunks totBytesOut]. rewrite H4, H6, H2, <- Ht. repeat split.
    rewrite Hcat, H5. now apply take_app_length'.
  - exfalso. rewrite Hcat, H5, !length_app in Hfit. lia.
Qed.

Lemma read_takes_all_witness :
  exists p' s',
    read [x00; x00; x00] (Pipe [[x01]; [x02]] 2 0 false false) = (Count 2, p', s')
    /\ take 2 p' = [x01; x02]
    /\ chunks s' = []
    /\ totBytesOut s' = 2.
Proof.
  apply (read_takes_all_that_fits [x00; x00; x00] (Pipe [[x01]; [x02]] 2 0 false false));
    cbn; lia.
Defined.

(** X3.  The chunk that [read] takes off the queue and then finds too big
    for the room that is left is gone: with a first chunk [a] that fits
    and a second chunk [b] that does not fit beside it, the read returns
    [a] alone and the queue goes on after [b]. *)
Theorem read_drops_what_does_not_fit_beside (p a b : bytes) (q : list bytes)
    (tin tout : nat) (e m : bool) :
  0 < length a -> length a <= length p -> length p - length a < length b ->
  read p (Pipe (a :: b :: q) tin tout e m)
  = (Count (length a), set p a 0, Pipe q tin (tout + length a) e m).
Proof.
  intros Ha Hfit Hb. unfold read.
  cbn [chunks eof totBytesIn totBytesOut mismatch_logged shift_nonempty].
  replace (Nat.eqb (length a) 0) with false by (symmetry; apply Nat.eqb_neq; lia).
  cbn [fill]. rewrite Nat.sub_0_r, (proj2 (Nat.leb_le _ _) Hfit).
  rewrite fill_stop by (rewrite length_set by lia; lia).
  cbn [f_offset f_buf f_queue f_out f_block]. rewrite Nat.add_0_l.
  rewrite (proj2 (Nat.ltb_lt _ _) Ha). reflexivity.
Qed.

Lemma read_drops_witness :
  read [x00; x00] (Pipe [[x01]; [x02; x03; x04]; [x05]] 5 0 false false)
  = (Count 1, [x01; x00], Pipe [[x05]] 5 1 false false).
Proof.
  apply (read_drops_what_does_not_fit_beside [x00; x00] [x01] [x02; x03; x04] [[x05]]
           5 0 false false); cbn; lia.
Defined.

(** X4.  [_read], when the chunk at the head is bigger than the buffer: the
    call reports a full buffer and takes [p.byteLength] bytes off the
    chunk, but copies one byte less; the last byte of the buffer is what
    the caller had there. *)
Theorem read_internal_split_loses_a_byte (p c : bytes) (q : list bytes)
    (tin tout : nat) (e m : bool) :
  0 < length p -> length p < length c ->
  _read p 0 (Pipe (c :: q) tin tout e m)
  = (Count (length p),
     take (length p - 1) c ++ drop (length p - 1) p,
     Pipe (drop (length p) c :: q) tin (tout + length p) e m).
Proof.
  intros Hp Hc. unfold _read.
  cbn [chunks eof totBytesIn totBytesOut mismatch_logged _read_take].
  rewrite Nat.sub_0_r. rewrite (proj2 (Nat.leb_gt _ _) Hc).
  cbn [t_need t_queue t_buf t_offset t_out].
  replace (Nat.eqb (length p) 0) with false by (symmetry; apply Nat.eqb_neq; lia).
  unfold set, slice_to, slice_from. rewrite take_0, app_nil_l, Nat.add_0_l.
  rewrite length_take, Nat.min_l by lia. reflexivity.
Qed.

Lemma read_internal_split_witness :
  _read [x00; x00] 0 (Pipe [[x01; x02; x03]] 3 0 true false)
  = (Count 2, [x01; x00], Pipe [[x03]] 3 2 true false).
Proof.
  apply (read_internal_split_loses_a_byte [x00; x00] [x01; x02; x03] [] 3 0 true false);
    cbn; lia.
Defined.

End U8PipeReadFacts.

(** ** filter.ts: what a pattern stands for *)

Module PatternFacts.
Import JS Filter Notions FilterNotions.

Lemma replace_go_skip m rep s :
  (forall c t, dotted c = true -> m (String c t) = None) ->
  all_chars dotted s = true -> replace_go m rep 0 s = s.
Proof.
  intros Hm. induction s as [|c s IH]; [reflexivity|].
  cbn [all_chars replace_go]. intros H. apply andb_true_iff in H as [Hc Hs].
  rewrite (Hm c s Hc), (IH Hs). reflexivity.
Qed.

(** The step that is to escape the dots: it puts a dot where a dot was. *)
Lemma dot_for_dot s : replace_all (one_of (Ascii.eqb ".")) "." s = s.
Proof.
  unfold replace_all. induction s as [|c s IH]; [reflexivity|].
  cbn [replace_go one_of]. destruct (Ascii.eqb "." c) eqn:E.
  - apply Ascii.eqb_eq in E. subst c. cbn. now rewrite IH.
  - now rewrite IH.
Qed.

Lemma dotted_cases c : dotted c = true ->
  c <> "*"%char /\ c <> "/"%char /\ c <> "\"%char /\ c <> "{"%char
  /\ c <> "["%char /\ c <> "+"%char
  /\ (is_dot c = true \/ (is_dot c = false /\ is_meta c = false)).
Proof.
  destruct c as [[] [] [] [] [] [] [] []]; cbv; intros H; try discriminate;
    repeat split; try discriminate; auto.
Qed.

Lemma glob_source_dotted p :
  all_chars dotted p = true -> glob_source p = String "^" p.
Proof.
  intros H. unfold glob_source, replace_all.
  rewrite (replace_go_skip starstar_slash) ; [|
    intros c t Hc; destruct (dotted_cases c Hc) as (H1 & _);
    cbn; destruct c as [[] [] [] [] [] [] [] []]; try reflexivity; congruence | exact H].
  rewrite (replace_go_skip (lit "**")); [|
    intros c t Hc; destruct (dotted_cases c Hc) as (H1 & _);
    unfold lit; cbn [String.prefix]; destruct (ascii_dec "*" c) as [E|E]; [congruence|reflexivity]
    | exact H].
  fold (replace_all (one_of (Ascii.eqb ".")) "." p). rewrite dot_for_dot.
  rewrite (replace_go_skip (one_of is_sep)); [|
    intros c t Hc; destruct (dotted_cases c Hc) as (_ & H2 & H3 & _);
    cbn [one_of]; unfold is_sep;
    destruct (Ascii.eqb_spec c "/"); [congruence|];
    destruct (Ascii.eqb_spec c "\"); [congruence|reflexivity]
    | exact H].
  rewrite (replace_go_skip (one_of (Ascii.eqb "*"))); [|
    intros c t Hc; destruct (dotted_cases c Hc) as (H1 & _);
    cbn [one_of]; destruct (Ascii.eqb_spec "*" c); [congruence|reflexivity]
    | exact H].
  rewrite (replace_go_skip (lit "{STARSTARGLOB}")); [|
    intros c t Hc; destruct (dotted_cases c Hc) as (_ & _ & _ & H4 & _);
    unfold lit; cbn [String.prefix]; destruct (ascii_dec "{" c) as [E|E]; [congruence|reflexivity]
    | exact H].
  rewrite (replace_go_skip (lit "{STARSTARGLOBSLASH}")); [|
    intros c t Hc; destruct (dotted_cases c Hc) as (_ & _ & _ & H4 & _);
    unfold lit; cbn [String.prefix]; destruct (ascii_dec "{" c) as [E|E]; [congruence|reflexivity]
    | exact H].
  reflexivity.
Qed.

Lemma dotted_eqbs c : dotted c = true ->
  Ascii.eqb c "*" = false /\ Ascii.eqb c "+" = false /\ Ascii.eqb c "[" = false
  /\ (is_dot c = false -> is_meta c = false).
Proof.
  destruct c as [[] [] [] [] [] [] [] []]; cbv; intros H; try discriminate;
    repeat split; auto.
Qed.

Lemma parse_go_atom s : forall a acc,
  all_chars dotted s = true ->
  parse_go (PAtom a) acc s = Some (rev acc ++ (a, One) :: atoms_of s).
Proof.
  induction s as [|c s IH]; intros a acc H.
  - reflexivity.
  - cbn [all_chars] in H. apply andb_true_iff in H as [Hc Hs].
    destruct (dotted_eqbs c Hc) as (E1 & E2 & E3 & E4).
    cbn [parse_go atoms_of]. rewrite E1, E2, E3. unfold atom_of.
    fold (is_dot c). destruct (is_dot c) eqn:Ed.
    + rewrite (IH _ _ Hs). cbn [rev]. now rewrite <- app_assoc.
    + rewrite (E4 eq_refl), (IH _ _ Hs). cbn [rev]. now rewrite <- app_assoc.
Qed.

Lemma parse_go_start s :
  all_chars dotted s = true -> parse_go PStart [] s = Some (atoms_of s).
Proof.
  destruct s as [|c s]; [reflexivity|]. cbn [all_chars]. intros H.
  apply andb_true_iff in H as [Hc Hs].
  destruct (dotted_eqbs c Hc) as (E1 & E2 & E3 & E4).
  cbn [parse_go atoms_of]. rewrite E1, E2, E3. unfold atom_of.
  fold (is_dot c). destruct (is_dot c) eqn:Ed; cbn [orb].
  - now rewrite (parse_go_atom _ _ _ Hs).
  - now rewrite (E4 eq_refl), (parse_go_atom _ _ _ Hs).
Qed.

Lemma match_here_atoms pat : forall s,
  match_here (atoms_of pat) s = starts_with_dotted pat s.
Proof.
  induction pat as [|c pat IH]; intros s; [reflexivity|].
  cbn [atoms_of starts_with_dotted]. unfold atom_of. cbn [match_here].
  destruct s as [|d s]; [reflexivity|]. rewrite IH.
  destruct (is_dot c); reflexivity.
Qed.

Lemma re_pattern_dotted ty p :
  all_chars dotted p = true ->
  re_pattern ty p
  = Some [MkItem ty (split is_sep (pattern_text ty p)) (atoms_of p)].
Proof.
  intros H.
  assert (Hitem : item ty p
                  = Some (MkItem ty (split is_sep (pattern_text ty p)) (atoms_of p))).
  { unfold item. rewrite (glob_source_dotted p H). unfold new_RegExp.
    now rewrite (parse_go_start p H). }
  destruct p as [|c p]; [cbn [re_pattern]; now rewrite Hitem|].
  cbn [all_chars] in H. apply andb_true_iff in H as [Hc _].
  destruct (dotted_eqbs c Hc) as (E1 & _).
  destruct c as [[] [] [] [] [] [] [] []]; try discriminate E1;
    cbn [re_pattern]; now rewrite Hitem.
Qed.

Lemma init_dotted p :
  all_chars dotted p = true ->
  _init [String "-" p]
  = Some (MkFilter (Some [MkItem (Some "-"%char) (split is_sep (String "-" p))
                            (atoms_of p)])).
Proof.
  intros H. unfold _init. cbn [re_patterns char_at String.get substr drop_str].
  rewrite (re_pattern_dotted _ _ H). reflexivity.
Qed.

Lemma ignores_one it path :
  type it = Some "-"%char ->
  ignores (MkFilter (Some [it])) path = if test (re it) path then Some it else None.
Proof.
  intros Ht. unfold ignores. cbn [filters fold_left]. unfold ignores_step.
  now rewrite Ht.
Qed.

(** X5.  A pattern of ordinary characters and dots: a path is ignored exactly
    when it starts with the text of the pattern, a dot of the pattern
    standing for any character that does not end a line. *)
Theorem dot_in_a_pattern_matches_any_character (p path : string) :
  all_chars (fun c => ordinary c || is_dot c) p = true ->
  exists it,
    _init [String "-" p] = Some (MkFilter (Some [it]))
    /\ ignores (MkFilter (Some [it])) path
       = if starts_with_dotted p path then Some it else None.
Proof.
  intros H. eexists. split; [apply (init_dotted p H)|].
  rewrite ignores_one by reflexivity. cbn [re]. unfold test.
  now rewrite match_here_atoms.
Qed.

Lemma dot_in_a_pattern_witness :
  exists it,
    _init ["-a.txt"] = Some (MkFilter (Some [it]))
    /\ ignores (MkFilter (Some [it])) "aXtxt"
       = if starts_with_dotted "a.txt" "aXtxt" then Some it else None.
Proof. apply (dot_in_a_pattern_matches_any_character "a.txt" "aXtxt"). reflexivity. Defined.

Lemma starts_with_ordinary pat : forall s,
  all_chars ordinary pat = true -> starts_with_dotted pat s = String.prefix pat s.
Proof.
  induction pat as [|c pat IH]; intros s H; [now destruct s|].
  cbn [all_chars] in H. apply andb_true_iff in H as [Hc Hs].
  destruct s as [|d s]; [reflexivity|].
  cbn [starts_with_dotted String.prefix]. rewrite (IH _ Hs).
  assert (Hd : is_dot c = false).
  { destruct c as [[] [] [] [] [] [] [] []]; try reflexivity; discriminate Hc. }
  rewrite Hd. destruct (ascii_dec c d) as [->|Hne].
  - now rewrite Ascii.eqb_refl.
  - destruct (Ascii.eqb_spec d c); [congruence|reflexivity].
Qed.

Lemma ordinary_dotted p : all_chars ordinary p = true -> all_chars dotted p = true.
Proof.
  induction p as [|c p IH]; [reflexivity|]. cbn [all_chars]. intros H.
  apply andb_true_iff in H as [Hc Hs]. rewrite (IH Hs). unfold dotted. now rewrite Hc.
Qed.

(** X6.  A pattern of ordinary characters alone is a test for a prefix: the
    paths it excludes are the paths that begin with its text, whatever
    follows. *)
Theorem literal_pattern_excludes_by_prefix (p path : string) :
  all_chars ordinary p = true ->
  exists it,
    _init [String "-" p] = Some (MkFilter (Some [it]))
    /\ ignores (MkFilter (Some [it])) path
       = if String.prefix p path then Some it else None.
Proof.
  intros H. eexists. split; [apply (init_dotted p (ordinary_dotted p H))|].
  rewrite ignores_one by reflexivity. cbn [re]. unfold test.
  now rewrite match_here_atoms, starts_with_ordinary.
Qed.

Lemma literal_pattern_witness :
  exists it,
    _init ["-build"] = Some (MkFilter (Some [it]))
    /\ ignores (MkFilter (Some [it])) "builder/x"
       = if String.prefix "build" "builder/x" then Some it else None.
Proof. apply (literal_pattern_excludes_by_prefix "build" "builder/x"). reflexivity. Defined.

Lemma test_of_empty r path : test r "" = true -> test r path = true.
Proof. intros H. apply (FilterFacts.match_here_mono r "" path H). Qed.

(** X7.  The patterns ["-*"], ["-**"] and ["-"] exclude every path: their
    expressions match the empty text, and nothing anchors the end. *)
Theorem bare_wildcards_exclude_every_path (path : string) :
  (exists flt it, _init ["-*"] = Some flt /\ ignores flt path = Some it)
  /\ (exists flt it, _init ["-**"] = Some flt /\ ignores flt path = Some it)
  /\ (exists flt it, _init ["-"] = Some flt /\ ignores flt path = Some it).
Proof.
  repeat split; eexists; eexists; (split; [vm_compute; reflexivity|]);
    rewrite ignores_one by reflexivity; cbn [re];
    rewrite test_of_empty by reflexivity; reflexivity.
Qed.

Lemma step_keeps_none str f :
  type f <> Some "-"%char -> ignores_step str None f = None.
Proof.
  intros H. unfold ignores_step. destruct (test (re f) str); [|reflexivity].
  destruct (type f) as [c|]; [|reflexivity].
  destruct c as [[] [] [] [] [] [] [] []]; try reflexivity. congruence.
Qed.

Lemma fold_keeps_none str fs :
  Forall (fun f => type f <> Some "-"%char) fs ->
  fold_left (ignores_step str) fs None = None.
Proof.
  induction 1 as [|f fs Hf _ IH]; [reflexivity|].
  cbn [fold_left]. now rewrite (step_keeps_none _ _ Hf).
Qed.

Lemma item_type ty p it : item ty p = Some it -> type it = ty.
Proof.
  unfold item. destruct (new_RegExp (glob_source p)); [|discriminate].
  now intros [= <-].
Qed.

Lemma re_pattern_types n : forall ty p its,
  (String.length p <= n)%nat ->
  re_pattern ty p = Some its -> Forall (fun it => type it = ty) its.
Proof.
  induction n as [|n IH]; intros ty p its Hn.
  - destruct p; [|cbn in Hn; lia]. cbn [re_pattern].
    destruct (item ty "") as [it|] eqn:E; [|discriminate].
    intros [= <-]. constructor; [now apply item_type in E|constructor].
  - assert (Hown : forall its0, option_map (fun it => [it]) (item ty p) = Some its0 ->
                                Forall (fun it => type it = ty) its0).
    { intros its0. destruct (item ty p) as [it|] eqn:E; [|discriminate].
      intros [= <-]. constructor; [now apply item_type in E|constructor]. }
    destruct p as [|c1 p]; [exact (Hown its)|].
    destruct (Ascii.eqb_spec c1 "*") as [->|N1].
    2:{ replace (re_pattern ty (String c1 p))
          with (option_map (fun it => [it]) (item ty (String c1 p))); [exact (Hown its)|].
        destruct c1 as [[] [] [] [] [] [] [] []]; try reflexivity. congruence. }
    destruct p as [|c2 p]; [exact (Hown its)|].
    destruct (Ascii.eqb_spec c2 "*") as [->|N2].
    2:{ replace (re_pattern ty (String "*" (String c2 p)))
          with (option_map (fun it => [it]) (item ty (String "*" (String c2 p))));
          [exact (Hown its)|].
        destruct c2 as [[] [] [] [] [] [] [] []]; try reflexivity. congruence. }
    destruct p as [|c3 rest]; [exact (Hown its)|].
    cbn [re_pattern]. destruct (is_sep c3); [|exact (Hown its)].
    destruct (re_pattern ty rest) as [sub|] eqn:Es; [|discriminate].
    destruct (item ty _) as [it|] eqn:E; [|discriminate].
    intros [= <-]. apply Forall_app. split.
    + apply (IH ty rest sub); [cbn in Hn; lia|exact Es].
    + constructor; [now apply item_type in E|constructor].
Qed.

Lemma re_patterns_types pats : forall its,
  re_patterns pats = Some its ->
  Forall (fun it => exists pat, In pat pats /\ type it = char_at pat 0) its.
Proof.
  induction pats as [|pat pats IH]; intros its.
  - intros [= <-]. constructor.
  - cbn [re_patterns].
    destruct (re_pattern _ _) as [own|] eqn:E1; [|discriminate].
    destruct (re_patterns pats) as [more|] eqn:E2; [|discriminate].
    intros [= <-]. apply Forall_app. split.
    + apply (re_pattern_types _ _ _ _ (le_n _)) in E1.
      eapply Forall_impl; [exact E1|]. intros it Ht. exists pat. split; [now left|exact Ht].
    + eapply Forall_impl; [exact (IH _ eq_refl)|].
      intros it (pat' & Hin & Ht). exists pat'. split; [now right|exact Ht].
Qed.

(** X8.  A list of patterns none of which begins with ['-'] excludes
    nothing, whatever the patterns are. *)
Theorem without_a_minus_nothing_is_excluded (pats : list string) (flt : Filter.t)
    (path : string) :
  (forall pat, In pat pats -> char_at pat 0 <> Some "-"%char) ->
  _init pats = Some flt ->
  ignores flt path = None.
Proof.
  intros Hpats. unfold _init.
  destruct (re_patterns pats) as [its|] eqn:E; [|discriminate].
  intros [= <-]. unfold ignores. cbn [filters]. apply fold_keeps_none.
  eapply Forall_impl; [exact (re_patterns_types _ _ E)|].
  intros it (pat & Hin & Ht). rewrite Ht. now apply Hpats.
Qed.

Lemma without_a_minus_witness :
  ignores (MkFilter (Some (default [] (re_patterns ["+*.txt"; "+**/src"])))) "a.bin" = None.
Proof.
  apply (without_a_minus_nothing_is_excluded ["+*.txt"; "+**/src"]).
  - intros pat [<-|[<-|[]]]; discriminate.
  - vm_compute. reflexivity.
Defined.

Lemma ordinary_no_star p :
  all_chars ordinary p = true -> includes p "*" = false.
Proof.
  induction p as [|c p IH]; [reflexivity|]. cbn [all_chars]. intros H.
  apply andb_true_iff in H as [Hc Hp]. cbn [includes String.prefix].
  rewrite (IH Hp), orb_false_r.
  destruct (ascii_dec "*" c) as [<-|]; [discriminate Hc|reflexivity].
Qed.

Lemma prefix_of_app p : forall ext, String.prefix p (p +:+ ext) = true.
Proof.
  induction p as [|c p IH]; intros ext; [now destruct ("" +:+ ext)|].
  change (String c p +:+ ext) with (String c (p +:+ ext)). cbn [String.prefix].
  destruct (ascii_dec c c); [apply IH|congruence].
Qed.

(** C9.  A pattern without wildcard is tested against the start of the
    path and against nothing else.  For every pattern text [p] of
    ordinary characters, ['-' p] holds no wildcard and compiles to one
    filter of type ['-'], and [ignores] answers with that filter exactly
    for the paths that begin with [p]: for [p] itself, for every
    strictly longer path that begins with [p], and for no path that
    holds [p] further on or only a part of it. *)
Theorem C9_patterns_match_prefixes (p : string) :
  all_chars ordinary p = true ->
  Spec.no_wildcard (String "-" p) = true
  /\ exists it,
       _init [String "-" p] = Some (MkFilter (Some [it]))
       /\ type it = Some "-"%char
       /\ (forall path,
             ignores (MkFilter (Some [it])) path
             = if String.prefix p path then Some it else None)
       /\ (forall ext, ignores (MkFilter (Some [it])) (p +:+ ext) = Some it).
Proof.
  intros H. split.
  - unfold Spec.no_wildcard. cbn [includes String.prefix].
    destruct (ascii_dec "*" "-"); [discriminate|].
    now rewrite (ordinary_no_star p H).
  - eexists. split; [apply (init_dotted p (ordinary_dotted p H))|].
    split; [reflexivity|].
    assert (Hall : forall path,
      ignores (MkFilter (Some [MkItem (Some "-"%char) (split is_sep (String "-" p))
                                 (atoms_of p)])) path
      = if String.prefix p path
        then Some (MkItem (Some "-"%char) (split is_sep (String "-" p)) (atoms_of p))
        else None).
    { intros path. rewrite ignores_one by reflexivity. cbn [re]. unfold test.
      now rewrite match_here_atoms, starts_with_ordinary. }
    split; [exact Hall|]. intros ext. now rewrite Hall, prefix_of_app.
Qed.

(** The pattern of the claim: ["-skip"] ignores ["skip"] and
    ["skipme.txt"], and neither ["ski"] nor ["a/skip"]. *)
Lemma C9_witness :
  exists it,
    _init ["-skip"] = Some (MkFilter (Some [it]))
    /\ ignores (MkFilter (Some [it])) "skip" = Some it
    /\ ignores (MkFilter (Some [it])) "skipme.txt" = Some it
    /\ ignores (MkFilter (Some [it])) "ski" = None
    /\ ignores (MkFilter (Some [it])) "a/skip" = None.
Proof.
  destruct (C9_patterns_match_prefixes "skip" eq_refl) as (_ & it & Hi & _ & Hall & _).
  exists it. split; [exact Hi|]. rewrite !Hall. repeat split.
Defined.

End PatternFacts.

(** ** backup-log.ts: names, records and the end of a log *)

Module LogFacts.
Import JS Fs BackupLog Notions StringFacts.

(* ---------- parseWhen ---------- *)

Lemma strip_clean s : all_chars (fun c => negb (is_stripped c)) (strip s) = true.
Proof.
  induction s as [|c s IH]; [reflexivity|].
  rewrite BackupLogFacts.strip_cons. destruct (is_stripped c) eqn:E; [exact IH|].
  cbn [all_chars]. now rewrite E, IH.
Qed.

Lemma strip_of_clean s :
  all_chars (fun c => negb (is_stripped c)) s = true -> strip s = s.
Proof.
  induction s as [|c s IH]; [reflexivity|]. cbn [all_chars]. intros H.
  apply andb_true_iff in H as [Hc Hs]. rewrite BackupLogFacts.strip_cons.
  apply negb_true_iff in Hc. now rewrite Hc, (IH Hs).
Qed.

(** X9.  What [parseWhen] returns holds none of the characters [-], [:] and
    [.], and [parseWhen] returns it unchanged when it is given back. *)
Theorem parseWhen_settles (when : option when_arg) (ext : string) :
  parseWhen when = Ok ext ->
  all_chars (fun c => negb (is_stripped c)) ext = true
  /\ parseWhen (Some (WStr ext)) = Ok ext.
Proof.
  assert (Hs : forall s, all_chars (fun c => negb (is_stripped c)) (strip s) = true
                         /\ parseWhen (Some (WStr (strip s))) = Ok (strip s)).
  { intros s. split; [apply strip_clean|]. cbn [parseWhen].
    destruct (_ || _); [reflexivity|]. now rewrite (strip_of_clean _ (strip_clean s)). }
  destruct when as [[s|d]|]; cbn [parseWhen].
  - destruct (String.eqb s "current") eqn:E1; cbn [orb].
    { apply String.eqb_eq in E1. subst s. intros [= <-]. split; reflexivity. }
    destruct (String.eqb s "running") eqn:E2.
    { apply String.eqb_eq in E2. subst s. intros [= <-]. split; reflexivity. }
    intros [= <-]. apply Hs.
  - destruct d as [tv|]; cbn; [|discriminate]. intros [= <-]. apply Hs.
  - intros [= <-]. split; reflexivity.
Qed.

Lemma parseWhen_settles_witness :
  all_chars (fun c => negb (is_stripped c)) "20240115T134512345Z" = true
  /\ parseWhen (Some (WStr "20240115T134512345Z")) = Ok "20240115T134512345Z".
Proof.
  apply (parseWhen_settles (Some (WStr "2024-01-15T13:45:12.345Z"))). reflexivity.
Defined.

(* ---------- finish ---------- *)

Lemma finish_closed l status w l' w' :
  finish l status w = (Ok l', w') ->
  exists h, log l' = Some h /\ opened h = true /\ closed h = true.
Proof.
  unfold finish, _log. destruct (log l) as [h|] eqn:Eh; [|discriminate].
  rewrite FsFacts.bind_ret_run, FsFacts.bind_run.
  unfold appendFile. destruct (opened h) eqn:Eo; [|discriminate]. cbn [negb].
  destruct (closed h); [discriminate|].
  destruct (append_file _ _ w) as [[[]|e|e|] w1]; try discriminate.
  rewrite FsFacts.bind_ret_run. unfold mret, M_ret. intros [= <- <-].
  eexists. split; [reflexivity|]. cbn. now rewrite Eo.
Qed.

Lemma entryToString_ends e :
  (exists line, entryToString e = Ok line) \/ (exists err, entryToString e = Throw err).
Proof.
  unfold entryToString.
  destruct (mode_text (fe_mode e)) as [md|err|err|] eqn:Em;
    try (destruct (fe_mode e); discriminate); [|right; eexists; reflexivity].
  cbn.
  destruct (time_text (fe_ctime e)) as [ct|err|err|] eqn:Ec;
    try (destruct (fe_ctime e) as [[|]|]; discriminate); [|right; eexists; reflexivity].
  cbn.
  destruct (time_text (fe_mtime e)) as [mt|err|err|] eqn:Et;
    try (destruct (fe_mtime e) as [[|]|]; discriminate); [|right; eexists; reflexivity].
  cbn. left. eexists. reflexivity.
Qed.

(** X10.  Once [finish] has returned, the log takes no more lines: writing a
    record, a SOURCE line or a second STATUS line throws, and the disk,
    the console and the trace stay as they are. *)
Theorem after_finish_nothing_is_written (l l' : BackupLog.t) (status : string)
    (w w' : World) :
  finish l status w = (Ok l', w') ->
  (forall e, exists err, writeEntry l' e w' = (Throw err, w'))
  /\ (forall r, writeSourceEntry l' r w' = (Throw BadResource, w'))
  /\ (forall st, finish l' st w' = (Throw BadResource, w')).
Proof.
  intros Hf. destruct (finish_closed _ _ _ _ _ Hf) as (h & Hl & Ho & Hc).
  assert (Ha : forall line, appendFile h line w' = (Throw BadResource, w')).
  { intros line. unfold appendFile. now rewrite Ho, Hc. }
  split; [|split].
  - intros e. unfold writeEntry, _log. rewrite Hl, FsFacts.bind_ret_run.
    rewrite FsFacts.bind_run. unfold lift.
    destruct (entryToString_ends e) as [[line ->]|[err ->]]; [|eauto].
    rewrite Ha. eauto.
  - intros r. unfold writeSourceEntry, _log. rewrite Hl, FsFacts.bind_ret_run. apply Ha.
  - intros st. unfold finish, _log. rewrite Hl, FsFacts.bind_ret_run.
    rewrite FsFacts.bind_run, Ha. reflexivity.
Qed.

Lemma after_finish_witness :
  let run := finish Scenario.running_log "OK" (Scenario.world_running Scenario.manifest1 "") in
  exists l',
    run.1 = Ok l'
    /\ writeSourceEntry l' "/src" run.2 = (Throw BadResource, run.2).
Proof.
  intros run.
  set (l' := match run.1 with Ok l' => l' | _ => Scenario.running_log end).
  assert (E : run = (Ok l', run.2)) by (vm_compute; reflexivity).
  exists l'. split; [exact (f_equal fst E)|].
  exact (proj1 (proj2 (after_finish_nothing_is_written _ _ _ _ _ E)) "/src").
Defined.

(* ---------- getLastBackup: the newest log ---------- *)

Lemma ascii_compare_lt_trans a b c :
  Ascii.compare a b = Lt -> Ascii.compare b c = Lt -> Ascii.compare a c = Lt.
Proof.
  unfold Ascii.compare. rewrite !N.compare_lt_iff. lia.
Qed.

Lemma compare_lt_trans a : forall b c,
  String.compare a b = Lt -> String.compare b c = Lt -> String.compare a c = Lt.
Proof.
  induction a as [|x a IH]; intros [|y b] [|z c]; cbn [String.compare];
    try discriminate; try reflexivity.
  destruct (Ascii.compare x y) eqn:Exy; try discriminate.
  - apply Ascii.compare_eq_iff in Exy. subst y.
    destruct (Ascii.compare x z); try discriminate; [apply IH|reflexivity].
  - intros _. destruct (Ascii.compare y z) eqn:Eyz; try discriminate.
    + apply Ascii.compare_eq_iff in Eyz. subst z. now rewrite Exy.
    + now rewrite (ascii_compare_lt_trans _ _ _ Exy Eyz).
Qed.

Lemma str_gt_lt a b : str_gt a b = true <-> String.compare b a = Lt.
Proof.
  unfold str_gt. rewrite (String.compare_antisym b a).
  destruct (String.compare a b); cbn; split; congruence.
Qed.

Lemma compare_refl a : String.compare a a = Eq.
Proof.
  induction a as [|x a IH]; [reflexivity|]. cbn [String.compare].
  unfold Ascii.compare. now rewrite N.compare_refl.
Qed.

(** [x <= m < t] gives [x <= t]. *)
Lemma not_gt_trans x m t :
  str_gt x m = false -> str_gt t m = true -> str_gt x t = false.
Proof.
  intros Hxm Htm. apply str_gt_lt in Htm.
  destruct (str_gt x t) eqn:E; [|reflexivity]. apply str_gt_lt in E.
  pose proof (compare_lt_trans _ _ _ Htm E) as Hmx. apply str_gt_lt in Hmx. congruence.
Qed.

Lemma not_gt_empty x : str_gt "" x = false.
Proof. destruct x; reflexivity. Qed.

Lemma not_gt_refl x : str_gt x x = false.
Proof. unfold str_gt. now rewrite compare_refl. Qed.

Lemma truthy_false s : truthy s = false -> s = "".
Proof. unfold truthy. destruct (String.eqb_spec s ""); [auto|discriminate]. Qed.

Lemma newest_dated prefix last e :
  newest prefix last e =
  match dated_suffix prefix e with
  | None => last
  | Some ts =>
    match last with
    | Some lb => if negb (truthy lb) || str_gt ts lb then Some ts else last
    | None => Some ts
    end
  end.
Proof.
  unfold newest, dated_suffix.
  destruct (de_isFile e && negb (String.prefix "." (name e))); [|reflexivity].
  cbn [andb]. destruct (startsWith (name e) prefix); [|reflexivity].
  destruct (_ || _); reflexivity.
Qed.

Lemma newest_step prefix es r e :
  is_greatest prefix es r -> is_greatest prefix (es ++ [e]) (newest prefix r e).
Proof.
  intros H. rewrite newest_dated.
  destruct (dated_suffix prefix e) as [ts|] eqn:Ed.
  - assert (Hnew : (forall e0 ts0, In e0 es -> dated_suffix prefix e0 = Some ts0 ->
                                  str_gt ts0 ts = false) ->
                   is_greatest prefix (es ++ [e]) (Some ts)).
    { intros Hall. split.
      - exists e. split; [apply in_or_app; right; now left|exact Ed].
      - intros e0 ts0 Hin Hd. apply in_app_or in Hin as [Hin|[<-|[]]].
        + eapply Hall; eauto.
        + rewrite Ed in Hd. injection Hd as <-. apply not_gt_refl. }
    destruct r as [m|].
    + destruct H as [(em & Hem & Hdm) Hmax].
      destruct (truthy m) eqn:Et; cbn [negb orb].
      * destruct (str_gt ts m) eqn:Eg.
        -- apply Hnew. intros e0 ts0 Hin Hd.
           exact (not_gt_trans _ _ _ (Hmax _ _ Hin Hd) Eg).
        -- split.
           ++ exists em. split; [apply in_or_app; now left|exact Hdm].
           ++ intros e0 ts0 Hin Hd. apply in_app_or in Hin as [Hin|[<-|[]]].
              ** eapply Hmax; eauto.
              ** rewrite Ed in Hd. injection Hd as <-. exact Eg.
      * apply truthy_false in Et. subst m.
        apply Hnew. intros e0 ts0 Hin Hd.
        pose proof (Hmax _ _ Hin Hd) as H0.
        destruct ts0; [apply not_gt_empty|discriminate H0].
    + apply Hnew. intros e0 ts0 Hin Hd. rewrite (H _ Hin) in Hd. discriminate.
  - destruct r as [m|].
    + destruct H as [(em & Hem & Hdm) Hmax]. split.
      * exists em. split; [apply in_or_app; now left|exact Hdm].
      * intros e0 ts0 Hin Hd. apply in_app_or in Hin as [Hin|[<-|[]]].
        -- eapply Hmax; eauto.
        -- rewrite Ed in Hd. discriminate.
    + intros e0 Hin. apply in_app_or in Hin as [Hin|[<-|[]]]; [now apply H|exact Ed].
Qed.

(** X11.  The loop of [getLastBackup] ends with the greatest suffix, in the
    order of strings, among the dated logs of the set, whatever the
    order in which the directory lists them; and with nothing when the
    set has no dated log. *)
Theorem getLastBackup_takes_the_greatest_suffix (prefix : string) (es : list DirEntry) :
  match fold_left (newest prefix) es None with
  | None => forall e, In e es -> dated_suffix prefix e = None
  | Some m =>
    (exists e, In e es /\ dated_suffix prefix e = Some m)
    /\ (forall e ts, In e es -> dated_suffix prefix e = Some ts -> str_gt ts m = false)
  end.
Proof.
  change (is_greatest prefix es (fold_left (newest prefix) es None)).
  induction es as [|e es IH] using rev_ind.
  - intros e [].
  - rewrite fold_left_app. cbn [fold_left]. now apply newest_step.
Qed.

(* ---------- complete ---------- *)

Lemma nonempty_last sn when : String.eqb (sn +:+ "." +:+ when) "" = false.
Proof. destruct sn; reflexivity. Qed.

Lemma getLogName_shape l when :
  getLogName l when
  = Path.join [root l; "backups"; userid l] +:+ "/" +:+ (setname l +:+ "." +:+ when).
Proof.
  unfold getLogName, Path.join.
  rewrite !filter_nonempty_cons, filter_nil, nonempty_last.
  change ("backups" =? "")%string with false. cbv iota.
  destruct (root l =? "")%string, (userid l =? "")%string; cbv iota;
    cbn [Path.join_go]; rewrite ?str_app_assoc; reflexivity.
Qed.

Lemma prefix_app_l s : forall pre y,
  String.prefix s pre = true -> String.prefix s (pre +:+ y) = true.
Proof.
  induction s as [|c s IH]; intros pre y; [now destruct (pre +:+ y)|].
  destruct pre as [|d pre]; [discriminate|]. rewrite app_cons. cbn [String.prefix].
  destruct (ascii_dec c d); [apply IH|discriminate].
Qed.

Lemma prefix_slash_within q : forall pre x,
  all_chars (fun c => negb (Ascii.eqb c "/")) x = true ->
  String.prefix (q +:+ "/") (pre +:+ x) = true ->
  String.prefix (q +:+ "/") pre = true.
Proof.
  assert (Hx : forall r x, all_chars (fun c => negb (Ascii.eqb c "/")) x = true ->
                 String.prefix (r +:+ "/") x = false).
  { induction r as [|c r IH]; intros x Hx.
    - rewrite app_empty. destruct x as [|d x]; [reflexivity|]. cbn [all_chars] in Hx.
      apply andb_true_iff in Hx as [Hd _]. apply negb_true_iff in Hd.
      cbn [String.prefix]. destruct (ascii_dec "/" d) as [<-|]; [discriminate Hd|reflexivity].
    - rewrite app_cons. destruct x as [|d x]; [reflexivity|]. cbn [all_chars] in Hx.
      apply andb_true_iff in Hx as [_ Hx]. cbn [String.prefix].
      destruct (ascii_dec c d); [apply IH, Hx|reflexivity]. }
  induction q as [|c q IH]; intros pre x Hfree.
  - rewrite app_empty. destruct pre as [|d pre].
    + rewrite app_empty. intros H. pose proof (Hx "" x Hfree) as Hn.
      rewrite app_empty in Hn. congruence.
    + rewrite app_cons. cbn [String.prefix].
      destruct (ascii_dec "/" d); [intros _; now destruct pre|discriminate].
  - rewrite app_cons. destruct pre as [|d pre].
    + rewrite app_empty. intros H. pose proof (Hx (String c q) x Hfree) as Hn.
      rewrite app_cons in Hn. congruence.
    + rewrite app_cons. cbn [String.prefix]. destruct (ascii_dec c d); [|discriminate].
      apply IH, Hfree.
Qed.

(** What the log of one moment lies below, the log of another moment
    lies below. *)
Lemma below_log_names l a x y :
  all_chars (fun c => negb (Ascii.eqb c "/")) x = true ->
  below a (getLogName l x) = true -> below a (getLogName l y) = true.
Proof.
  intros Hx. unfold below. rewrite !getLogName_shape, <- !str_app_assoc.
  intros H. apply prefix_app_l. exact (prefix_slash_within _ _ _ Hx H).
Qed.

Lemma getLogName_inj l a b : getLogName l a = getLogName l b -> a = b.
Proof.
  rewrite !getLogName_shape. intros H.
  do 4 apply String.app_inj in H. exact H.
Qed.

Lemma digit_is_no_letter n : Num.digit n <> "r"%char /\ Num.digit n <> "c"%char.
Proof.
  unfold Num.digit.
  assert (H : (Z.to_nat (n mod 10) < 10)%nat).
  { pose proof (Z.mod_pos_bound n 10 eq_refl). lia. }
  revert H. generalize (Z.to_nat (n mod 10)). intros k H.
  do 10 (destruct k as [|k]; [split; discriminate|]). lia.
Qed.

Lemma ext_is_dated tv :
  strip (Date.iso_of_ms tv) <> "running" /\ strip (Date.iso_of_ms tv) <> "current".
Proof.
  assert (H : exists c rest, strip (Date.iso_of_ms tv) = String c rest
                             /\ c <> "r"%char /\ c <> "c"%char).
  { unfold Date.iso_of_ms, Date.iso_year.
    destruct (_ && _).
    - unfold Date.pad4. rewrite app_cons.
      rewrite BackupLogFacts.strip_cons, BackupLogFacts.digit_not_stripped.
      do 2 eexists. split; [reflexivity|apply digit_is_no_letter].
    - destruct (_ <? 0)%Z.
      + unfold Date.pad6. rewrite !app_cons, app_empty, !app_cons.
        rewrite BackupLogFacts.strip_cons. change (is_stripped "-") with true. cbv iota.
        rewrite BackupLogFacts.strip_cons, BackupLogFacts.digit_not_stripped.
        do 2 eexists. split; [reflexivity|apply digit_is_no_letter].
      + rewrite !app_cons. rewrite BackupLogFacts.strip_cons.
        change (is_stripped "+") with false. cbv iota.
        do 2 eexists. split; [reflexivity|split; discriminate]. }
  destruct H as (c & rest & -> & H1 & H2). split; intros [= E _]; congruence.
Qed.

(** X12.  [complete(ts)] on a log whose [running] file is there, with no
    directory in the way: the file gets the name of the moment [ts], the
    [running] name is gone, and [current] is a second name for the same
    file, an older [current] having been removed.  Nothing goes to the
    console. *)
Theorem complete_renames_and_links (l : BackupLog.t) (tv : Z) (w : World)
    (m : Meta) (txt : string) :
  let dated := getLogName l (strip (Date.iso_of_ms tv)) in
  disk w !! getLogName l "running" = Some (File m txt) ->
  (forall m' sz, disk w !! dated <> Some (Dir m' sz)) ->
  (forall m' sz, disk w !! getLogName l "current" <> Some (Dir m' sz)) ->
  exists w',
    complete l (Date.Ms tv) w = (Ok tt, w')
    /\ disk w' = <[getLogName l "current" := File m txt]>
                   (<[dated := File m txt]> (delete (getLogName l "running") (disk w)))
    /\ disk w' !! getLogName l "running" = None
    /\ disk w' !! dated = Some (File m txt)
    /\ disk w' !! getLogName l "current" = Some (File m txt)
    /\ console w' = console w.
Proof.
  intros dated Hrun _ _. set (n := File m txt) in *.
  destruct (ext_is_dated tv) as [Nr Nc].
  assert (Hdr : dated <> getLogName l "running")
    by (intros E; apply getLogName_inj in E; contradiction).
  assert (Hdc : dated <> getLogName l "current")
    by (intros E; apply getLogName_inj in E; contradiction).
  assert (Hrc : getLogName l "running" <> getLogName l "current")
    by (intros E; apply getLogName_inj in E; discriminate).
  set (d1 := <[dated := n]> (delete (getLogName l "running") (disk w))).
  assert (Hd : exists w',
    complete l (Date.Ms tv) w = (Ok tt, w')
    /\ disk w' = <[getLogName l "current" := n]> d1 /\ console w' = console w).
  { unfold complete.
    change (parseWhen (Some (WDate (Date.Ms tv))))
      with (@Ok string (strip (Date.iso_of_ms tv))).
    rewrite FsFacts.bind_run. unfold lift. cbv beta iota. fold dated.
    rewrite FsFacts.bind_run. unfold move. rewrite Hrun.
    rewrite FsFacts.bind_run, FsFacts.emit_run.
    rewrite FsFacts.bind_run, FsFacts.emit_run. unfold set_disk.
    cbn [disk console trace clock stats]. fold d1.
    rewrite FsFacts.bind_run.
    unfold Fs.exists_. rewrite FsFacts.std_exists_run. cbn [disk].
    assert (Hto : forall d, d !! getLogName l "current" = None -> d !! dated = Some n ->
      forall c t k s,
        try_catch (link dated (getLogName l "current"))
          (fun e => if includes (default "" (e_message e)) "(os error 1)"
                    then copy dated (getLogName l "current") else throw e)
          (MkWorld d c t k s)
        = (Ok tt, MkWorld (<[getLogName l "current" := n]> d) c
                    (t ++ [EvWrite (getLogName l "current")]) k s)).
    { intros d Hc Ht c t k s. unfold try_catch, link. cbn [disk]. rewrite Ht, Hc.
      rewrite FsFacts.bind_run, FsFacts.emit_run. reflexivity. }
    destruct (d1 !! getLogName l "current") as [old|] eqn:Hold.
    - rewrite FsFacts.bind_run. unfold unlink. cbn [disk]. rewrite Hold.
      rewrite FsFacts.bind_run, FsFacts.emit_run. unfold set_disk.
      cbn [disk console trace clock stats].
      rewrite Hto.
      + eexists. split; [reflexivity|]. cbn [disk console].
        split; [apply insert_delete_eq|reflexivity].
      + apply lookup_delete_eq.
      + rewrite lookup_delete_ne by congruence. unfold d1. apply lookup_insert_eq.
    - rewrite (FsFacts.below_a_file_beside d1 _ dated).
      + rewrite FsFacts.bind_ret_run. rewrite Hto.
        * eexists. split; [reflexivity|]. cbn [disk console]. split; reflexivity.
        * exact Hold.
        * unfold d1. apply lookup_insert_eq.
      + unfold d1. rewrite lookup_insert_eq. eauto.
      + intros a. now apply below_log_names. }
  destruct Hd as (w' & Hc & Hdisk & Hcons). exists w'.
  split; [exact Hc|]. split; [exact Hdisk|]. rewrite Hdisk. unfold d1.
  split; [|split; [|split]].
  - rewrite lookup_insert_ne by congruence. rewrite lookup_insert_ne by congruence.
    apply lookup_delete_eq.
  - rewrite lookup_insert_ne by congruence. apply lookup_insert_eq.
  - apply lookup_insert_eq.
  - exact Hcons.
Qed.

Lemma complete_renames_witness :
  let w := Scenario.world_running Scenario.manifest1 "" in
  let l := Scenario.running_log in
  exists w',
    complete l (Date.Ms 0) w = (Ok tt, w')
    /\ disk w' !! getLogName l "running" = None
    /\ disk w' !! getLogName l "current" = disk w !! getLogName l "running"
    /\ console w' = console w.
Proof.
  intros w l.
  assert (E : disk w !! getLogName l "running"
              = Some (File (Scenario.fresh Scenario.t_run2 384) Scenario.header_line))
    by (vm_compute; reflexivity).
  destruct (complete_renames_and_links l 0 w _ _ E) as (w' & H1 & _ & H3 & _ & H5 & H6).
  - intros m' sz. vm_compute. discriminate.
  - intros m' sz. vm_compute. discriminate.
  - exists w'. split; [exact H1|]. split; [exact H3|]. split; [now rewrite E|exact H6].
Defined.

End LogFacts.

Module RecordFacts.
Import JS Fs BackupLog Notions StringFacts NumFacts JsonFacts.

Lemma numeric_plain c : Num.is_digit c || Ascii.eqb c "-" = true -> plain_word c = true.
Proof. destruct c as [[] [] [] [] [] [] [] []]; cbv; congruence. Qed.

Lemma to_string_plain z : all_chars plain_word (Num.to_string z) = true.
Proof.
  apply (all_chars_impl is_numeric); [exact numeric_plain|].
  apply to_radix_numeric. lia.
Qed.

Lemma to_octal_plain z : all_chars plain_word (Num.to_octal z) = true.
Proof.
  apply (all_chars_impl is_numeric); [exact numeric_plain|].
  apply to_radix_numeric. lia.
Qed.

Lemma plain_no_space s :
  all_chars plain_word s = true -> all_chars (fun c => negb (is_space c)) s = true.
Proof.
  apply all_chars_impl. intros c H. unfold plain_word in H.
  now apply andb_true_iff in H as [H _].
Qed.

Lemma plain_no_colon s :
  all_chars plain_word s = true -> all_chars (fun c => negb (is_colon c)) s = true.
Proof.
  apply all_chars_impl. intros c H. unfold plain_word in H.
  now apply andb_true_iff in H as [_ H].
Qed.

Lemma to_string_nonempty z : Num.to_string z <> "".
Proof.
  destruct (Z.ltb_spec z 0) as [Hn|Hn].
  - rewrite (to_string_neg z Hn). discriminate.
  - destruct (to_string_head z Hn) as (c & r & -> & _). discriminate.
Qed.

(** The text of a walker's value, and what [v && (v|0)] reads from it. *)
Lemma value_text_plain v :
  walker_value v = true -> all_chars plain_word (value_text v) = true.
Proof.
  destruct v as [z|s|]; cbn [walker_value value_text]; [intros _|intros H|discriminate].
  - apply to_string_plain.
  - apply String.eqb_eq in H. now subst s.
Qed.

Lemma and_or0_value_text v :
  walker_value v = true -> and_or0 (Some (value_text v)) = read_value v.
Proof.
  destruct v as [z|s|]; cbn [walker_value value_text read_value]; [intros _|intros H|discriminate].
  - unfold and_or0. destruct (Num.to_string z) eqn:E; [now apply to_string_nonempty in E|].
    rewrite <- E. now rewrite string_or0_to_string.
  - apply String.eqb_eq in H. now subst s.
Qed.

Lemma mode_text_plain v :
  walker_value v = true ->
  exists md, mode_text v = Ok md /\ all_chars plain_word md = true
             /\ read_mode v = VStr md.
Proof.
  destruct v as [z|s|]; cbn [walker_value mode_text read_mode]; [intros _|intros H|discriminate].
  - eexists. split; [reflexivity|]. split; [apply to_octal_plain|reflexivity].
  - apply String.eqb_eq in H. subst s. eexists. repeat split.
Qed.

Lemma digit_no_space n : is_space (Num.digit n) = false.
Proof.
  unfold Num.digit.
  assert (H : (Z.to_nat (n mod 10) < 10)%nat).
  { pose proof (Z.mod_pos_bound n 10 eq_refl). lia. }
  revert H. generalize (Z.to_nat (n mod 10)). intros k H.
  do 10 (destruct k as [|k]; [reflexivity|]). lia.
Qed.

Lemma pad2_no_space n : all_chars (fun c => negb (is_space c)) (Date.pad2 n) = true.
Proof. unfold Date.pad2. cbn [all_chars]. now rewrite !digit_no_space. Qed.

Lemma pad3_no_space n : all_chars (fun c => negb (is_space c)) (Date.pad3 n) = true.
Proof. unfold Date.pad3. cbn [all_chars]. now rewrite digit_no_space, pad2_no_space. Qed.

Lemma pad4_no_space n : all_chars (fun c => negb (is_space c)) (Date.pad4 n) = true.
Proof. unfold Date.pad4. cbn [all_chars]. now rewrite digit_no_space, pad3_no_space. Qed.

Lemma iso_year_no_space y : all_chars (fun c => negb (is_space c)) (Date.iso_year y) = true.
Proof.
  unfold Date.iso_year, Date.pad6.
  destruct (_ && _); [apply pad4_no_space|].
  destruct (_ <? 0)%Z; rewrite app_cons, app_empty; cbn [all_chars];
    now rewrite !digit_no_space, pad4_no_space.
Qed.

Lemma iso_no_space tv : all_chars (fun c => negb (is_space c)) (Date.iso_of_ms tv) = true.
Proof.
  unfold Date.iso_of_ms. cbv zeta.
  rewrite !all_chars_app, iso_year_no_space, !pad2_no_space, pad3_no_space. reflexivity.
Qed.

Lemma time_text_no_space t :
  walker_time t = true ->
  exists tx, time_text t = Ok tx /\ all_chars (fun c => negb (is_space c)) tx = true
             /\ read_time t = TStr tx.
Proof.
  destruct t as [[tv|]|s]; cbn [walker_time time_text read_time Date.toISOString];
    [intros _| discriminate |intros H].
  - eexists. split; [reflexivity|]. split; [apply iso_no_space|reflexivity].
  - apply String.eqb_eq in H. subst s. eexists. repeat split.
Qed.

End RecordFacts.

Module RecordRoundTrip.
Import JS Fs BackupLog Notions StringFacts NumFacts JsonFacts RecordFacts.

Lemma parse_line k U G M C Mt S H J p :
  all_chars plain_word U = true -> all_chars plain_word G = true ->
  all_chars plain_word M = true ->
  all_chars (fun c => negb (is_space c)) C = true ->
  all_chars (fun c => negb (is_space c)) Mt = true ->
  all_chars plain_word S = true ->
  all_chars (fun c => negb (is_space c)) H = true ->
  Json.parse J = Ok p ->
  parse (kind_text k +:+ " " +:+ U +:+ ":" +:+ G +:+ ":" +:+ M +:+ " " +:+ C
         +:+ " " +:+ Mt +:+ " - " +:+ S +:+ " " +:+ H +:+ " 0 " +:+ J)
  = Ok (Entry {| fe_type := k;
                 fe_mode := VStr M;
                 fe_uid := and_or0 (Some U);
                 fe_gid := and_or0 (Some G);
                 fe_ctime := TStr C;
                 fe_mtime := TStr Mt;
                 fe_size := match k with KD => 0%Z | KF => Num.string_or0 S end;
                 fe_hash := H;
                 fe_path := p |}).
Proof.
  intros HU HG HM HC HMt HS HH HJ.
  set (W1 := U +:+ ":" +:+ G +:+ ":" +:+ M).
  assert (HW1 : all_chars (fun c => negb (is_space c)) W1 = true).
  { unfold W1. rewrite !all_chars_app.
    now rewrite (plain_no_space _ HU), (plain_no_space _ HG), (plain_no_space _ HM). }
  assert (Hmode : split is_colon W1 = [U; G; M]).
  { unfold W1. change (":" +:+ G +:+ ":" +:+ M) with (String ":" (G +:+ String ":" M)).
    rewrite split_word by (auto using plain_no_colon).
    rewrite split_word by (auto using plain_no_colon).
    now rewrite split_last by (auto using plain_no_colon). }
  assert (E : kind_text k +:+ " " +:+ U +:+ ":" +:+ G +:+ ":" +:+ M +:+ " " +:+ C
              +:+ " " +:+ Mt +:+ " - " +:+ S +:+ " " +:+ H +:+ " 0 " +:+ J
              = kind_text k +:+ String " " (W1 +:+ String " " (C +:+ String " "
                  (Mt +:+ String " " ("-" +:+ String " " (S +:+ String " "
                  (H +:+ String " " ("0" +:+ String " " J)))))))).
  { unfold W1. rewrite !str_app_assoc. reflexivity. }
  rewrite E. clear E. unfold parse.
  assert (Hk : all_chars (fun c => negb (is_space c)) (kind_text k) = true)
    by (destruct k; reflexivity).
  rewrite (split_word is_space (kind_text k)) by auto.
  rewrite (split_word is_space W1) by auto.
  rewrite (split_word is_space C) by auto.
  rewrite (split_word is_space Mt) by auto.
  rewrite (split_word is_space "-") by auto.
  rewrite (split_word is_space S) by (auto using plain_no_space).
  rewrite (split_word is_space H) by auto.
  rewrite (split_word is_space "0") by auto.
  assert (Hre : rejoin (split is_space J) = J).
  { unfold rejoin, split. apply (concat_split_go J ""). }
  revert Hre. generalize (split is_space J). intros ws Hre.
  clearbody W1.
  destruct k; cbn -[split and_or0 Json.parse Num.string_or0 rejoin];
    rewrite drop_0, Hre, HJ, Hmode; reflexivity.
Qed.

Lemma record_reads_back (e : FileEntry) :
  written_by_walker e = true ->
  exists line, entryToString e = Ok line /\ parse line = Ok (Entry (read_back e)).
Proof.
  unfold written_by_walker. intros H.
  apply andb_true_iff in H as [H Hhash]. apply andb_true_iff in H as [H Hmtime].
  apply andb_true_iff in H as [H Hctime]. apply andb_true_iff in H as [H Hmode].
  apply andb_true_iff in H as [Huid Hgid].
  destruct (mode_text_plain _ Hmode) as (md & Emd & Hmd & Rmd).
  destruct (time_text_no_space _ Hctime) as (ct & Ect & Hct & Rct).
  destruct (time_text_no_space _ Hmtime) as (mt & Emt & Hmt & Rmt).
  eexists. split.
  - unfold entryToString. rewrite Emd, Ect, Emt. reflexivity.
  - rewrite (parse_line (fe_type e) _ _ _ _ _ _ _ _ (backslash_to_slash (fe_path e)));
      auto using value_text_plain, to_string_plain, parse_stringify.
    unfold read_back. rewrite Rmd, Rct, Rmt.
    rewrite !and_or0_value_text by assumption.
    rewrite string_or0_to_string, to_int32_idem. reflexivity.
Qed.

(** X13.  A record the walker writes is read back by [parse] with its type,
    its hash and its path (backslashes written as slashes), the numbers
    wrapped to 32 bits, the mode as octal text and the times as ISO
    texts. *)
Theorem manifest_record_reads_back (e : FileEntry) :
  written_by_walker e = true ->
  exists line, entryToString e = Ok line /\ parse line = Ok (Entry (read_back e)).
Proof. apply record_reads_back. Qed.

Lemma manifest_record_witness :
  let e := Spec.file_record (Scenario.source false) "/src/a.txt"
             (info_of (File (Scenario.file_meta Scenario.t_file) Scenario.hello))
             Scenario.hash_hello in
  exists line, entryToString e = Ok line /\ parse line = Ok (Entry (read_back e)).
Proof. cbv zeta. apply manifest_record_reads_back. vm_compute. reflexivity. Defined.

End RecordRoundTrip.

(** ** fs.ts: mkdirp *)

Module MkdirFacts.
Import JS Fs FsFacts Notions StringFacts.

Lemma Deno_mkdir_ok fn md w w' :
  Deno_mkdir fn md w = (Ok tt, w') ->
  disk w !! fn = None
  /\ disk w' = <[fn := Dir (fresh_meta w md) 4096]> (disk w)
  /\ console w' = console w.
Proof.
  unfold Deno_mkdir. destruct (disk w !! fn) eqn:E; [discriminate|].
  destruct (disk w !! Path.dirname fn) as [[| |]|]; try discriminate.
  rewrite bind_run, emit_run. unfold set_node, set_disk. cbn [disk console].
  intros [= <-]. auto.
Qed.

(** The second loop of [mkdirp] only adds directories, and ends with
    the last one it was to make. *)
Lemma mkdirp_make_ok md add : forall parts w w',
  mkdirp_make parts add md w = (Ok tt, w') ->
  (forall p n, disk w !! p = Some n -> disk w' !! p = Some n)
  /\ (forall p, (forall k, p <> Path.join (parts ++ take (S k) add)) ->
                disk w' !! p = disk w !! p)
  /\ console w' = console w
  /\ (add <> [] -> exists m sz, disk w' !! Path.join (parts ++ add) = Some (Dir m sz)).
Proof.
  induction add as [|a add IH]; intros parts w w'.
  - cbn [mkdirp_make]. intros [= <-]. repeat split; auto. congruence.
  - cbn [mkdirp_make]. rewrite bind_run.
    destruct (Deno_mkdir _ md w) as [[[]|e|e|] w1] eqn:E1; try discriminate.
    apply Deno_mkdir_ok in E1 as (Hnone & Hd1 & Hc1).
    intros H2. apply IH in H2 as (Hkeep & Hother & Hc2 & Hlast).
    assert (Hk1 : forall p n, disk w !! p = Some n -> disk w1 !! p = Some n).
    { intros p n Hp. rewrite Hd1.
      destruct (decide (Path.join (parts ++ [a]) = p)) as [<-|Hne]; [congruence|].
      now rewrite lookup_insert_ne. }
    split; [auto|]. split; [|split; [congruence|]].
    + intros p Hp. rewrite Hother.
      * rewrite Hd1. apply lookup_insert_ne. intros E. apply (Hp 0). now rewrite <- E.
      * intros k E. apply (Hp (S k)). rewrite E. cbn [take]. now rewrite <- app_assoc.
    + intros _. destruct add as [|b add].
      * cbn [mkdirp_make] in *. rewrite app_nil_r in *.
        eexists _, _. apply Hkeep. rewrite Hd1. apply lookup_insert_eq.
      * destruct Hlast as (m & sz & Hl); [discriminate|].
        exists m, sz. rewrite <- Hl. f_equal. now rewrite <- app_assoc.
Qed.

(** The first loop reads and changes nothing; what it returns is
    either empty or the parts of a directory that is there. *)
Lemma mkdirp_probe_ok fn : forall rparts w r w',
  mkdirp_probe fn rparts w = (Ok r, w') ->
  w' = w
  /\ (exists k, r = drop k rparts)
  /\ (r <> [] -> exists m sz, disk w !! Path.join (rev r) = Some (Dir m sz)).
Proof.
  induction rparts as [|x rest IH]; intros w r w'.
  - cbn [mkdirp_probe]. intros [= <- <-]. split; [reflexivity|].
    split; [exists 0; reflexivity|congruence].
  - cbn [mkdirp_probe]. rewrite bind_run. unfold try_catch at 1.
    rewrite bind_run. unfold lstat.
    destruct (disk w !! Path.join (rev (x :: rest))) as [n|] eqn:En.
    + destruct n as [m d|m sz|m sz]; cbn [info_of isDirectory].
      * unfold throw. cbn. discriminate.
      * unfold mret, M_ret. cbv beta iota. intros [= <- <-].
        split; [reflexivity|]. split; [exists 0; reflexivity|].
        intros _. eauto.
      * unfold throw. cbn. discriminate.
    + destruct (below_a_file (disk w) (Path.join (rev (x :: rest)))).
      { change (is_NotFound NotADirectory) with false. unfold throw. cbn. discriminate. }
      change (is_NotFound NotFound) with true. unfold mret, M_ret. cbv beta iota.
      intros H. apply IH in H as (-> & (k & ->) & Hdir).
      split; [reflexivity|]. split; [exists (S k); reflexivity|exact Hdir].
Qed.

Lemma split_sep_go_cons s : forall cur r, exists x l, Path.split_sep_go cur r s = x :: l.
Proof.
  induction s as [|c s IH]; intros cur r; cbn [Path.split_sep_go]; [eauto|].
  destruct (Path.is_slash c); [destruct r|]; eauto.
Qed.

Lemma rev_drop_rev {A} (l : list A) k :
  rev (drop k (rev l)) = take (length l - k) l.
Proof. rewrite skipn_rev. now rewrite rev_involutive. Qed.

Lemma mkdirp_makes (fn : string) (md : option Z) (w w' : World) :
  mkdirp fn md w = (Ok tt, w') ->
  (exists m sz, disk w' !! Path.join (Path.split_sep fn) = Some (Dir m sz))
  /\ (forall p n, disk w !! p = Some n -> disk w' !! p = Some n)
  /\ console w' = console w.
Proof.
  unfold mkdirp. rewrite bind_run.
  destruct (mkdirp_probe fn (rev (Path.split_sep fn)) w) as [[r|e|e|] w1] eqn:Ep;
    try discriminate.
  apply mkdirp_probe_ok in Ep as (-> & (k & ->) & Hdir).
  rewrite rev_drop_rev in *.
  set (all := Path.split_sep fn) in *.
  set (parts := take (length all - k) all) in *.
  assert (Hlen : length parts = length all - k)
    by (unfold parts; rewrite length_take; lia).
  assert (Hall : parts ++ drop (length parts) all = all)
    by (rewrite Hlen; apply take_drop).
  intros Hm. apply mkdirp_make_ok in Hm as (Hkeep & _ & Hc & Hlast).
  split; [|split; assumption].
  destruct (drop (length parts) all) as [|a add] eqn:Ed.
  - rewrite app_nil_r in Hall.
    destruct Hdir as (m & sz & Hd).
    { intros E. assert (Hp : parts = []).
      { unfold parts. rewrite <- rev_drop_rev. fold all. now rewrite E. }
      rewrite Hp in Hall. unfold all, Path.split_sep in Hall.
      destruct (split_sep_go_cons fn "" false) as (x & l & Ex). rewrite Ex in Hall.
      discriminate. }
    fold parts in Hd. rewrite Hall in Hd. eauto.
  - destruct Hlast as (m & sz & Hl); [discriminate|]. rewrite Hall in Hl. eauto.
Qed.

(** X14.  [mkdirp] that returns has made the directory, kept every node that
    was there, and printed nothing. *)
Theorem mkdirp_makes_the_directory (fn : string) (md : option Z) (w w' : World) :
  mkdirp fn md w = (Ok tt, w') ->
  (exists m sz, disk w' !! Path.join (Path.split_sep fn) = Some (Dir m sz))
  /\ (forall p n, disk w !! p = Some n -> disk w' !! p = Some n)
  /\ console w' = console w.
Proof. apply mkdirp_makes. Qed.

Lemma mkdirp_makes_witness :
  let run := mkdirp "tgt/files.db/58/91" (Some 448%Z) Scenario.world0 in
  run.1 = Ok tt
  /\ exists m sz, disk run.2 !! "tgt/files.db/58/91" = Some (Dir m sz).
Proof.
  cbv zeta.
  destruct (mkdirp "tgt/files.db/58/91" (Some 448%Z) Scenario.world0)
    as [[[]| | |] w'] eqn:E; try (vm_compute in E; discriminate).
  split; [reflexivity|].
  exact (proj1 (mkdirp_makes_the_directory _ _ _ _ E)).
Defined.

(** X15.  On a directory that is there, [mkdirp] does nothing. *)
Theorem mkdirp_on_a_directory (fn : string) (md : option Z) (w : World)
    (m : Meta) (sz : Z) :
  disk w !! Path.join (Path.split_sep fn) = Some (Dir m sz) ->
  mkdirp fn md w = (Ok tt, w).
Proof.
  intros Hd. unfold mkdirp. rewrite bind_run.
  destruct (split_sep_go_cons fn "" false) as (x & l & Ex).
  assert (Hrev : exists y rest, rev (Path.split_sep fn) = y :: rest).
  { unfold Path.split_sep. rewrite Ex.
    destruct (rev (x :: l)) as [|y rest] eqn:Er; [|eauto].
    apply (f_equal (@rev string)) in Er. rewrite rev_involutive in Er. discriminate. }
  destruct Hrev as (y & rest & Hrev).
  assert (Hp : mkdirp_probe fn (rev (Path.split_sep fn)) w
               = (Ok (rev (Path.split_sep fn)), w)).
  { rewrite Hrev. cbn [mkdirp_probe]. rewrite <- Hrev, rev_involutive.
    rewrite bind_run. unfold try_catch. rewrite bind_run. unfold lstat. rewrite Hd.
    reflexivity. }
  rewrite Hp, rev_involutive, drop_all. reflexivity.
Qed.

Lemma mkdirp_on_a_directory_witness :
  mkdirp "tgt/files.db" (Some 448%Z) Scenario.world0 = (Ok tt, Scenario.world0).
Proof.
  apply (mkdirp_on_a_directory "tgt/files.db" (Some 448%Z) Scenario.world0
           (Scenario.dir_meta 1000) 4096).
  vm_compute. reflexivity.
Defined.

Lemma all_chars_rev_app f a : forall b,
  all_chars f (String.rev_app a b) = all_chars f a && all_chars f b.
Proof.
  induction a as [|c a IH]; intros b; [reflexivity|].
  cbn [String.rev_app all_chars]. rewrite IH. cbn [all_chars].
  destruct (f c), (all_chars f a), (all_chars f b); reflexivity.
Qed.

Lemma split_sep_go_pieces s : forall cur r x,
  all_chars (fun c => negb (Path.is_slash c)) cur = true ->
  In x (Path.split_sep_go cur r s) ->
  all_chars (fun c => negb (Path.is_slash c)) x = true.
Proof.
  induction s as [|c s IH]; intros cur r x Hcur; cbn [Path.split_sep_go].
  - intros [<-|[]]. unfold String.rev. now rewrite all_chars_rev_app, Hcur.
  - destruct (Path.is_slash c) eqn:Ec.
    + destruct r.
      * now apply IH.
      * intros [<-|Hin].
        -- unfold String.rev. now rewrite all_chars_rev_app, Hcur.
        -- now apply (IH "" true).
    + apply IH. cbn [all_chars]. now rewrite Ec, Hcur.
Qed.

Lemma no_slash_head x :
  all_chars (fun c => negb (Path.is_slash c)) x = true -> String.prefix "/" x = false.
Proof.
  destruct x as [|c x]; [reflexivity|]. cbn [all_chars]. intros H.
  apply andb_true_iff in H as [Hc _]. apply negb_true_iff in Hc.
  unfold Path.is_slash in Hc. cbn [String.prefix].
  destruct (ascii_dec "/" c) as [<-|N]; [discriminate Hc|reflexivity].
Qed.

Lemma join_is_relative l :
  (forall x, In x l -> String.prefix "/" x = false) ->
  String.prefix "/" (Path.join l) = false.
Proof.
  intros Hl. unfold Path.join.
  destruct (filter _ l) as [|p ps] eqn:Ef; [reflexivity|].
  assert (Hp : p ∈ filter (fun p => negb (String.eqb p "")) l)
    by (rewrite Ef; apply list_elem_of_here).
  apply list_elem_of_filter in Hp as [Hne Hin].
  apply list_elem_of_In in Hin. specialize (Hl _ Hin).
  destruct p as [|c p]; [destruct Hne|].
  cbn [String.prefix] in Hl.
  destruct (ascii_dec "/" c) as [E|N]; [destruct p; discriminate Hl|].
  destruct ps; cbn [Path.join_go]; [|rewrite app_cons]; cbn [String.prefix];
    destruct (ascii_dec "/" c); [contradiction|reflexivity|contradiction|reflexivity].
Qed.

(** X16.  [mkdirp] of a path that begins with a slash: the leading empty part
    is dropped when the parts are joined, so the directory that is
    looked for and made is named by a relative path, not by the path
    that was asked for. *)
Theorem mkdirp_makes_an_absolute_path_relative (fn : string) (md : option Z)
    (w w' : World) :
  String.prefix "/" fn = true ->
  mkdirp fn md w = (Ok tt, w') ->
  String.prefix "/" (Path.join (Path.split_sep fn)) = false
  /\ Path.join (Path.split_sep fn) <> fn
  /\ exists m sz, disk w' !! Path.join (Path.split_sep fn) = Some (Dir m sz).
Proof.
  intros Habs Hm.
  assert (Hrel : String.prefix "/" (Path.join (Path.split_sep fn)) = false).
  { rewrite <- (firstn_all (Path.split_sep fn)). apply join_is_relative.
    intros x Hin. apply no_slash_head.
    apply (split_sep_go_pieces fn "" false); [reflexivity|].
    apply list_elem_of_In. apply list_elem_of_In in Hin.
    exact (subseteq_take _ _ _ Hin). }
  split; [exact Hrel|]. split; [intros E; rewrite E in Hrel; congruence|].
  apply (mkdirp_makes _ _ _ _ Hm).
Qed.

Lemma mkdirp_absolute_witness :
  let w := MkWorld {[ "." := Dir (Scenario.dir_meta 1000) 4096;
                      "/" := Dir (Scenario.dir_meta 1000) 4096 ]} [] [] 0
             BackupSet.zero_stats in
  let run := mkdirp "/data/store" None w in
  run.1 = Ok tt
  /\ exists m sz, disk run.2 !! "data/store" = Some (Dir m sz).
Proof.
  cbv zeta.
  destruct (mkdirp "/data/store" None _) as [[[]| | |] w'] eqn:E;
    try (vm_compute in E; discriminate).
  cbn [fst snd]. split; [reflexivity|].
  exact (proj2 (proj2 (mkdirp_makes_an_absolute_path_relative "/data/store" _ _ _
                         eq_refl E))).
Defined.

End MkdirFacts.

(** ** backup-filesystem.ts: what put stores, verify accepts *)

Module StoreRoundTrip.
Import JS Fs FsFacts.
Module HFS := HashFileSystemV5.
Module BFS := BackupFileSystem.

Lemma write_file_mode_content fn md d w w' :
  write_file_mode fn md d w = (Ok tt, w') ->
  exists m', disk w' !! fn = Some (File m' d).
Proof.
  unfold write_file_mode.
  destruct (disk w !! fn) as [[m old|m sz|m sz]|];
    [| discriminate | discriminate
     | destruct (disk w !! Path.dirname fn) as [[| |]|]; try discriminate ];
    rewrite bind_run, emit_run; intros Hs; apply set_node_disk in Hs;
    rewrite Hs; cbn [disk]; rewrite lookup_insert_eq; eauto.
Qed.

Lemma read_file_content fn m d w :
  disk w !! fn = Some (File m d) ->
  read_file fn w
  = (Ok d, MkWorld (disk w) (console w) (trace w ++ [EvRead fn]) (clock w) (stats w)).
Proof. intros H. unfold read_file. rewrite H. reflexivity. Qed.

Section WithCodec.
Context `{Codec}.

(** X17.  What [put] stores, [has] finds and [verify] accepts, with a
    compression library that gives back what it was given. *)
Theorem what_put_stores_verify_accepts (bfs : BFS.t) (h : HFS.t) (file : string)
    (size : Z) (m : Meta) (d : string) (w w' : World) (r : BFS.PutResult) :
  let hash := sha256_hex d in
  let key := HFS.getKey h hash (Num.Int size) in
  BFS.hfs bfs = Some h ->
  disk w !! file = Some (File m d) ->
  disk w !! HFS.path key = None ->
  gunzip (gzip d) = Some d ->
  BFS.put bfs file size hash None w = (Ok r, w') ->
  (exists m', disk w' !! HFS.path key = Some (File m' (gzip d)))
  /\ BFS.has bfs size hash w' = (Ok true, w')
  /\ (BFS.verify bfs (Num.Int size) hash None w').1 = Ok tt.
Proof.
  intros hash key Hh Hfile Hnone Hgz Hput.
  assert (Hobj : exists m', disk w' !! HFS.path key = Some (File m' (gzip d))).
  { revert Hput. unfold BFS.put. rewrite Hh.
    rewrite bool_decide_eq_true_2 by eauto.
    unfold BFS.assert. rewrite bind_ret_run.
    rewrite bind_run, bind_run. unfold HFS.exists_. rewrite std_exists_run.
    fold hash. fold key. rewrite Hnone.
    destruct (below_a_file (disk w) (HFS.path key)); [discriminate|]. cbn [negb].
    unfold HFS.store. cbn [default].
    rewrite bind_run, emit_run. rewrite bind_run.
    destruct (mkdirp _ _ _) as [[[]|e|e|] w2] eqn:Em; try discriminate.
    apply MkdirFacts.mkdirp_makes in Em as (_ & Hkeep & _).
    pose proof (Hkeep file _ Hfile) as Hf2.
    unfold zip, detached. rewrite bind_run, (read_file_content _ _ _ _ Hf2).
    destruct (write_file _ _ _) as [[[]|e|e|] w3] eqn:Ew; try discriminate.
    apply write_file_mode_content in Ew. unfold mret, M_ret.
    intros [= _ <-]. exact Ew. }
  destruct Hobj as [m' Hobj]. split; [eauto|]. split.
  - unfold BFS.has. rewrite Hh. rewrite bool_decide_eq_true_2 by eauto.
    unfold BFS.assert.
    unfold mbind, M_bind, mret, M_ret. unfold BFS.HFS.exists_.
    rewrite std_exists_run. fold hash. fold key. now rewrite Hobj.
  - unfold BFS.verify. rewrite Hh. rewrite bool_decide_eq_true_2 by eauto.
    unfold BFS.assert, BFS.HFS.exists_, BFS.HFS.hashKey, hashZip.
    unfold mbind, M_bind, mret, M_ret. cbv beta iota.
    rewrite std_exists_run. fold hash. fold key. rewrite Hobj. cbv beta iota.
    rewrite (read_file_content _ _ _ _ Hobj), Hgz. cbv beta iota.
    fold hash. rewrite String.eqb_refl. reflexivity.
Qed.

End WithCodec.

Lemma what_put_stores_witness :
  let put := BFS.put (H := Scenario.sample_codec) (Target.fs Scenario.target)
               "/src/a.txt" 6 Scenario.hash_hello None Scenario.world0 in
  put.1 = Ok (BFS.MkPut true)
  /\ BFS.has (Target.fs Scenario.target) 6 Scenario.hash_hello put.2 = (Ok true, put.2)
  /\ (BFS.verify (H := Scenario.sample_codec) (Target.fs Scenario.target) (Num.Int 6)
        Scenario.hash_hello None put.2).1 = Ok tt.
Proof.
  intros put.
  assert (E : put = (Ok (BFS.MkPut true), put.2)) by (vm_compute; reflexivity).
  destruct (what_put_stores_verify_accepts (H := Scenario.sample_codec)
              (Target.fs Scenario.target) (HFS.MkHfs "tgt/files.db") "/src/a.txt" 6
              (Scenario.file_meta Scenario.t_file) Scenario.hello Scenario.world0 put.2
              (BFS.MkPut true)
              eq_refl ltac:(vm_compute; reflexivity) ltac:(vm_compute; reflexivity)
              eq_refl E) as (_ & H2 & H3).
  split; [exact (f_equal fst E)|]. split; [exact H2|exact H3].
Defined.

End StoreRoundTrip.

Module InstanceFacts.
Import JS Fs FsFacts Notions.
Module HFS := HashFileSystemV5.
Module BFS := BackupFileSystem.

Section WithCodec.
Context `{Codec}.

Lemma verify_missing bfs h size hash cw w :
  BFS.hfs bfs = Some h ->
  disk w !! HFS.path (HFS.getKey h hash size) = None ->
  BFS.verify bfs size hash cw w
  = (Throw (if below_a_file (disk w) (HFS.path (HFS.getKey h hash size))
            then NotADirectory else NotFoundInStore), w).
Proof.
  intros Hh Hnone. unfold BFS.verify. rewrite Hh.
  rewrite bool_decide_eq_true_2 by eauto.
  unfold BFS.assert, BFS.HFS.exists_.
  unfold mbind, M_bind, mret, M_ret. cbv beta iota.
  rewrite std_exists_run, Hnone.
  destruct (below_a_file _ _); reflexivity.
Qed.

(** X18.  [verify] of a record whose object is not in the store: the object
    is not read, the error has the name "Not found", no message and no
    code, and the line for the record says ERROR, followed by the error;
    it does not say DELETED.  (Below a regular file the check of the
    store does not get as far: the error is the one of [lstat], and the
    line says ERROR all the same.) *)
Theorem verify_reports_a_missing_object_as_ERROR (i : BackupInstance.t) (h : HFS.t)
    (e : BackupLog.FileEntry) (verbose compare : bool) (compareWith root : option string)
    (w : World) :
  BFS.hfs (Target.fs (BackupInstance.target i)) = Some h ->
  BackupInstance.falsy root = false ->
  BackupLog.fe_type e = BackupLog.KF ->
  disk w !! HFS.path (HFS.getKey h (BackupLog.fe_hash e) (Num.Int (BackupLog.fe_size e)))
    = None ->
  BackupInstance.verify_entry i verbose compare compareWith root (BackupLog.Entry e) w
  = (Ok root,
     MkWorld (disk w)
       (console w
        ++ [Log (BackupInstance.report "ERROR" e);
            LogObject
              (if below_a_file (disk w)
                    (HFS.path (HFS.getKey h (BackupLog.fe_hash e)
                                 (Num.Int (BackupLog.fe_size e))))
               then NotADirectory else NotFoundInStore)])
       (trace w) (clock w) (stats w)).
Proof.
  intros Hh Hroot Hty Hnone. unfold BackupInstance.verify_entry. rewrite Hty, Hroot.
  rewrite bind_run. unfold try_catch. rewrite bind_run.
  rewrite (verify_missing _ h) by assumption.
  set (err := if below_a_file _ _ then NotADirectory else NotFoundInStore).
  assert (Hcode : BackupInstance.has_code err "ENOCOMPARE" = false
                  /\ BackupInstance.has_code err "ENOENT" = false)
    by (unfold err; destruct (below_a_file _ _); split; reflexivity).
  destruct Hcode as [-> ->]. cbv iota.
  unfold console_log, console_dir, print. rewrite bind_run. cbv beta iota.
  cbn [disk console trace clock stats]. rewrite ret_run. now rewrite <- app_assoc.
Qed.

End WithCodec.

Lemma verify_missing_witness :
  let e := {| BackupLog.fe_type := BackupLog.KF; BackupLog.fe_mode := BackupLog.VStr "644";
              BackupLog.fe_uid := BackupLog.VNum 1000; BackupLog.fe_gid := BackupLog.VNum 1000;
              BackupLog.fe_ctime := BackupLog.TStr ""; BackupLog.fe_mtime := BackupLog.TStr "";
              BackupLog.fe_size := 6; BackupLog.fe_hash := Scenario.hash_hello;
              BackupLog.fe_path := "a.txt" |} in
  BackupInstance.verify_entry (H := Scenario.sample_codec) Scenario.running_instance
    true false None (Some "/src") (BackupLog.Entry e) Scenario.world0
  = (Ok (Some "/src"),
     MkWorld (disk Scenario.world0)
       [Log ("ERROR " +:+ Scenario.hash_hello +:+ " 6 a.txt"); LogObject NotFoundInStore]
       [] Scenario.t_run1 BackupSet.zero_stats).
Proof.
  cbv zeta.
  apply (verify_reports_a_missing_object_as_ERROR (H := Scenario.sample_codec)
           Scenario.running_instance (HFS.MkHfs "tgt/files.db")).
  - reflexivity.
  - reflexivity.
  - reflexivity.
  - vm_compute. reflexivity.
Defined.

(** The other case: with a regular file where a directory of the store
    belongs, the error that is printed is the one of [lstat]. *)
Example verify_below_a_file :
  let e := {| BackupLog.fe_type := BackupLog.KF; BackupLog.fe_mode := BackupLog.VStr "644";
              BackupLog.fe_uid := BackupLog.VNum 1000; BackupLog.fe_gid := BackupLog.VNum 1000;
              BackupLog.fe_ctime := BackupLog.TStr ""; BackupLog.fe_mtime := BackupLog.TStr "";
              BackupLog.fe_size := 6; BackupLog.fe_hash := Scenario.hash_hello;
              BackupLog.fe_path := "a.txt" |} in
  let w := MkWorld (<["tgt/files.db/58" := File (Scenario.file_meta 1000) ""]>
                      (disk Scenario.world0)) [] [] Scenario.t_run1 BackupSet.zero_stats in
  console (BackupInstance.verify_entry (H := Scenario.sample_codec)
             Scenario.running_instance true false None (Some "/src")
             (BackupLog.Entry e) w).2
  = [Log ("ERROR " +:+ Scenario.hash_hello +:+ " 6 a.txt"); LogObject NotADirectory].
Proof. vm_compute. reflexivity. Qed.

(** X19.  [LocalBackup.backup] makes its instance without a [userid], and the
    first thing the instance does is to ask for it: every call throws
    'userid not defined' before anything is read or written. *)
Theorem backup_of_a_local_target_always_throws `{Codec} (fuel : nat) (t : Target.t)
    (backupset : BackupSet.t) (w : World) :
  LocalBackup.backup fuel t backupset w = (Throw (plain_error "userid not defined"), w).
Proof. reflexivity. Qed.

End InstanceFacts.

(** ** backup-source.ts: sizes, failures *)

Module SizeFacts.
Import JS Fs FsFacts BackupLog BackupSource Notions NumFacts.

(** X20.  [sameAsLastBackup] answers [true] in one case only: the sizes are
    equal and the two mtimes are valid dates with the same time value.
    An entry whose mtime did not parse is never the same. *)
Theorem sameAsLastBackup_true_iff (a : FileInfo) (b : InfoFileEntry) :
  sameAsLastBackup a b = Ok true
  <-> size a = i_size b
      /\ exists tv, mtime a = Some (Date.Ms tv) /\ i_mtime b = TDate (Date.Ms tv).
Proof.
  unfold sameAsLastBackup. split.
  - destruct (i_mtime b) as [bm|s]; [|discriminate].
    destruct (Z.eqb_spec (size a) (i_size b)) as [Es|Ns]; cbn [negb]; [|discriminate].
    destruct (mtime a) as [am|]; [|discriminate].
    destruct am as [x|], bm as [y|]; cbn [Date.getTime_ne]; try discriminate.
    destruct (Z.eqb_spec x y) as [->|N]; cbn [negb]; [|discriminate].
    intros _. split; [exact Es|]. eauto.
  - intros (Es & tv & Ha & Hb). rewrite Hb, Es, Z.eqb_refl, Ha. cbn.
    now rewrite Z.eqb_refl.
Qed.



End SizeFacts.

Module WalkFacts.
Import JS Fs FsFacts BackupLog BackupSource WalkerNotions.

Section WithCodec.
Context `{Codec}.

(** X22.  A file that fails ends the walk of its directory.  When the first
    entry the directory lists is a file that the filter lets through and
    [_backupFile] throws on it, [_backupDir] prints the error and
    returns: the entries that follow are not looked at, whatever they
    are. *)
Theorem a_failing_file_ends_the_walk_of_its_directory (fuel : nat) (s : BackupSource.t)
    (lb : option BackupInfo) (dirname : string) (instance : BackupInstance.t)
    (flt : Filter.t) (w w1 w2 : World) (entry : DirEntry) (rest : list DirEntry)
    (e : Error) :
  let fn := Path.join [dirname; name entry] in
  let w1' := MkWorld (disk w1) (console w1) (trace w1) (clock w1) (count_folder (stats w1)) in
  _backupDir_head s lb dirname instance w = (Ok true, w1) ->
  readdir dirname w1' = (Ok (entry :: rest), w1') ->
  entry_type entry = Some "F"%char ->
  Filter.ignores flt (rel s fn) = None ->
  _backupFile s lb fn instance w1' = (Throw e, w2) ->
  _backupDir (S fuel) s lb dirname instance flt w
  = (Ok tt, MkWorld (disk w2) (console w2 ++ [LogObject e]) (trace w2) (clock w2) (stats w2)).
Proof.
  intros fn w1' Hhead Hdir Hty Hign Hfile.
  cbn [_backupDir]. rewrite bind_run, Hhead. cbv iota.
  rewrite bind_run. unfold update_stats at 1. fold (count_folder (stats w1)). fold w1'.
  unfold try_catch. rewrite bind_run, Hdir.
  rewrite bind_run. rewrite Hty. fold fn. rewrite Hign.
  change (Ascii.eqb "F" "D") with false. change (Ascii.eqb "F" "F") with true. cbv iota.
  rewrite Hfile. reflexivity.
Qed.

End WithCodec.

Import Scenario.

Lemma a_failing_file_witness :
  let run := _backupDir (H := sample_codec) 8 (source false) None "/src" running_instance
               (Filter.MkFilter None) blocked_world in
  run.1 = Ok tt /\ files (stats run.2) = 1%Z /\ skipped (stats run.2) = 1%Z.
Proof.
  set (w1 := (_backupDir_head (source false) None "/src" running_instance
                blocked_world).2).
  set (w1' := MkWorld (disk w1) (console w1) (trace w1) (clock w1)
                (count_folder (stats w1))).
  set (r := _backupFile (H := sample_codec) (source false) None "/src/a.txt"
              running_instance w1').
  set (e := match r.1 with Throw e => e | _ => MkError "" None None end).
  assert (E1 : _backupDir_head (source false) None "/src" running_instance blocked_world
               = (Ok true, w1)) by (vm_compute; reflexivity).
  assert (E2 : readdir "/src" w1'
               = (Ok [MkEntry "a.txt" true false false; MkEntry "b.txt" true false false],
                  w1')) by (vm_compute; reflexivity).
  assert (E3 : r = (Throw e, r.2)) by (vm_compute; reflexivity).
  assert (E4 : entry_type (MkEntry "a.txt" true false false) = Some "F"%char)
    by reflexivity.
  assert (E5 : Filter.ignores (Filter.MkFilter None)
                 (rel (source false) (Path.join ["/src"; "a.txt"])) = None)
    by reflexivity.
  intros run. unfold run.
  rewrite (a_failing_file_ends_the_walk_of_its_directory (H := sample_codec) 7
             (source false) None "/src" running_instance (Filter.MkFilter None)
             blocked_world w1 r.2 (MkEntry "a.txt" true false false)
             [MkEntry "b.txt" true false false] e E1 E2 E4 E5 E3).
  split; [reflexivity|]. split; vm_compute; reflexivity.
Defined.

End WalkFacts.

(** ** The name of an object and its key in the table of hashes *)

Module ObjectNameFacts.
Import JS Fs FsFacts BackupLog Notions StringFacts NumFacts.
Module HFS := HashFileSystemV5.

Lemma rsplit_none f s :
  all_chars (fun c => negb (f c)) s = true -> Path.rsplit f s = None.
Proof.
  induction s as [|c s IH]; [reflexivity|]. cbn [all_chars Path.rsplit]. intros H.
  apply andb_true_iff in H as [Hc Hs]. apply negb_true_iff in Hc.
  now rewrite (IH Hs), Hc.
Qed.

Lemma rsplit_last f a c b :
  f c = true -> all_chars (fun c => negb (f c)) b = true ->
  Path.rsplit f (a +:+ String c b) = Some (a, b).
Proof.
  intros Hc Hb. induction a as [|x a IH].
  - rewrite app_empty. cbn [Path.rsplit]. now rewrite (rsplit_none f b Hb), Hc.
  - rewrite app_cons. cbn [Path.rsplit]. now rewrite IH.
Qed.

Lemma basename_last a b :
  all_chars (fun c => negb (Path.is_slash c)) b = true ->
  Path.basename (a +:+ String "/" b) = b.
Proof. intros Hb. unfold Path.basename. now rewrite (rsplit_last _ a "/" b eq_refl Hb). Qed.

Lemma numeric_no_slash c : is_numeric c = true -> negb (Path.is_slash c) = true.
Proof. destruct c as [[] [] [] [] [] [] [] []]; cbv; congruence. Qed.

Lemma hash2name_shape c1 hash :
  exists dir, HFS._hash2name (String c1 hash) = dir +:+ String "/" (String c1 hash).
Proof.
  unfold HFS._hash2name, Path.join.
  rewrite !filter_nonempty_cons, filter_nil.
  change (substr (String c1 hash) 0 (Some 2)) with (String c1 (take_str 1 hash)).
  change (String c1 (take_str 1 hash) =? "")%string with false.
  change (String c1 hash =? "")%string with false. cbv iota.
  destruct (substr (String c1 hash) 2 (Some 2) =? "")%string; cbn [Path.join_go].
  - exists (String c1 (take_str 1 hash)). reflexivity.
  - exists (String c1 (take_str 1 hash) +:+ "/" +:+ substr (String c1 hash) 2 (Some 2)).
    rewrite str_app_assoc. reflexivity.
Qed.

(** The name of the file that holds an object: the hash, a dot, the
    size. *)
Lemma object_name h hash size :
  hash <> "" ->
  all_chars (fun c => negb (Path.is_slash c)) hash = true ->
  Path.basename (HFS.path (HFS.getKey h hash (Num.Int size)))
  = hash +:+ "." +:+ Num.to_string size.
Proof.
  intros Hne Hns.
  assert (Hlast : all_chars (fun c => negb (Path.is_slash c))
                    (hash +:+ "." +:+ Num.to_string size) = true).
  { rewrite all_chars_app, Hns. rewrite app_cons, app_empty. cbn [all_chars andb].
    apply (all_chars_impl is_numeric); [exact numeric_no_slash|].
    apply to_radix_numeric. lia. }
  destruct hash as [|c1 hash]; [congruence|].
  unfold HFS.getKey. cbn [HFS.path Num.number_to_string].
  destruct (hash2name_shape c1 hash) as [dir ->].
  rewrite str_app_assoc. rewrite app_cons.
  unfold Path.join. rewrite !filter_nonempty_cons, filter_nil.
  replace (dir +:+ String "/" (String c1 hash +:+ "." +:+ Num.to_string size) =? "")%string
    with false by (destruct dir; reflexivity).
  destruct (HFS.root h =? "")%string; cbn [Path.join_go].
  - now apply basename_last.
  - rewrite <- str_app_assoc. rewrite <- (str_app_assoc (HFS.root h +:+ "/")).
    now apply basename_last.
Qed.

Lemma file_record_is_walkers s fn fstat hash line :
  no_space hash = true ->
  entryToString (Spec.file_record s fn fstat hash) = Ok line ->
  written_by_walker (Spec.file_record s fn fstat hash) = true.
Proof.
  intros Hhash Hline.
  unfold written_by_walker, Spec.file_record.
  cbn [fe_uid fe_gid fe_mode fe_ctime fe_mtime fe_hash]. rewrite Hhash.
  assert (Hv : forall x, walker_value (BackupSource.num_or_empty x) = true).
  { intros [z|]; cbn; [destruct (z =? 0)%Z|]; reflexivity. }
  rewrite !Hv. cbn [andb].
  revert Hline. unfold entryToString, Spec.file_record.
  cbn [fe_uid fe_gid fe_mode fe_ctime fe_mtime fe_hash fe_size fe_type fe_path].
  destruct (mode_text _); cbn; try discriminate.
  destruct (birthtime fstat) as [[?|]|], (mtime fstat) as [[?|]|]; cbn;
    try discriminate; reflexivity.
Qed.

Lemma to_string_inj a b : Num.to_string a = Num.to_string b -> a = b.
Proof.
  intros E. pose proof (parseInt_to_string a) as Ha. rewrite E in Ha.
  rewrite parseInt_to_string in Ha. now injection Ha.
Qed.

Lemma count_line_of_record s fn fstat hash line hashes :
  no_space hash = true ->
  entryToString (Spec.file_record s fn fstat hash) = Ok line ->
  let key := hash +:+ "." +:+ Num.to_string (Num.to_int32 (size fstat)) in
  let old := default (MkHashEntry 0 false) (hashes !! key) in
  count_line hashes line = Ok (<[key := MkHashEntry (count old + 1) (seen old)]> hashes).
Proof.
  intros Hhash Hline key old.
  pose proof (file_record_is_walkers _ _ _ _ _ Hhash Hline) as Hw.
  destruct (RecordRoundTrip.record_reads_back _ Hw) as (line' & Hl' & Hp').
  rewrite Hline in Hl'. injection Hl' as <-.
  unfold count_line. rewrite Hp'. reflexivity.
Qed.

(** X23.  The record of a file counts, in the table of active hashes, under
    the name of the file that holds its object, as long as the size is
    below 2^31. *)
Theorem a_record_counts_under_the_name_of_its_object (s : BackupSource.t)
    (fn : string) (fstat : FileInfo) (hash line : string) (h : HFS.t)
    (hashes : gmap string HashMapEntry) :
  hash <> "" -> no_space hash = true ->
  all_chars (fun c => negb (Path.is_slash c)) hash = true ->
  (0 <= size fstat < 2147483648)%Z ->
  entryToString (Spec.file_record s fn fstat hash) = Ok line ->
  let name := Path.basename (HFS.path (HFS.getKey h hash (Num.Int (size fstat)))) in
  let old := default (MkHashEntry 0 false) (hashes !! name) in
  count_line hashes line = Ok (<[name := MkHashEntry (count old + 1) (seen old)]> hashes).
Proof.
  intros Hne Hsp Hsl Hsize Hline name old.
  pose proof (count_line_of_record s fn fstat hash line hashes Hsp Hline) as Hc.
  cbv zeta in Hc. rewrite to_int32_small in Hc by lia.
  unfold old, name. rewrite (object_name h hash (size fstat) Hne Hsl). exact Hc.
Qed.

Lemma a_record_counts_witness :
  let fstat := MkInfo true false false 6 (Some (Date.Ms 1000)) (Some (Date.Ms 1000))
                 (Some 420%Z) (Some 1000%Z) (Some 1000%Z) in
  let h := HFS.MkHfs "tgt/files.db" in
  exists line,
    entryToString (Spec.file_record (Scenario.source false) "/src/a.txt" fstat "abcdef")
    = Ok line
    /\ count_line ∅ line
       = Ok (<[Path.basename (HFS.path (HFS.getKey h "abcdef" (Num.Int 6))) :=
                 MkHashEntry 1 false]> ∅).
Proof.
  intros fstat h.
  destruct (entryToString (Spec.file_record (Scenario.source false) "/src/a.txt" fstat
                             "abcdef")) as [line| | |] eqn:E;
    try (vm_compute in E; discriminate).
  exists line. split; [reflexivity|].
  assert (Hs : (0 <= size fstat < 2147483648)%Z) by (cbn; lia).
  pose proof (a_record_counts_under_the_name_of_its_object (Scenario.source false)
                "/src/a.txt" fstat "abcdef" line h ∅ ltac:(discriminate) eq_refl eq_refl
                Hs E) as Hc.
  cbv zeta in Hc. rewrite lookup_empty in Hc. exact Hc.
Defined.

(** X24.  With a size of 2^31 or more the record counts under another name,
    the size wrapped to 32 bits.  When no other record names the object,
    the table does not know it, and the scan of the store calls it
    ORPHANED. *)
Theorem the_object_of_a_file_of_2GiB_is_orphaned `{Codec} (s : BackupSource.t)
    (fn : string) (fstat : FileInfo) (hash line : string) (h : HFS.t)
    (hashes : gmap string HashMapEntry)
    (tg : Target.t) (verbose : bool) (st : LocalBackup.FsckStats) (root : string)
    (entry : DirEntry) (w : World) :
  hash <> "" -> no_space hash = true ->
  all_chars (fun c => negb (Path.is_slash c)) hash = true ->
  (2147483648 <= size fstat)%Z ->
  entryToString (Spec.file_record s fn fstat hash) = Ok line ->
  let name := Path.basename (HFS.path (HFS.getKey h hash (Num.Int (size fstat)))) in
  hashes !! name = None ->
  exists table,
    count_line hashes line = Ok table
    /\ table !! name = None
    /\ LocalBackup.fsck_visit tg verbose (st, table) root entry name w
       = (Ok (LocalBackup.MkFsck (LocalBackup.total st + 1) (LocalBackup.verified st)
                (LocalBackup.damaged st) (LocalBackup.orphaned st + 1)
                (LocalBackup.missing st), table),
          MkWorld (disk w) (console w ++ [Log ("ORPHANED " +:+ name)]) (trace w)
            (clock w) (stats w)).
Proof.
  intros Hne Hsp Hsl Hsize Hline name Hfree.
  pose proof (count_line_of_record s fn fstat hash line hashes Hsp Hline) as Hc.
  cbv zeta in Hc. eexists. split; [exact Hc|].
  assert (Hname : name = hash +:+ "." +:+ Num.to_string (size fstat))
    by (apply (object_name h hash (size fstat) Hne Hsl)).
  match goal with |- ?P /\ _ => assert (Hnone : P) end.
  { rewrite lookup_insert_ne; [exact Hfree|]. rewrite Hname.
    intros E. do 2 apply String.app_inj in E. apply to_string_inj in E.
    pose proof (to_int32_range (size fstat)). lia. }
  split; [exact Hnone|].
  unfold LocalBackup.fsck_visit. rewrite Hnone.
  assert (Ht : truthy name = true).
  { rewrite Hname. destruct hash; [congruence|reflexivity]. }
  rewrite Ht. reflexivity.
Qed.

Lemma the_object_of_a_file_of_2GiB_witness :
  let fstat := MkInfo true false false 2147483648 (Some (Date.Ms 1000))
                 (Some (Date.Ms 1000)) (Some 420%Z) (Some 1000%Z) (Some 1000%Z) in
  let h := HFS.MkHfs "tgt/files.db" in
  let name := Path.basename (HFS.path (HFS.getKey h "abcdef" (Num.Int (size fstat)))) in
  exists line table,
    entryToString (Spec.file_record (Scenario.source false) "/src/big" fstat "abcdef")
    = Ok line
    /\ count_line ∅ line = Ok table
    /\ table !! name = None.
Proof.
  intros fstat h name.
  destruct (entryToString (Spec.file_record (Scenario.source false) "/src/big" fstat
                             "abcdef")) as [line| | |] eqn:E;
    try (vm_compute in E; discriminate).
  destruct (@the_object_of_a_file_of_2GiB_is_orphaned Scenario.sample_codec
              (Scenario.source false) "/src/big" fstat "abcdef" line h ∅
              Scenario.target false (LocalBackup.MkFsck 0 0 0 0 0) "tgt/files.db"
              (MkEntry "x" true false false) Scenario.world0)
    as (table & H1 & H2 & _);
    [discriminate|reflexivity|reflexivity|cbn; lia|exact E|apply lookup_empty|].
  exists line, table. split; [reflexivity|]. split; [exact H1|exact H2].
Defined.

End ObjectNameFacts.

(** ** _fs/hash-file.ts *)

Module HashFileFacts.
Import JS HashFile StringFacts.

Lemma length_append a b : String.length (a +:+ b) = String.length a + String.length b.
Proof. induction a as [|c a IH]; [reflexivity|]. rewrite app_cons. cbn. now rewrite IH. Qed.

Lemma length_drop_str n : forall s, String.length (drop_str n s) = String.length s - n.
Proof.
  induction n as [|n IH]; intros s; cbn [drop_str]; [lia|].
  destruct s as [|c s]; [reflexivity|]. cbn [String.length]. now rewrite IH.
Qed.

Lemma take_str_app_le n : forall a b,
  n <= String.length a -> take_str n (a +:+ b) = take_str n a.
Proof.
  induction n as [|n IH]; intros a b H; [now destruct a|].
  destruct a as [|c a]; [cbn in H; lia|]. rewrite app_cons. cbn [take_str].
  f_equal. apply IH. cbn in H. lia.
Qed.

Lemma take_str_app_ge n : forall a b,
  String.length a <= n -> take_str n (a +:+ b) = a +:+ take_str (n - String.length a) b.
Proof.
  induction n as [|n IH]; intros a b H.
  - destruct a; [reflexivity|cbn in H; lia].
  - destruct a as [|c a]; [reflexivity|]. rewrite !app_cons. cbn [take_str String.length].
    f_equal. apply IH. cbn in H. lia.
Qed.

Lemma drop_str_app_le n : forall a b,
  n <= String.length a -> drop_str n (a +:+ b) = drop_str n a +:+ b.
Proof.
  induction n as [|n IH]; intros a b H; [reflexivity|].
  destruct a as [|c a]; [cbn in H; lia|]. rewrite app_cons. cbn [drop_str].
  apply IH. cbn in H. lia.
Qed.

Lemma drop_str_app_ge n : forall a b,
  String.length a <= n -> drop_str n (a +:+ b) = drop_str (n - String.length a) b.
Proof.
  induction n as [|n IH]; intros a b H.
  - destruct a; [reflexivity|cbn in H; lia].
  - destruct a as [|c a]; [reflexivity|]. rewrite app_cons. cbn [drop_str String.length].
    apply IH. cbn in H. lia.
Qed.

Section WithHashes.
Variables sha256 sha1 : string -> string.

Lemma cut_stop fuel bs chunk st :
  blockLen st + String.length chunk < bs -> cut sha1 fuel bs chunk st = Some (chunk, st).
Proof.
  intros H. destruct fuel; cbn [cut]; now rewrite (proj2 (Nat.leb_gt _ _) H).
Qed.

Lemma cut_turn fuel bs chunk st :
  bs <= blockLen st + String.length chunk ->
  cut sha1 (S fuel) bs chunk st
  = cut sha1 fuel bs (drop_str (bs - blockLen st) chunk)
      {| sum := sum st; blockSum := ""; blocks := S (blocks st); blockLen := 0;
         offset := S (blocks st) * bs;
         parts := parts st
                  ++ [MkPart (offset st) bs
                        (sha1 (blockSum st +:+ take_str (bs - blockLen st) chunk))] |}.
Proof. intros H. cbn [cut]. now rewrite (proj2 (Nat.leb_le _ _) H). Qed.

Lemma cut_more bs fuel : forall chunk st r,
  cut sha1 fuel bs chunk st = Some r ->
  forall fuel', fuel <= fuel' -> cut sha1 fuel' bs chunk st = Some r.
Proof.
  induction fuel as [|fuel IH]; intros chunk st r Hc fuel' Hle.
  - destruct (Nat.leb_spec bs (blockLen st + String.length chunk)) as [Hge|Hlt].
    + cbn [cut] in Hc. rewrite (proj2 (Nat.leb_le _ _) Hge) in Hc. discriminate.
    + rewrite cut_stop in * by assumption. exact Hc.
  - destruct (Nat.leb_spec bs (blockLen st + String.length chunk)) as [Hge|Hlt].
    + destruct fuel' as [|fuel']; [lia|]. rewrite cut_turn in * by assumption.
      apply (IH _ _ _ Hc). lia.
    + rewrite cut_stop in * by assumption. exact Hc.
Qed.

(** With a positive block size and more fuel than the chunk is long,
    the loop ends. *)
Lemma cut_total bs : 0 < bs -> forall fuel chunk st,
  blockLen st < bs -> String.length chunk < fuel ->
  exists c' st',
    cut sha1 fuel bs chunk st = Some (c', st')
    /\ blockLen st' + String.length c' < bs
    /\ sum st' = sum st.
Proof.
  intros Hbs. induction fuel as [|fuel IH]; intros chunk st Hst Hf; [lia|].
  destruct (Nat.leb_spec bs (blockLen st + String.length chunk)) as [Hge|Hlt].
  - rewrite cut_turn by assumption.
    match goal with
    | |- context [cut sha1 fuel bs ?rest ?st1] =>
      destruct (IH rest st1) as (c' & st' & H1 & H2 & H3);
        [exact Hbs | rewrite length_drop_str; lia |]
    end.
    exists c', st'. auto.
  - rewrite cut_stop by assumption. exists chunk, st. auto.
Qed.

Lemma cut_any_fuel bs fuel chunk st :
  0 < bs -> blockLen st < bs -> String.length chunk < fuel ->
  cut sha1 fuel bs chunk st = cut sha1 (S (String.length chunk)) bs chunk st.
Proof.
  intros Hbs Hst Hf.
  destruct (cut_total bs Hbs (S (String.length chunk)) chunk st Hst (Nat.lt_succ_diag_r _))
    as (c' & st' & Hc & _).
  rewrite Hc. apply (cut_more _ _ _ _ _ Hc). lia.
Qed.

Lemma absorb_eq c st :
  absorb c st
  = {| sum := sum st; blockSum := blockSum st +:+ c; blocks := blocks st;
       blockLen := blockLen st + String.length c; offset := offset st;
       parts := parts st |}.
Proof.
  destruct c as [|x c]; [|reflexivity]. destruct st. unfold absorb. cbn.
  now rewrite app_empty_r, Nat.add_0_r.
Qed.

(** Feeding [a] and then [b] is feeding [a] followed by [b]. *)
Lemma feed_app bs : 0 < bs -> forall k a b st,
  String.length a <= k -> blockLen st < bs ->
  feed sha1 bs st (a +:+ b)
  = match feed sha1 bs st a with
    | Some st1 => feed sha1 bs st1 b
    | None => None
    end.
Proof.
  intros Hbs. induction k as [|k IH]; intros a b st Hk Hst.
  - destruct a; [|cbn in Hk; lia]. rewrite app_empty. unfold feed at 2.
    rewrite cut_stop by (cbn; lia). now rewrite absorb_eq, app_empty_r, Nat.add_0_r;
      destruct st.
  - destruct (Nat.leb_spec bs (blockLen st + String.length a)) as [Hge|Hlt].
    + (* a block is completed within [a] *)
      unfold feed at 1 2.
      rewrite !cut_turn by (rewrite ?length_append; lia).
      rewrite take_str_app_le, drop_str_app_le by lia.
      set (st1 := {| sum := sum st; blockSum := ""; blocks := S (blocks st);
                     blockLen := 0; offset := S (blocks st) * bs; parts := _ |}).
      set (rest := drop_str (bs - blockLen st) a).
      assert (Hrest : String.length rest < String.length a)
        by (unfold rest; rewrite length_drop_str; lia).
      rewrite (cut_any_fuel bs (String.length (a +:+ b)) (rest +:+ b) st1)
        by (cbn; rewrite ?length_append; lia).
      rewrite (cut_any_fuel bs (String.length a) rest st1) by (cbn; lia).
      apply (IH rest b st1); [lia|cbn; lia].
    + (* [a] goes into the block that is open *)
      unfold feed at 2. rewrite (cut_stop _ _ a) by assumption.
      rewrite (absorb_eq a).
      destruct (Nat.leb_spec bs (blockLen st + String.length (a +:+ b))) as [Hge|Hlt2].
      * unfold feed. rewrite length_append in Hge.
        rewrite !cut_turn by (cbn [blockLen]; rewrite ?length_append; lia).
        cbn [sum blockSum blocks blockLen offset parts].
        rewrite take_str_app_ge, drop_str_app_ge by lia.
        replace (bs - (blockLen st + String.length a))
          with (bs - blockLen st - String.length a) by lia.
        rewrite (str_app_assoc (blockSum st) a).
        set (st1 := {| sum := sum st; blockSum := ""; blocks := S (blocks st);
                       blockLen := 0; offset := S (blocks st) * bs; parts := _ |}).
        set (rest := drop_str (bs - blockLen st - String.length a) b).
        assert (Hrest : String.length rest < String.length b)
          by (unfold rest; rewrite length_drop_str; lia).
        rewrite (cut_any_fuel bs (String.length (a +:+ b)) rest st1)
          by (cbn; rewrite ?length_append; lia).
        rewrite (cut_any_fuel bs (String.length b) rest st1) by (cbn; lia).
        reflexivity.
      * unfold feed. rewrite length_append in Hlt2.
        rewrite !cut_stop by (cbn [blockLen]; rewrite ?length_append; lia).
        rewrite !absorb_eq. cbn [sum blockSum blocks blockLen offset parts].
        now rewrite str_app_assoc, length_append, Nat.add_assoc.
Qed.

Lemma feed_total bs st c : 0 < bs -> blockLen st < bs ->
  exists st', feed sha1 bs st c = Some st' /\ blockLen st' < bs /\ sum st' = sum st.
Proof.
  intros Hbs Hst. unfold feed.
  destruct (cut_total bs Hbs (S (String.length c)) c st Hst (Nat.lt_succ_diag_r _))
    as (c' & st' & -> & Hlen & Hsum).
  eexists. split; [reflexivity|]. rewrite absorb_eq. cbn. split; [lia|exact Hsum].
Qed.

Lemma cut_with_sum x bs fuel : forall c st,
  cut sha1 fuel bs c (with_sum x st)
  = match cut sha1 fuel bs c st with
    | Some (c', st') => Some (c', with_sum x st')
    | None => None
    end.
Proof.
  induction fuel as [|fuel IH]; intros c st; cbn [cut]; cbn [with_sum blockLen];
    destruct (Nat.leb _ _); try reflexivity.
  cbn [sum blockSum blocks offset parts]. apply (IH _ (MkState _ _ _ _ _ _)).
Qed.

Lemma step_feed bs st c :
  step sha1 true bs (Some st) c
  = match feed sha1 bs st c with
    | Some st' => Some (with_sum (sum st +:+ c) st')
    | None => None
    end.
Proof.
  unfold step, feed.
  change (MkState (sum st +:+ c) (blockSum st) (blocks st) (blockLen st) (offset st)
            (parts st)) with (with_sum (sum st +:+ c) st).
  rewrite cut_with_sum. destruct (cut sha1 _ bs c st) as [[c' st']|]; [|reflexivity].
  f_equal. rewrite !absorb_eq. reflexivity.
Qed.

Lemma concat_cons c cs : String.concat "" (c :: cs) = c +:+ String.concat "" cs.
Proof. destruct cs; [symmetry; apply app_empty_r|reflexivity]. Qed.

(** The chunks one after the other leave the loop where the whole data
    in one chunk leaves it. *)
Lemma fold_step sig bs : 0 < bs -> forall cs st,
  blockLen st < bs ->
  fold_left (step sha1 sig bs) cs (Some st)
  = step sha1 sig bs (Some st) (String.concat "" cs).
Proof.
  intros Hbs. induction cs as [|c cs IH]; intros st Hst.
  - cbn [fold_left String.concat]. destruct sig.
    + rewrite step_feed. unfold feed. rewrite cut_stop by (cbn; lia).
      rewrite absorb_eq. destruct st. unfold with_sum. cbn.
      now rewrite !app_empty_r, Nat.add_0_r.
    + cbn. destruct st. cbn. now rewrite app_empty_r.
  - cbn [fold_left]. rewrite concat_cons. destruct sig.
    + rewrite (step_feed bs st c).
      destruct (feed_total bs st c Hbs Hst) as (st1 & E1 & Hb1 & Hs1). rewrite E1.
      rewrite IH by exact Hb1. rewrite !step_feed.
      rewrite (feed_app bs Hbs (String.length c) c _ st (le_n _) Hst), E1.
      change (feed sha1 bs (with_sum (sum st +:+ c) st1) (String.concat "" cs))
        with (match cut sha1 (S (String.length (String.concat "" cs))) bs
                      (String.concat "" cs) (with_sum (sum st +:+ c) st1) with
              | Some (c', st2) => Some (absorb c' st2)
              | None => None
              end).
      rewrite cut_with_sum. unfold feed.
      destruct (cut sha1 _ bs (String.concat "" cs) st1) as [[c' st2]|]; [|reflexivity].
      rewrite !absorb_eq. unfold with_sum. cbn. now rewrite str_app_assoc.
    + cbn [step]. rewrite IH by exact Hst. cbn [step sum blockSum blocks blockLen offset parts].
      now rewrite str_app_assoc.
Qed.

(** X25.  [hashFile] depends on the data alone: however the source cuts the
    data into chunks, the digest is the digest of the whole, and the
    calls of [signature] are those for the whole data in one chunk. *)
Theorem hashFile_depends_on_the_data_alone (chunks : list string) (opts : Options) :
  exists ps,
    hashFile sha256 sha1 chunks opts = Some (sha256 (String.concat "" chunks), ps)
    /\ hashFile sha256 sha1 [String.concat "" chunks] opts
       = Some (sha256 (String.concat "" chunks), ps).
Proof.
  unfold hashFile.
  set (bs := match blockSize opts with Some (S n) => S n | _ => 128 * 128 end).
  assert (Hbs : 0 < bs) by (unfold bs; destruct (blockSize opts) as [[|n]|]; lia).
  rewrite (fold_step (signature opts) bs Hbs chunks init Hbs).
  cbn [fold_left].
  assert (Hs : exists st, step sha1 (signature opts) bs (Some init)
                            (String.concat "" chunks) = Some st
                          /\ sum st = String.concat "" chunks).
  { destruct (signature opts).
    - rewrite step_feed.
      destruct (feed_total bs init (String.concat "" chunks) Hbs Hbs) as (st & -> & _ & _).
      eexists. split; reflexivity.
    - eexists. split; reflexivity. }
  destruct Hs as (st & -> & Hsum). rewrite Hsum. eexists. split; reflexivity.
Qed.

End WithHashes.
End HashFileFacts.

(** ** backup-target.ts: the counters of fsck *)

Module FsckFacts.
Import JS Fs FsFacts LocalBackup FsckNotions.

(** What the callback keeps, the scan keeps. *)
Lemma scanFs_keeps {S} (P : S -> Prop) (t : Target.t)
    (callback : S -> string -> DirEntry -> string -> M S) :
  (forall acc root entry key w r w',
     P acc -> callback acc root entry key w = (Ok r, w') -> P r) ->
  forall fuel root acc w r w',
    P acc -> _scanFs fuel t root callback acc w = (Ok r, w') -> P r.
Proof.
  intros Hcb. induction fuel as [|fuel IH]; intros root acc w r w' HP; cbn [_scanFs].
  - discriminate.
  - intros H. apply bind_ok in H as (dir & w1 & _ & Hloop).
    revert acc w1 HP Hloop. induction dir as [|entry es IHes]; intros acc w1 HP Hloop.
    + injection Hloop as <- _. exact HP.
    + apply bind_ok in Hloop as (acc1 & w2 & Hstep & Hrest).
      apply (IHes acc1 w2); [|exact Hrest].
      destruct (de_isDirectory entry).
      * exact (IH _ _ _ _ _ HP Hstep).
      * destruct (de_isFile entry).
        -- apply bind_ok in Hstep as (key & w3 & _ & Hstep). exact (Hcb _ _ _ _ _ _ _ HP Hstep).
        -- injection Hstep as <- _. exact HP.
Qed.

Section WithCodec.
Context `{Codec}.

(** One visit counts the file in total, and in at most one of verified,
    damaged and orphaned. *)
Lemma fsck_visit_keeps t verbose st hashes root entry key w st' hashes' w' :
  consistent st -> missing st = 0%Z ->
  fsck_visit t verbose (st, hashes) root entry key w = (Ok (st', hashes'), w') ->
  consistent st' /\ missing st' = 0%Z.
Proof.
  unfold consistent. intros Hc Hm. unfold fsck_visit.
  destruct (BackupLog.truthy key).
  - destruct (hashes !! key) as [h|].
    + unfold try_catch. rewrite bind_run.
      destruct (BackupFileSystem.verify _ _ _ _ w) as [[[]|e|e|] w1]; try discriminate.
      * rewrite bind_run. destruct verbose; cbn; intros [= <- _ _]; cbn; lia.
      * cbn. intros [= <- _ _]. cbn. lia.
    + cbn. intros [= <- _ _]. cbn. lia.
  - cbn. intros [= <- _ _]. cbn. lia.
Qed.

Lemma report_missing_keeps keys : forall st w st' w',
  consistent st ->
  report_missing keys st w = (Ok st', w') -> consistent st'.
Proof.
  unfold consistent. induction keys as [|k keys IH]; intros st w st' w' Hc; cbn [report_missing].
  - intros [= <- _]. exact Hc.
  - rewrite bind_run. cbn. intros Hr. apply IH in Hr; [exact Hr|]. cbn. lia.
Qed.

(** X26.  Whenever [fsck] returns, the counters it reports hang together:
    none is negative, and the objects verified, damaged and orphaned
    together are at most the total.  (What is counted as missing is
    counted besides: a damaged object is counted there again.) *)
Theorem fsck_reports_consistent_counters (fuel : nat) (t : Target.t) (verbose : bool)
    (w w' : World) (st : FsckStats) :
  fsck fuel t verbose w = (Ok st, w') ->
  (0 <= verified st /\ 0 <= damaged st /\ 0 <= orphaned st /\ 0 <= missing st
   /\ verified st + damaged st + orphaned st <= total st)%Z.
Proof.
  unfold fsck. intros Hf.
  apply bind_ok in Hf as (hashes & w1 & _ & Hf).
  apply bind_ok in Hf as ([st1 hashes1] & w2 & Hscan & Hf).
  apply bind_ok in Hf as (st2 & w3 & Hrep & Hf).
  apply bind_ok in Hf as ([] & w4 & _ & Hf). injection Hf as <- _.
  apply (report_missing_keeps _ _ _ _ _) in Hrep; [exact Hrep|].
  apply (scanFs_keeps (fun acc => consistent acc.1 /\ missing acc.1 = 0%Z) t
           (fsck_visit t verbose)) in Hscan; [exact (proj1 Hscan)| |].
  - intros [a ha] root entry key wa [r hr] wb [Ha Hma] Hv.
    exact (fsck_visit_keeps _ _ _ _ _ _ _ _ _ _ _ Ha Hma Hv).
  - unfold consistent. cbn. lia.
Qed.

End WithCodec.

Lemma fsck_reports_witness :
  let run := fsck (H := Scenario.sample_codec) 8 Scenario.target false
               (Scenario.world1 ("GZ" +:+ Scenario.hello) Scenario.hello) in
  run.1 = Ok (MkFsck 1 1 0 0 0)
  /\ (verified (MkFsck 1 1 0 0 0) + damaged (MkFsck 1 1 0 0 0)
      + orphaned (MkFsck 1 1 0 0 0) <= total (MkFsck 1 1 0 0 0))%Z.
Proof.
  intros run.
  assert (E : run = (Ok (MkFsck 1 1 0 0 0), run.2)) by (vm_compute; reflexivity).
  split; [exact (f_equal fst E)|].
  exact (proj2 (proj2 (proj2 (proj2
    (fsck_reports_consistent_counters (H := Scenario.sample_codec) 8 Scenario.target
       false _ _ _ E))))).
Defined.

End FsckFacts.

(** ** auth-db.ts *)

Module AuthDbFacts.
Import JS AuthDb AuthNotions.

Section WithIp.
Variable cidr_contains : string -> string -> result bool.

Lemma check_accepts allow address account : forall r,
  check cidr_contains allow address account = Ok r ->
  r <> Undefined ->
  r = OfAccount account /\ exists i, lets_in cidr_contains allow address i.
Proof.
  induction allow as [|subnet rest IH]; intros r; cbn [check].
  - intros [= <-] H. now destruct H.
  - destruct (String.eqb_spec subnet address) as [->|Hne].
    + intros [= <-] _. split; [reflexivity|]. exists 0. split.
      * exists address. split; [reflexivity|now left].
      * intros j s Hj. lia.
    + destruct (cidr_contains (with_mask subnet) address) as [[|]|e|e|] eqn:Ec;
        cbn; try discriminate.
      * intros [= <-] _. split; [reflexivity|]. exists 0. split.
        -- exists subnet. split; [reflexivity|now right].
        -- intros j s Hj. lia.
      * intros Hr Hu. destruct (IH r Hr Hu) as (-> & i & (s & Hs & Hin) & Hbefore).
        split; [reflexivity|]. exists (S i). split.
        -- exists s. split; [exact Hs|exact Hin].
        -- intros [|j] s' Hj Hl; cbn in Hl.
           ++ injection Hl as <-. split; [exact Hne|exact Ec].
           ++ apply (Hbefore j s'); [lia|exact Hl].
Qed.

Lemma check_lets_in allow address account : forall i,
  lets_in cidr_contains allow address i ->
  check cidr_contains allow address account = Ok (OfAccount account).
Proof.
  induction allow as [|subnet rest IH]; intros i ((s & Hs & Hin) & Hbefore).
  - discriminate Hs.
  - cbn [check]. destruct (String.eqb_spec subnet address) as [->|Hne]; [reflexivity|].
    destruct i as [|i].
    + cbn in Hs. injection Hs as <-. destruct Hin as [->|Hc]; [now destruct Hne|].
      now rewrite Hc.
    + destruct (Hbefore 0 subnet) as [_ Hc]; [lia|reflexivity|]. rewrite Hc. cbn.
      apply (IH i). split.
      * exists s. split; [exact Hs|exact Hin].
      * intros j s' Hj Hl. apply (Hbefore (S j) s'); [lia|exact Hl].
Qed.

(** X27.  For a key of the database, [authenticate] returns the account of
    that key, and it returns it exactly when the account has no list
    [allow], or an empty one, or the list has an entry that is the
    address itself or a subnet that contains it, every entry before it
    having been tried and found not to contain the address.  It returns
    nothing else than that account. *)
Theorem authenticate_returns_the_account_iff (db : t) (keys : gmap string Account)
    (key address : string) (account : Account) :
  auth db = Some keys ->
  keys !! key = Some account ->
  (forall r, authenticate cidr_contains db key address = Ok r ->
             r = Undefined \/ r = OfAccount account)
  /\ (authenticate cidr_contains db key address = Ok (OfAccount account)
      <-> match allow account with
          | Some (subnet :: rest) =>
            exists i, lets_in cidr_contains (subnet :: rest) address i
          | _ => True
          end).
Proof.
  intros Ha Hk. unfold authenticate, get. rewrite Ha, Hk.
  destruct (allow account) as [[|subnet rest]|].
  - split; [intros r [= <-]; now right|]. split; auto.
  - split.
    + intros r Hr. destruct r as [|a|n]; [now left| |].
      * right. apply check_accepts in Hr as [Hr _]; [exact Hr|discriminate].
      * apply check_accepts in Hr as [Hr _]; [discriminate Hr|discriminate].
    + split.
      * intros Hr. apply check_accepts in Hr as [_ Hi]; [exact Hi|discriminate].
      * intros [i Hi]. apply (check_lets_in _ _ _ i Hi).
  - split; [intros r [= <-]; now right|]. split; auto.
Qed.

(** X28.  For a key the database does not hold, the answer does not depend on
    the address: it is [undefined], unless the key is one of the names
    every object inherits under Deno ([__proto__] is not one of them),
    and then it is the inherited value, which is not [undefined]: such
    a key passes for every database that is loaded. *)
Theorem authenticate_with_a_key_that_is_not_there (db : t)
    (keys : gmap string Account) (key address : string) :
  auth db = Some keys ->
  keys !! key = None ->
  authenticate cidr_contains db key address
  = Ok (if bool_decide (key ∈ inherited_names) then Inherited key else Undefined).
Proof.
  intros Ha Hk. unfold authenticate, get. rewrite Ha, Hk.
  destruct (bool_decide _); reflexivity.
Qed.

End WithIp.

Lemma authenticate_returns_witness :
  let account := MkAccount "u" None (Some ["10.0.0.0/8"; "192.168.1.7"]) None in
  let db := MkAuthDb (Some {[ "k1" := account ]}) in
  let lib := fun _ _ : string => Ok false in
  authenticate lib db "k1" "192.168.1.7" = Ok (OfAccount account).
Proof.
  intros account db lib.
  apply (proj2 (authenticate_returns_the_account_iff lib db {[ "k1" := account ]}
                  "k1" "192.168.1.7" account eq_refl eq_refl)).
  exists 1. split.
  - exists "192.168.1.7". split; [reflexivity|now left].
  - intros [|j] s Hj Hl; [|lia]. cbn in Hl. injection Hl as <-.
    split; [discriminate|reflexivity].
Defined.

Lemma authenticate_with_a_key_witness :
  let db := MkAuthDb (Some {[ "k1" := MkAccount "u" None (Some ["10.0.0.0/8"]) None ]}) in
  let lib := fun _ _ : string => Ok false in
  authenticate lib db "constructor" "203.0.113.9" = Ok (Inherited "constructor")
  /\ authenticate lib db "toString" "203.0.113.9" = Ok (Inherited "toString")
  /\ authenticate lib db "__proto__" "203.0.113.9" = Ok Undefined
  /\ authenticate lib db "k2" "203.0.113.9" = Ok Undefined.
Proof.
  intros db lib.
  pose proof (fun key H =>
    authenticate_with_a_key_that_is_not_there lib db
      {[ "k1" := MkAccount "u" None (Some ["10.0.0.0/8"]) None ]}
      key "203.0.113.9" eq_refl H) as Hk.
  split; [exact (Hk "constructor" eq_refl)|].
  split; [exact (Hk "toString" eq_refl)|].
  split; [exact (Hk "__proto__" eq_refl)|exact (Hk "k2" eq_refl)].
Defined.

End AuthDbFacts.
